(** * Verification of the frequency-based summarizer and the matrix script

    Shallow embedding of [simple_summarizer.py] and [edit.py].

    Data model.
    - A Python [str] is a [string]; a character is a code point below 256
      (the Latin-1 block), classified and case-folded as CPython does for
      those code points.
    - Python integers are [Z]; list positions are [nat].
    - The ratio is an IEEE-754 binary64 number, [float], and [*] on it is
      the primitive multiplication.
    - [word_frequencies] (a [defaultdict(int)] keyed by words, only used
      through membership, lookup and truthiness) is a [gmap string Z].
    - [sentence_scores] (a [defaultdict(int)] whose [items()] are consumed
      in insertion order by [nlargest]) is an association list in
      insertion order.
    - Calls that can raise return an [outcome].
    - [main] is a function of [sys.argv]; what it prints is the list of
      the arguments of its calls of [print] that succeeded, and it ends
      normally, by [sys.exit] or by an exception. Its dealings with the
      outside are arguments of the model: [float] on a command-line
      argument, reading the file, and the characters [sys.stdout] can
      encode, on which a [print] succeeds or raises [UnicodeEncodeError]
      (the stream is taken to stay open). Every statement about [main]
      holds whatever they are.
    - The script [edit.py] runs on literal matrices whose rows are
      distinct objects, and is modelled on list values; the statements
      about its loops on arbitrary matrices are on a heap of row objects,
      where rows can be shared. *)

From Stdlib Require Import ZArith List String Ascii Bool Lia Floats DecimalString.
From stdpp Require Import gmap strings list fin_maps sorting.

Set Warnings "-inexact-float".

Local Open Scope string_scope.
Local Open Scope Z_scope.

(** ** Outcomes of calls that may raise *)

Inductive exn := ValueError | OverflowError | IndexError.

Inductive outcome (A : Type) :=
  | Returned (a : A)
  | Raised (e : exn).
Arguments Returned {A} a.
Arguments Raised {A} e.

(** Sequencing: an exception skips the rest. *)
Global Instance outcome_bind : MBind outcome := fun A B k x =>
  match x with
  | Returned a => k a
  | Raised e => Raised e
  end.

Global Instance outcome_ret : MRet outcome := fun A a => Returned a.

(** ** Characters and [str] methods *)

Module PyStr.

Definition ord (c : ascii) : N := N_of_ascii c.

Definition between (lo hi n : N) : bool := ((lo <=? n) && (n <=? hi))%N.

(** [str.isspace] on one character, which is also the class [\s] of [re]:
    TAB..CR, FS..US, SPACE, NEL and NBSP. *)
Definition isspace (c : ascii) : bool :=
  let n := ord c in
  between 9 13 n || between 28 32 n || (n =? 133)%N || (n =? 160)%N.

(** The class [\w] of [re] on [str] patterns: alphanumeric or underscore. *)
Definition isword (c : ascii) : bool :=
  let n := ord c in
  between 48 57 n || between 65 90 n || (n =? 95)%N || between 97 122 n
  || (n =? 170)%N || between 178 179 n || (n =? 181)%N || between 185 186 n
  || between 188 190 n || between 192 214 n || between 216 246 n
  || between 248 255 n.

(** The class [[.!?]]. *)
Definition isterminal (c : ascii) : bool :=
  let n := ord c in (n =? 46)%N || (n =? 33)%N || (n =? 63)%N.

Definition lower_char (c : ascii) : ascii :=
  let n := ord c in
  if between 65 90 n || (between 192 222 n && negb (n =? 215)%N)
  then ascii_of_N (n + 32) else c.

(** [s.lower()] *)
Fixpoint lower (s : string) : string :=
  match s with
  | EmptyString => EmptyString
  | String c s' => String (lower_char c) (lower s')
  end.

Fixpoint lstrip (s : string) : string :=
  match s with
  | EmptyString => EmptyString
  | String c s' => if isspace c then lstrip s' else s
  end.

Fixpoint rstrip (s : string) : string :=
  match s with
  | EmptyString => EmptyString
  | String c s' =>
      match rstrip s' with
      | EmptyString => if isspace c then EmptyString else String c EmptyString
      | r => String c r
      end
  end.

(** [s.strip()] *)
Definition strip (s : string) : string := rstrip (lstrip s).

(** [sep.join(parts)] *)
Fixpoint join (sep : string) (parts : list string) : string :=
  match parts with
  | [] => EmptyString
  | [p] => p
  | p :: ps => p +:+ sep +:+ join sep ps
  end.

(** Truthiness of a [str]. *)
Definition truthy (s : string) : bool :=
  match s with EmptyString => false | _ => true end.

End PyStr.

(** ** The two regular expressions of the script *)

Module Re.
Import PyStr.

Definition flush (cur : string) : list string :=
  match cur with EmptyString => [] | _ => [cur] end.

(** [re.findall(r'\b\w+\b', s)]: a match starts at a word boundary, takes
    the longest run of [\w] and must end at a word boundary, which the end
    of a longest run always is; so the matches are the maximal runs of
    word characters, left to right. [cur] is the run being read. *)
Fixpoint findall_from (cur : string) (s : string) : list string :=
  match s with
  | EmptyString => flush cur
  | String c s' =>
      if isword c then findall_from (cur +:+ String c EmptyString) s'
      else (flush cur ++ findall_from EmptyString s')%list
  end.

Definition findall_words (s : string) : list string :=
  findall_from EmptyString s.

(** [re.split(r'(?<=[.!?])\s+', s)]: a separator is a longest run of
    whitespace whose first character follows one of [.!?].
    [skipping] is true inside a separator, [after_terminal] is true when
    the previous character is one of [.!?], [cur] is the piece being
    read. *)
Fixpoint split_from (skipping after_terminal : bool) (cur : string)
    (s : string) : list string :=
  match s with
  | EmptyString => [cur]
  | String c s' =>
      if skipping then
        if isspace c then split_from true false EmptyString s'
        else split_from false (isterminal c) (String c EmptyString) s'
      else if after_terminal && isspace c then
        cur :: split_from true false EmptyString s'
      else
        split_from false (isterminal c) (cur +:+ String c EmptyString) s'
  end.

Definition split_sentences (s : string) : list string :=
  split_from false false EmptyString s.

(** The word tokens of a string: [re.findall(r'\b\w+\b', s.lower())]. *)
Definition words_of (s : string) : list string := findall_words (lower s).

End Re.

(** ** The dictionaries *)

(** [defaultdict(int)] keyed by words. *)
Module Counter.

Definition contains (d : gmap string Z) (k : string) : bool :=
  bool_decide (is_Some (d !! k)).

(** [d[k]]: a missing key is first stored with the default [int() = 0]. *)
Definition getitem (d : gmap string Z) (k : string) : Z * gmap string Z :=
  match d !! k with
  | Some v => (v, d)
  | None => (0, <[k:=0]> d)
  end.

(** [d[k] = v] *)
Definition setitem (d : gmap string Z) (k : string) (v : Z) : gmap string Z :=
  <[k:=v]> d.

Definition truthy (d : gmap string Z) : bool := negb (bool_decide (d = ∅)).

End Counter.

(** [defaultdict(int)] keyed by sentence positions, in insertion order. *)
Module Scores.

Fixpoint lookup (d : list (nat * Z)) (k : nat) : option Z :=
  match d with
  | [] => None
  | (j, v) :: d' => if Nat.eqb j k then Some v else lookup d' k
  end.

(** [d[k]]: a missing key is appended with the default [0]. *)
Definition getitem (d : list (nat * Z)) (k : nat) : Z * list (nat * Z) :=
  match lookup d k with
  | Some v => (v, d)
  | None => (0, (d ++ [(k, 0)])%list)
  end.

(** [d[k] = v]: an existing key keeps its position. *)
Fixpoint setitem (d : list (nat * Z)) (k : nat) (v : Z) : list (nat * Z) :=
  match d with
  | [] => [(k, v)]
  | (j, w) :: d' =>
      if Nat.eqb j k then (j, v) :: d' else (j, w) :: setitem d' k v
  end.

(** [d.items()] *)
Definition items (d : list (nat * Z)) : list (nat * Z) := d.

End Scores.

(** ** Library functions used by the selector *)

Module Heapq.

Section Sorted.
Context {A : Type} (key : A -> Z).

Fixpoint insert_desc (x : A) (l : list A) : list A :=
  match l with
  | [] => [x]
  | y :: l' => if key x <? key y then y :: insert_desc x l' else x :: l
  end.

(** [sorted(l, key=key, reverse=True)]: stable, so elements with equal
    keys stay in their order in [l]. *)
Definition sorted_desc (l : list A) : list A := foldr insert_desc [] l.

(** [nlargest(n, l, key=key)], which the library documents as
    [sorted(l, key=key, reverse=True)[:n]]. Its three code paths ([max] for
    [n = 1], [sorted] when [n] covers the input, a bounded heap of
    [(key, -position, element)] otherwise) all list elements of equal key
    in their input order. *)
Definition nlargest (n : Z) (l : list A) : list A :=
  firstn (Z.to_nat n) (sorted_desc l).
End Sorted.

End Heapq.

Module Builtins.

Fixpoint insert_asc (x : nat) (l : list nat) : list nat :=
  match l with
  | [] => [x]
  | y :: l' => if Nat.ltb y x then y :: insert_asc x l' else x :: l
  end.

(** [sorted(l)] on integers. *)
Definition sorted (l : list nat) : list nat := foldr insert_asc [] l.

(** [float(n)] for a length [n], as [num_sentences * ratio] converts its
    left operand: the nearest binary64 number, ties to even. A length is at
    most [sys.maxsize = 2^63 - 1], the range of [of_uint63]. *)
Definition float_of_len (n : nat) : float :=
  PrimFloat.of_uint63 (Uint63.of_Z (Z.of_nat n)).

(** [int(x)]: truncation toward zero; raises on NaN and on infinities. *)
Definition int_of_float (x : float) : outcome Z :=
  match Prim2SF x with
  | S754_nan => Raised ValueError
  | S754_infinity _ => Raised OverflowError
  | S754_zero _ => Returned 0
  | S754_finite s m e => Returned (cond_Zopp s (Z.shiftl (Zpos m) e))
  end.

(** The floor of a float; undefined on NaN and on infinities. *)
Definition floor_of_float (x : float) : option Z :=
  match Prim2SF x with
  | S754_zero _ => Some 0
  | S754_finite s m e => Some (Z.shiftl (cond_Zopp s (Zpos m)) e)
  | _ => None
  end.

(** [[l[i] for i in idx]] *)
Fixpoint getitems {A} (l : list A) (idx : list nat) : outcome (list A) :=
  match idx with
  | [] => Returned []
  | i :: idx' =>
      match nth_error l i with
      | Some x => xs ← getitems l idx'; Returned (x :: xs)
      | None => Raised IndexError
      end
  end.

End Builtins.

(** ** simple_summarizer.py *)

Module Summarizer.
Import PyStr Re Builtins.

(** The module constant [STOP_WORDS], a [set] of words. *)
Definition STOP_WORDS : gset string := list_to_set [
  "a"; "an"; "and"; "the"; "is"; "are"; "was"; "were"; "he"; "she"; "it";
  "i"; "you"; "we"; "they"; "him"; "her"; "us"; "them"; "my"; "your";
  "our"; "their"; "this"; "that"; "these"; "those"; "of"; "in"; "on";
  "at"; "to"; "for"; "with"; "as"; "by"; "but"; "so"; "if"; "or"; "up";
  "down"; "out"; "into"; "from"; "about"; "just"; "can"; "will"; "would";
  "should"; "has"; "have"; "had"; "do"; "does"; "did"; "be"; "being"; "been"
].

(** [preprocess_text]: the sentences of the stripped text and the words of
    the whole lower-cased text. *)
Definition preprocess_text (text : string) : list string * list string :=
  let sentences := split_sentences (strip text) in
  let words := findall_words (lower text) in
  (sentences, words).

(** Body of the loop of [calculate_word_frequencies]. *)
Definition count_word (word_frequencies : gmap string Z) (word : string)
    : gmap string Z :=
  if bool_decide (word ∈ STOP_WORDS) then word_frequencies
  else
    let '(v, d) := Counter.getitem word_frequencies word in
    Counter.setitem d word (v + 1).

(** [calculate_word_frequencies]: the loop over [words], from the empty
    [defaultdict]. *)
Definition calculate_word_frequencies (words : list string) : gmap string Z :=
  fold_left count_word words ∅.

(** Body of the inner loop of [score_sentences]; the state is the pair of
    both dictionaries, since subscripting a [defaultdict] can store. *)
Definition score_word (i : nat) (st : list (nat * Z) * gmap string Z)
    (word : string) : list (nat * Z) * gmap string Z :=
  let '(sentence_scores, word_frequencies) := st in
  if Counter.contains word_frequencies word then
    let '(cur, sentence_scores) := Scores.getitem sentence_scores i in
    let '(f, word_frequencies) := Counter.getitem word_frequencies word in
    (Scores.setitem sentence_scores i (cur + f), word_frequencies)
  else st.

(** The outer loop, from position [i] on. *)
Fixpoint score_loop (i : nat) (sentences : list string)
    (st : list (nat * Z) * gmap string Z) : list (nat * Z) * gmap string Z :=
  match sentences with
  | [] => st
  | sentence :: rest =>
      let sentence_words := findall_words (lower sentence) in
      score_loop (S i) rest (fold_left (score_word i) sentence_words st)
  end.

(** [score_sentences] with the final state of its argument dictionary. *)
Definition score_sentences_state (sentences : list string)
    (word_frequencies : gmap string Z) : list (nat * Z) * gmap string Z :=
  score_loop 0 sentences ([], word_frequencies).

(** [score_sentences]: the returned [sentence_scores]. *)
Definition score_sentences (sentences : list string)
    (word_frequencies : gmap string Z) : list (nat * Z) :=
  fst (score_sentences_state sentences word_frequencies).

(** The two strings returned by the guards of [summarize_text]. *)
Definition EMPTY_INPUT_MESSAGE : string := "Error: Input text is empty.".

Definition NO_FREQUENCIES_MESSAGE : string :=
  "Error: Could not calculate word frequencies (text may contain only stop words or be too short).".

(** [max(1, int(num_sentences * ratio))] *)
Definition summary_sentences_count (num_sentences : nat) (ratio : float)
    : outcome Z :=
  n ← int_of_float (float_of_len num_sentences * ratio)%float;
  Returned (Z.max 1 n).



(** Step 5 of [summarize_text]: the sorted positions of the top scores. *)
Definition top_indices (sentence_scores : list (nat * Z)) (count : Z)
    : list nat :=
  sorted (map fst (Heapq.nlargest snd count (Scores.items sentence_scores))).

(** [summarize_text(text, ratio)]: the returned string, or the exception
    of [int] on a product that is not finite. *)
Definition summarize_text (text : string) (ratio : float) : outcome string :=
  if negb (truthy text) then Returned EMPTY_INPUT_MESSAGE
  else
    let '(sentences, words) := preprocess_text text in
    let word_frequencies := calculate_word_frequencies words in
    if negb (Counter.truthy word_frequencies) then
      Returned NO_FREQUENCIES_MESSAGE
    else
      let sentence_scores := score_sentences sentences word_frequencies in
      let num_sentences := length sentences in
      count ← summary_sentences_count num_sentences ratio;
      summary_parts ← getitems sentences (top_indices sentence_scores count);
      Returned (join " " summary_parts).

(** The value of the variable [top_indices] when [summarize_text] has
    passed both guards. *)
Definition selected_indices (text : string) (ratio : float)
    : outcome (list nat) :=
  let '(sentences, words) := preprocess_text text in
  let word_frequencies := calculate_word_frequencies words in
  let sentence_scores := score_sentences sentences word_frequencies in
  count ← summary_sentences_count (length sentences) ratio;
  Returned (top_indices sentence_scores count).

(** The tokenized sentences, the frequency map and the score map of a text. *)
Definition sentences_of (text : string) : list string :=
  fst (preprocess_text text).

Definition frequencies_of (text : string) : gmap string Z :=
  calculate_word_frequencies (snd (preprocess_text text)).

Definition scores_of (text : string) : list (nat * Z) :=
  score_sentences (sentences_of text) (frequencies_of text).

(** The text of the concrete scenario of the specification. *)
Definition pets : string :=
  "The cat sat. Dogs bark loudly. Cats and dogs are pets.".


(** The sentences that have an entry in the score map, in text order. *)
Definition scored_sentences (text : string) : list string :=
  (fun i => nth i (sentences_of text) EmptyString) <$> (scores_of text).*1.

End Summarizer.

(** ** edit.py *)

Module MatMul.

Definition X : list (list Z) :=
  [[12; 7; 3];
   [4; 5; 6];
   [7; 8; 9]].

Definition Y : list (list Z) :=
  [[5; 8; 1; 2];
   [6; 7; 3; 0];
   [4; 5; 9; 1]].

Definition result0 : list (list Z) :=
  [[0; 0; 0; 0];
   [0; 0; 0; 0];
   [0; 0; 0; 0]].

(** [l[i]] for [i >= 0] *)
Definition getitem {A} (l : list A) (i : nat) : outcome A :=
  match l !! i with
  | Some x => Returned x
  | None => Raised IndexError
  end.

(** [result[i][j] += v] on the literal [result] of the script, whose rows
    are three distinct objects and none of them a row of [X] or [Y]:
    changing the row object [result[i]] changes row [i] of the value and
    nothing else. Shared rows are the matter of [MatMulHeap]. *)
Definition iadd_entry (result : list (list Z)) (i j : nat) (v : Z)
    : outcome (list (list Z)) :=
  row ← getitem result i;
  old ← getitem row j;
  Returned (<[i := <[j := old + v]> row]> result).

(** [for i in range(n): body], threading the state. *)
Fixpoint for_range {St} (n : nat) (start : nat) (body : nat -> St -> outcome St)
    (s : St) : outcome St :=
  match n with
  | O => Returned s
  | S n' => s' ← body start s; for_range n' (S start) body s'
  end.

(** The three nested loops of the script. *)
Definition multiply (X Y result : list (list Z)) : outcome (list (list Z)) :=
  for_range (length X) 0 (fun i result =>
    y0 ← getitem Y 0;
    for_range (length y0) 0 (fun j result =>
      for_range (length Y) 0 (fun k result =>
        xi ← getitem X i;
        xik ← getitem xi k;
        yk ← getitem Y k;
        ykj ← getitem yk j;
        iadd_entry result i j (xik * ykj)) result) result) result.

Definition script : outcome (list (list Z)) := multiply X Y result0.

(** Entry [(i, j)] of a matrix. *)
Definition entry (M : list (list Z)) (i j : nat) : option Z :=
  row ← M !! i; row !! j.

(** The sum over [k] of [A[i][k] * B[k][j]], for [k] below [n]. *)
Fixpoint dot (A B : list (list Z)) (i j : nat) (n : nat) : option Z :=
  match n with
  | O => Some 0
  | S k =>
      acc ← dot A B i j k;
      a ← entry A i k;
      b ← entry B k j;
      Some (acc + a * b)
  end.

End MatMul.

(** * Vocabulary of the proofs *)

(** ** Rounding of binary64 products *)

Module Rounding.

(** What [k] steps of [shr_1] have discarded from [M]: the record holds the
    quotient, [shr_r] tells whether the remainder reaches half of [2^k] and
    [shr_s] whether it is neither zero nor that half. *)
Definition shifted (M k : Z) (mrs : shr_record) : Prop :=
  0 <= shr_m mrs /\
  exists rem, M = shr_m mrs * 2 ^ k + rem /\ 0 <= rem < 2 ^ k /\
    (shr_r mrs = true <-> 2 ^ k <= 2 * rem) /\
    (shr_s mrs = true <-> rem <> 0 /\ 2 * rem <> 2 ^ k).

(** [q] is [M / 2^k] rounded to the nearest integer, ties to even. *)
Definition nearest_even (M k q : Z) : Prop :=
  (2 * q - 1) * 2 ^ k <= 2 * M <= (2 * q + 1) * 2 ^ k /\
  (2 * M = (2 * q - 1) * 2 ^ k -> Z.even q = true) /\
  (2 * M = (2 * q + 1) * 2 ^ k -> Z.even q = true).

(** [x] is the float of sign [sx] and magnitude [q * 2^E], renormalised by
    at most one binade, or the infinity when its exponent overflows. *)
Definition rounded (sx : bool) (q E : Z) (x : spec_float) : Prop :=
  (q = 0 /\ x = S754_zero sx) \/
  exists m' e', q = Zpos m' * 2 ^ (e' - E) /\ E <= e' <= E + 1 /\
    ((e' <= 971 /\ x = S754_finite sx m' e') \/
     (971 < e' /\ x = S754_infinity sx)).

End Rounding.

(** ** The scorer as a function of each sentence *)

Module ScoreModel.
Import Re.

(** Sum of the frequencies of the words of a sentence. *)
Definition word_total (wf : gmap string Z) (ws : list string) : Z :=
  foldr (fun w acc => default 0 (wf !! w) + acc) 0 ws.

(** Does some word of the sentence have a frequency? *)
Definition any_hit (wf : gmap string Z) (ws : list string) : bool :=
  existsb (Counter.contains wf) ws.

Definition entry_of (wf : gmap string Z) (i : nat) (s : string) : list (nat * Z) :=
  if any_hit wf (words_of s) then [(i, word_total wf (words_of s))] else [].

Fixpoint entries (wf : gmap string Z) (i : nat) (sentences : list string)
    : list (nat * Z) :=
  match sentences with
  | [] => []
  | s :: rest => entry_of wf i s ++ entries wf (S i) rest
  end.

End ScoreModel.

(** ** The order of selection *)

Module SelectionOrder.

(** The order in which [nlargest] lists entries built in increasing order
    of position: higher score first, and lower position first among equal
    scores. *)
Definition before (x y : nat * Z) : Prop :=
  snd y < snd x \/ (snd x = snd y /\ (fst x < fst y)%nat).

Definition position_lt (x y : nat * Z) : Prop := (fst x < fst y)%nat.

End SelectionOrder.

(** ** The loops of the matrix script, body by body *)

Module MatMulLoops.
Import MatMul.

(** A matrix of [r] rows of [c] entries. *)
Definition shaped (M : list (list Z)) (r c : nat) : Prop :=
  length M = r /\ Forall (fun row => length row = c) M.

(** The body of the innermost loop. *)
Definition body_k (A B : list (list Z)) (i j k : nat) (result : list (list Z)) : outcome (list (list Z)) :=
  xi ← getitem A i;
  xik ← getitem xi k;
  yk ← getitem B k;
  ykj ← getitem yk j;
  iadd_entry result i j (xik * ykj).

(** The body of the middle loop: the loop over [k] for one entry. *)
Definition body_j (A B : list (list Z)) (i j : nat) (result : list (list Z)) : outcome (list (list Z)) :=
  for_range (length B) 0 (body_k A B i j) result.

(** The body of the outer loop: the loop over [j] for one row. *)
Definition body_i (A B : list (list Z)) (i : nat) (result : list (list Z)) : outcome (list (list Z)) :=
  y0 ← getitem B 0;
  for_range (length y0) 0 (body_j A B i) result.

End MatMulLoops.

(** ** The shape of a sentence *)

Module SentenceShape.
Import PyStr Re.

(** Does [s] hold a separator of [re.split(r'(?<=[.!?])\s+', _)]: a
    whitespace character right after one of [.!?]? [after_terminal] stands
    for the character before [s]. *)
Fixpoint has_split (after_terminal : bool) (s : string) : bool :=
  match s with
  | EmptyString => false
  | String c s' => (after_terminal && isspace c) || has_split (isterminal c) s'
  end.

(** Is the last character of [s] one of [.!?]? [after_terminal] stands for
    the character before [s]. *)
Fixpoint ends_terminal (after_terminal : bool) (s : string) : bool :=
  match s with
  | EmptyString => after_terminal
  | String c s' => ends_terminal (isterminal c) s'
  end.

Definition starts_space (s : string) : bool :=
  match s with
  | EmptyString => false
  | String c _ => isspace c
  end.

Fixpoint ends_space (s : string) : bool :=
  match s with
  | EmptyString => false
  | String c EmptyString => isspace c
  | String _ s' => ends_space s'
  end.

(** A sentence as the tokenizer of a stripped text produces it. *)
Definition well_formed (s : string) : Prop :=
  s <> EmptyString /\ starts_space s = false /\ ends_space s = false /\
  has_split false s = false.

(** [P] holds of every element but the last. *)
Fixpoint all_but_last {A} (P : A -> Prop) (l : list A) : Prop :=
  match l with
  | [] => True
  | [_] => True
  | x :: l' => P x /\ all_but_last P l'
  end.

(** The state of the scan: the previous character is the last of the piece
    being read, which holds no separator. *)
Definition reading (at_term : bool) (cur : string) : Prop :=
  at_term = ends_terminal false cur /\ has_split false cur = false.

(** No piece holds a separator, and every piece but the last ends with one
    of [.!?]. *)
Definition pieces_ok (l : list string) : Prop :=
  Forall (fun p => has_split false p = false) l /\
  all_but_last (fun p => ends_terminal false p = true) l.

(** A piece without whitespace at either end. *)
Definition trimmed (p : string) : Prop :=
  p <> EmptyString /\ starts_space p = false /\ ends_space p = false.

End SentenceShape.

(** ** The selected sentences *)

Module SelectionModel.
Import Summarizer.

(** The sentences at the positions selected with a given count. *)
Definition picked (text : string) (count : Z) : list string :=
  (fun i => nth i (sentences_of text) EmptyString) <$>
    top_indices (scores_of text) count.

End SelectionModel.

(** ** Counting and the shape of a word *)

Module WordModel.
Import PyStr.

(** How often [w] occurs in [words]. *)
Definition occurrences (w : string) (words : list string) : Z :=
  Z.of_nat (length (filter (fun x => x = w) words)).

(** Do all characters of [s] satisfy [p]? *)
Fixpoint all_chars (p : ascii -> bool) (s : string) : bool :=
  match s with
  | EmptyString => true
  | String c s' => p c && all_chars p s'
  end.

(** A run of word characters that lower-casing leaves unchanged. *)
Definition word_shaped (w : string) : Prop :=
  all_chars isword w = true /\ lower w = w.

End WordModel.

(** ** The command line of simple_summarizer.py *)

Module Cli.
Import PyStr Re Builtins Summarizer WordModel.

(** An exception that ends a run of [main]: one raised by a call
    ([summarize_text], a subscript, [float]), or the [UnicodeEncodeError]
    of [print] when [sys.stdout] cannot encode a character. *)
Inductive uncaught : Type :=
  | CallRaised (e : exn)
  | UnicodeEncodeError.

(** [UnicodeEncodeError] is a subclass of [ValueError]. *)
Definition is_ValueError (e : uncaught) : bool :=
  match e with
  | CallRaised ValueError | UnicodeEncodeError => true
  | CallRaised _ => false
  end.

(** A run of [main]: what it has printed, one string for each call of
    [print] that succeeded, and how it went on: normally with a value, by
    [sys.exit], or by an exception nobody caught. *)
Inductive run (A : Type) : Type :=
  | Done (out : list string) (a : A)
  | Exit (out : list string) (code : Z)
  | Uncaught (out : list string) (e : uncaught).
Arguments Done {A} out a.
Arguments Exit {A} out code.
Arguments Uncaught {A} out e.

Definition printed {A} (out : list string) (r : run A) : run A :=
  match r with
  | Done out' a => Done (out ++ out')%list a
  | Exit out' code => Exit (out ++ out')%list code
  | Uncaught out' e => Uncaught (out ++ out')%list e
  end.

Global Instance run_bind : MBind run := fun A B k r =>
  match r with
  | Done out a => printed out (k a)
  | Exit out code => Exit out code
  | Uncaught out e => Uncaught out e
  end.

Definition sys_exit {A} (code : Z) : run A := Exit [] code.

(** A call that may raise. *)
Definition call {A} (o : outcome A) : run A :=
  match o with
  | Returned a => Done [] a
  | Raised e => Uncaught [] (CallRaised e)
  end.

(** [try: body  except ValueError: handler]; [sys.exit] raises
    [SystemExit], which is no [ValueError]. *)
Definition try_except_ValueError {A} (body handler : run A) : run A :=
  match body with
  | Uncaught out e => if is_ValueError e then printed out handler else body
  | _ => body
  end.

(** [l[i]] for [i >= 0] *)
Definition getitem {A} (l : list A) (i : nat) : outcome A :=
  match l !! i with
  | Some x => Returned x
  | None => Raised IndexError
  end.

(** [s * n] *)
Fixpoint str_mul (s : string) (n : nat) : string :=
  match n with
  | O => EmptyString
  | S n' => s +:+ str_mul s n'
  end.

(** [needle in s] *)
Fixpoint str_contains (needle s : string) : bool :=
  String.prefix needle s ||
  match s with
  | EmptyString => false
  | String _ s' => str_contains needle s'
  end.

(** [str(n)] for an [int] that is not negative. *)
Definition str_of_int (n : Z) : string :=
  NilZero.string_of_uint (N.to_uint (Z.to_N n)).

(** The integer nearest to [n / d], ties to even, for [0 <= n] and
    [0 < d]. *)
Definition round_half_even (n d : Z) : Z :=
  let q := n / d in
  let r := n mod d in
  if 2 * r <? d then q
  else if d <? 2 * r then q + 1
  else if Z.even q then q else q + 1.

(** The magnitude [m * 2^e] in hundredths, rounded. *)
Definition hundredths (m : positive) (e : Z) : Z :=
  if 0 <=? e then Zpos m * 2 ^ e * 100
  else round_half_even (Zpos m * 100) (2 ^ (- e)).

Definition two_digits (n : Z) : string :=
  if n <? 10 then "0" +:+ str_of_int n else str_of_int n.

Definition sign_str (s : bool) : string := if s then "-" else "".

(** [f"{x:.2f}"]: the decimal expansion of the exact value of [x], rounded
    to two places, ties to even. *)
Definition format_2f (x : float) : string :=
  match Prim2SF x with
  | S754_nan => "nan"
  | S754_infinity s => sign_str s +:+ "inf"
  | S754_zero s => sign_str s +:+ "0.00"
  | S754_finite s m e =>
      let h := hundredths m e in
      sign_str s +:+ str_of_int (h / 100) +:+ "." +:+ two_digits (h mod 100)
  end.

Definition NL : string := String (ascii_of_nat 10) EmptyString.

Definition USAGE : string :=
  "Usage: python simple_summarizer.py <filepath> [summary_ratio]".

Definition RATIO_RANGE_MESSAGE : string :=
  "Error: Summary ratio must be between 0.0 and 1.0.".

Definition RATIO_NUMBER_MESSAGE : string :=
  "Error: Summary ratio must be a number.".

(** What [open(filepath, 'r', encoding='utf-8')] and [f.read()] come to:
    the text, [FileNotFoundError], or another [Exception] with its
    [str]. *)
Inductive file_result : Type :=
  | FileText (text : string)
  | FileNotFound
  | FileError (message : string).

Section Main.

(** What [main] takes from outside: [float] on a [str], which returns a
    float or raises [ValueError]; the file system; and the encoding of
    [sys.stdout], given by the characters above 127 it has (the encodings
    of a standard stream all have the ASCII characters). *)
Variable float_of_str : string -> option float.
Variable open_read : string -> file_result.
Variable stdout_encodes : ascii -> bool.

(** Can [sys.stdout] encode [s]? *)
Definition printable (s : string) : bool :=
  all_chars (fun c => (ord c <? 128)%N || stdout_encodes c) s.

(** [print(s)]: the text is encoded when it is written, with the error
    handler [strict]. *)
Definition print (s : string) : run unit :=
  if printable s then Done [s] tt else Uncaught [] UnicodeEncodeError.

(** [float(arg)] *)
Definition float_call (arg : string) : run float :=
  match float_of_str arg with
  | Some x => Done [] x
  | None => Uncaught [] (CallRaised ValueError)
  end.

(** The [try] statement around [float(sys.argv[2])]. *)
Definition parse_ratio (argv : list string) : run float :=
  try_except_ValueError
    (arg ← call (getitem argv 2);
     ratio ← float_call arg;
     if negb ((0 <? ratio)%float && (ratio <=? 1)%float) then
       print RATIO_RANGE_MESSAGE;; sys_exit 1
     else Done [] ratio)
    (print RATIO_NUMBER_MESSAGE;; sys_exit 1).

(** The [try] statement around [open] and [read]; its handlers print
    outside the [try]. *)
Definition read_text (filepath : string) : run string :=
  match open_read filepath with
  | FileText text => Done [] text
  | FileNotFound =>
      print ("Error: File not found at '" +:+ filepath +:+ "'");; sys_exit 1
  | FileError e =>
      print ("An error occurred while reading the file: " +:+ e);; sys_exit 1
  end.

(** The operand of the line "Summary Sentence Count". *)
Definition summary_count_str (summary : string) : string :=
  if truthy summary && negb (str_contains "Error" summary)
  then str_of_int (Z.of_nat (length (split_sentences (strip summary))))
  else "N/A".

(** The arguments of the nine calls of [print] of the report. *)
Definition report (text : string) (ratio : float) (summary : string)
    : list string :=
  let original_sentences := length (split_sentences (strip text)) in
  [ str_mul "=" 60;
    "Text Summarization Report (Ratio: " +:+ format_2f ratio +:+ ")";
    str_mul "=" 60;
    "Original Text Sentence Count: " +:+ str_of_int (Z.of_nat original_sentences);
    "Summary Sentence Count: " +:+ summary_count_str summary;
    str_mul "-" 60;
    NL +:+ "--- GENERATED SUMMARY ---" +:+ NL;
    summary;
    NL +:+ str_mul "=" 60 ].

(** One [print] after the other. *)
Fixpoint print_lines (lines : list string) : run unit :=
  match lines with
  | [] => Done [] tt
  | s :: rest => print s;; print_lines rest
  end.

(** [main] up to the [try] statement that reads the file: the checks of
    the command line, which leave the file path and the ratio. *)
Definition check_args (argv : list string) : run (string * float) :=
  (if (length argv <? 2)%nat || (3 <? length argv)%nat then
     print USAGE;; sys_exit 1
   else Done [] tt);;
  filepath ← call (getitem argv 1);
  ratio ← (if (length argv =? 3)%nat then parse_ratio argv
           else Done [] 0.2%float);
  Done [] (filepath, ratio).

(** [main()] with [sys.argv = argv]. *)
Definition main (argv : list string) : run unit :=
  checked ← check_args argv;
  text ← read_text checked.1;
  summary ← call (summarize_text text checked.2);
  print_lines (report text checked.2 summary).

End Main.

End Cli.

(** ** The way of [main] through its checks *)

Module CliSteps.
Import Summarizer Cli.

(** Made of ASCII characters only. *)
Definition ascii_only (s : string) : bool :=
  WordModel.all_chars (fun c => (PyStr.ord c <? 128)%N) s.

Section Steps.
Variable float_of_str : string -> option float.
Variable open_read : string -> file_result.
Variable stdout_encodes : ascii -> bool.

(** [main] from the call of [summarize_text] on. *)
Definition summarize_and_report (text : string) (ratio : float) : run unit :=
  summary ← call (summarize_text text ratio);
  print_lines stdout_encodes (report text ratio summary).

(** [main] from the [try] statement that reads the file on. *)
Definition read_and_report (filepath : string) (ratio : float) : run unit :=
  text ← read_text open_read stdout_encodes filepath;
  summarize_and_report text ratio.

(** The command lines that pass the checks of [main], with the file path
    and the ratio they stand for. *)
Inductive accepted : list string -> string -> float -> Prop :=
  | accepted_default (prog filepath : string) :
      accepted [prog; filepath] filepath 0.2%float
  | accepted_ratio (prog filepath arg : string) (ratio : float) :
      float_of_str arg = Some ratio ->
      (0 <? ratio)%float = true -> (ratio <=? 1)%float = true ->
      accepted [prog; filepath; arg] filepath ratio.

End Steps.

End CliSteps.

(** ** The loops of edit.py on row objects *)

Module MatMulHeap.
Import MatMul.

(** The rows of a Python matrix are objects: [result[i][j] += v] changes
    the row object [result[i]], and every place that holds this object sees
    the change. A heap maps the address of a row object to its entries, and
    a matrix is the list of the addresses of its rows, a [list nat]. The outer lists are
    never changed by the loops, so they are values. *)
Definition heap : Type := nat -> list Z.

(** What the matrix holds in heap [h]. *)
Definition view (h : heap) (M : list nat) : list (list Z) := h <$> M.

(** Item assignment [row[j] = v] on the object at [a]. *)
Definition store (h : heap) (a : nat) (j : nat) (v : Z) : heap :=
  fun b => if Nat.eqb b a then <[j := v]> (h a) else h b.

(** [result[i][j] += X[i][k] * Y[k][j]]: the target [result[i]] and its
    item [j] are read first, then the right-hand side, then the sum is
    stored in the row object. *)
Definition body_k (X Y result : list nat) (i j k : nat) (h : heap) : outcome heap :=
  r ← getitem result i;
  old ← getitem (h r) j;
  xi ← getitem X i;
  xik ← getitem (h xi) k;
  yk ← getitem Y k;
  ykj ← getitem (h yk) j;
  Returned (store h r j (old + xik * ykj)).

Definition body_j (X Y result : list nat) (i j : nat) (h : heap) : outcome heap :=
  for_range (length Y) 0 (body_k X Y result i j) h.

Definition body_i (X Y result : list nat) (i : nat) (h : heap) : outcome heap :=
  y0 ← getitem Y 0;
  for_range (length (h y0)) 0 (body_j X Y result i) h.

(** The three nested loops. *)
Definition multiply (X Y result : list nat) (h : heap) : outcome heap :=
  for_range (length X) 0 (body_i X Y result) h.

(** No row of [result] is a row of [X] or [Y] or another row of
    [result]. *)
Definition separate (X Y result : list nat) : Prop :=
  NoDup result /\ forall a, a ∈ result -> (a ∉ X) /\ (a ∉ Y).

(** The loops in step: the heap [h] and the matrix value [R] hold the same
    [result], and [h] is [h0] elsewhere. *)
Definition in_step (h0 : heap) (result : list nat) (h : heap) (R : list (list Z)) : Prop :=
  view h result = R /\ forall a, a ∉ result -> h a = h0 a.

(** Outcomes in step. *)
Definition outcomes_in_step (h0 : heap) (result : list nat)
    (o : outcome heap) (O : outcome (list (list Z))) : Prop :=
  match O with
  | Returned R' => exists h', o = Returned h' /\ in_step h0 result h' R'
  | Raised e => o = Raised e
  end.

(** The literal matrices of the script as nine row objects. *)
Definition script_heap : heap :=
  fun a => nth a (X ++ Y ++ result0)%list [].

(** A row of [X] with a third entry, at address 0, where [Y] has the two
    rows at addresses 1 and 2. *)
Definition wide_heap : heap :=
  fun a => nth a [[1; 2; 100]; [3]; [4]; [0]] [].

End MatMulHeap.

Local Close Scope string_scope.

(** * Facts about binary64 rounding *)

Module FloatFacts.
Import Builtins Rounding.

(** The number of binary digits of a mantissa. *)
Lemma digits2_pos_bounds (p : positive) :
  2 ^ (Zpos (digits2_pos p) - 1) <= Zpos p < 2 ^ Zpos (digits2_pos p).
Proof.
  induction p as [p IH | p IH |]; cbn [digits2_pos].
  - rewrite Pos2Z.inj_succ.
    replace (Z.succ (Zpos (digits2_pos p)) - 1) with (Zpos (digits2_pos p) - 1 + 1) by lia.
    rewrite Z.pow_succ_r by lia. rewrite Z.pow_add_r by lia. lia.
  - rewrite Pos2Z.inj_succ.
    replace (Z.succ (Zpos (digits2_pos p)) - 1) with (Zpos (digits2_pos p) - 1 + 1) by lia.
    rewrite Z.pow_succ_r by lia. rewrite Z.pow_add_r by lia. lia.
  - cbn. lia.
Qed.

(** Digits are determined by the bracketing powers of two. *)
Lemma digits2_pos_unique (p : positive) (d : Z) :
  2 ^ (d - 1) <= Zpos p < 2 ^ d -> Zpos (digits2_pos p) = d.
Proof.
  intros [Hlo Hhi]. pose proof (digits2_pos_bounds p) as [Blo Bhi].
  assert (0 < d).
  { destruct (Z.ltb_spec 0 d); [done|]. 
    assert (2 ^ d <= 2 ^ 0) by (apply Z.pow_le_mono_r; lia). simpl in *. lia. }
  destruct (Z.lt_trichotomy (Zpos (digits2_pos p)) d) as [Hlt | [Heq | Hgt]]; [|done|].
  - assert (2 ^ Zpos (digits2_pos p) <= 2 ^ (d - 1)) by (apply Z.pow_le_mono_r; lia). lia.
  - assert (2 ^ d <= 2 ^ (Zpos (digits2_pos p) - 1)) by (apply Z.pow_le_mono_r; lia). lia.
Qed.

Lemma shifted_init (M : Z) : 0 <= M -> shifted M 0 (Build_shr_record M false false).
Proof.
  intros HM. split; [done|]. exists 0. cbn. repeat split; try lia; try discriminate.
Qed.

Lemma shr_1_shifted (M k : Z) (mrs : shr_record) :
  0 <= k -> shifted M k mrs -> shifted M (k + 1) (shr_1 mrs).
Proof.
  intros Hk [Hm (rem & HM & Hrem & Hr & Hs)].
  destruct mrs as [m r s]. cbn [shr_m shr_r shr_s] in *.
  assert (Hp : 2 ^ (k + 1) = 2 * 2 ^ k) by (rewrite Z.pow_add_r by lia; lia).
  assert (0 < 2 ^ k) by (apply Z.pow_pos_nonneg; lia).
  assert (Hrs : orb r s = true <-> rem <> 0).
  { rewrite orb_true_iff. split.
    - intros [Ht | Ht]; [apply Hr in Ht | apply Hs in Ht]; lia.
    - intros Hne. destruct (Z.eq_dec (2 * rem) (2 ^ k)).
      + left. apply Hr. lia.
      + right. apply Hs. lia. }
  destruct m as [| [p | p |] | p]; try lia; unfold shifted; cbn [shr_1 shr_m shr_r shr_s]; (split; [lia|]).
  - exists rem. rewrite Hp, Hrs. split; [lia|]. split; [lia|].
    split; [split; [discriminate | lia] | lia].
  - exists (2 ^ k + rem). rewrite Hp, Hrs. split; [lia|]. split; [lia|].
    split; [split; [lia | done] | lia].
  - exists rem. rewrite Hp, Hrs. split; [lia|]. split; [lia|].
    split; [split; [discriminate | lia] | lia].
  - exists (2 ^ k + rem). rewrite Hp, Hrs. split; [lia|]. split; [lia|].
    split; [split; [lia | done] | lia].
Qed.

Lemma iter_shr_1_shifted (p : positive) :
  forall M k mrs, 0 <= k -> shifted M k mrs ->
    shifted M (k + Zpos p) (@SpecFloat.iter_pos shr_record shr_1 p mrs).
Proof.
  induction p as [p IH | p IH |]; intros M k mrs Hk Hs; cbn [SpecFloat.iter_pos].
  - replace (k + Zpos p~1) with (k + 1 + Zpos p + Zpos p) by lia.
    apply IH; [lia|]. apply IH; [lia|]. by apply shr_1_shifted.
  - replace (k + Zpos p~0) with (k + Zpos p + Zpos p) by lia.
    apply IH; [lia|]. by apply IH.
  - by apply shr_1_shifted.
Qed.

Lemma round_nearest_even_shifted (M k : Z) (mrs : shr_record) :
  0 <= k -> shifted M k mrs ->
  nearest_even M k (round_nearest_even (shr_m mrs) (loc_of_shr_record mrs)).
Proof.
  intros Hk [Hm (rem & HM & Hrem & Hr & Hs)].
  destruct mrs as [m r s]. cbn [shr_m shr_r shr_s] in *.
  assert (0 < 2 ^ k) by (apply Z.pow_pos_nonneg; lia).
  unfold nearest_even.
  destruct r, s; cbn [loc_of_shr_record round_nearest_even].
  - assert (2 ^ k <= 2 * rem) by (by apply Hr).
    assert (rem <> 0 /\ 2 * rem <> 2 ^ k) by (by apply Hs).
    repeat split; try nia.
  - assert (2 ^ k <= 2 * rem) by (by apply Hr).
    assert (2 * rem = 2 ^ k).
    { destruct (Z.eq_dec (2 * rem) (2 ^ k)); [done|].
      assert (false = true) by (apply Hs; lia). discriminate. }
    destruct (Z.even m) eqn:Hev.
    + repeat split; try nia. done.
    + repeat split; try nia.
      * intros _. rewrite Z.even_add, Hev. done.
  - assert (~ 2 ^ k <= 2 * rem) by (intros Hc; apply Hr in Hc; discriminate).
    repeat split; try nia.
  - assert (~ 2 ^ k <= 2 * rem) by (intros Hc; apply Hr in Hc; discriminate).
    assert (rem = 0).
    { destruct (Z.eq_dec rem 0); [done|].
      assert (false = true) by (apply Hs; lia). discriminate. }
    repeat split; try nia.
Qed.

Lemma nearest_even_mono (M1 k1 q1 M2 k2 q2 : Z) :
  0 <= k1 -> 0 <= k2 ->
  nearest_even M1 k1 q1 -> nearest_even M2 k2 q2 ->
  M1 * 2 ^ k2 <= M2 * 2 ^ k1 -> q1 <= q2.
Proof.
  intros Hk1 Hk2 ([L1 U1] & E1 & _) ([L2 U2] & _ & E2) Hle.
  assert (HA : 0 < 2 ^ k1) by (apply Z.pow_pos_nonneg; lia).
  assert (HB : 0 < 2 ^ k2) by (apply Z.pow_pos_nonneg; lia).
  set (A := 2 ^ k1) in *. set (B := 2 ^ k2) in *.
  destruct (Z.le_gt_cases q1 q2) as [|Hgt]; [done|exfalso].
  assert (H1 : (2 * q1 - 1) * A * B <= 2 * M1 * B) by nia.
  assert (H2 : 2 * M2 * A <= (2 * q2 + 1) * B * A) by nia.
  assert (H3 : 2 * M1 * B <= 2 * M2 * A) by nia.
  assert (Hq : q1 = q2 + 1) by nia.
  subst q1.
  assert (Ha : 2 * M1 = (2 * (q2 + 1) - 1) * A) by nia.
  assert (Hb : 2 * M2 = (2 * q2 + 1) * B) by nia.
  apply E1 in Ha. apply E2 in Hb.
  rewrite Z.even_add, Hb in Ha. discriminate.
Qed.

Lemma fexp_eq (x : Z) : fexp prec emax x = Z.max (x - 53) (-1074).
Proof. reflexivity. Qed.

Lemma pow2_53 : 2 ^ 53 = 9007199254740992.
Proof. reflexivity. Qed.

Lemma pow2_52 : 2 ^ 52 = 4503599627370496.
Proof. reflexivity. Qed.

(** Rounding an exact positive magnitude [M * 2^e]. *)
Lemma binary_round_aux_exact (sx : bool) (M : positive) (e E : Z) :
  E = Z.max (Z.max (Zpos (digits2_pos M) + e - 53) (-1074)) e ->
  exists q, nearest_even (Zpos M) (E - e) q /\ 0 <= q /\
    rounded sx q E (binary_round_aux prec emax sx (Zpos M) e loc_Exact).
Proof.
  intros HEdef. unfold binary_round_aux, shr_fexp.
  change (emax - prec) with 971.
  cbn [shr_record_of_loc Zdigits2].
  pose proof (digits2_pos_bounds M) as [Dlo Dhi].
  set (d := Zpos (digits2_pos M)) in *.
  rewrite !fexp_eq.
  destruct (Z.max (d + e - 53) (-1074) - e) as [| k | k] eqn:Hk.
  - (* nothing to discard *)
    assert (HE : E = e) by lia.
    cbn [shr shr_m loc_of_shr_record round_nearest_even].
    cbn [shr_record_of_loc Zdigits2]. fold d. rewrite fexp_eq, Hk.
    cbn [shr shr_m].
    exists (Zpos M). rewrite HE, Z.sub_diag. split; [|split; [lia|]].
    + unfold nearest_even. cbn. split; [lia|]. split; lia.
    + right. exists M, e. rewrite Z.sub_diag. cbn.
      split; [lia|]. split; [lia|].
      destruct (Z.leb_spec e 971); [left | right]; done.
  - (* [k] low bits are discarded *)
    assert (HE : E = e + Zpos k) by lia.
    cbn [shr].
    pose proof (iter_shr_1_shifted k (Zpos M) 0 _ (Z.le_refl 0)
                  (shifted_init (Zpos M) (Pos2Z.is_nonneg M))) as Hsh.
    rewrite Z.add_0_l in Hsh.
    pose proof (round_nearest_even_shifted _ _ _ (Pos2Z.is_nonneg k) Hsh) as Hq.
    set (q := round_nearest_even _ _) in *.
    assert (Hpk : 0 < 2 ^ Zpos k) by (apply Z.pow_pos_nonneg; lia).
    assert (Hq0 : 0 <= q).
    { destruct Hq as ([_ U] & _). nia. }
    assert (Hq53 : q <= 2 ^ 53).
    { destruct Hq as ([L _] & _).
      assert (2 ^ d <= 2 ^ (Zpos k + 53)) by (apply Z.pow_le_mono_r; lia).
      rewrite Z.pow_add_r in * by lia. nia. }
    exists q. replace (E - e) with (Zpos k) by lia. split; [done|]. split; [done|].
    rewrite <- HE.
    destruct q as [| m | m] eqn:Hqm; [| | lia].
    + left. split; [done|].
      cbn [shr_record_of_loc Zdigits2]. rewrite fexp_eq.
      destruct (Z.max (0 + E - 53) (-1074) - E) eqn:Hj; [done | lia | done].
    + right. cbn [shr_record_of_loc Zdigits2].
      pose proof (digits2_pos_bounds m) as [Qlo Qhi].
      destruct (Z.eq_dec (Zpos m) (2 ^ 53)) as [Heq | Hne].
      * (* the mantissa was rounded up to [2^53] *)
        rewrite pow2_53 in Heq. injection Heq as ->.
        rewrite fexp_eq.
        replace (Z.max (Zpos (digits2_pos 9007199254740992) + E - 53) (-1074) - E)
          with 1 by (cbn; lia).
        cbn [shr SpecFloat.iter_pos shr_1 shr_m].
        exists 4503599627370496%positive, (E + 1).
        replace (E + 1 - E) with 1 by lia.
        split; [done|]. split; [lia|].
        destruct (Z.leb_spec (E + 1) 971); [left | right]; done.
      * assert (Zpos (digits2_pos m) <= 53).
        { destruct (Z.le_gt_cases (Zpos (digits2_pos m)) 53); [done|].
          assert (2 ^ 53 <= 2 ^ (Zpos (digits2_pos m) - 1)) by (apply Z.pow_le_mono_r; lia).
          lia. }
        rewrite fexp_eq.
        destruct (Z.max (Zpos (digits2_pos m) + E - 53) (-1074) - E) as [| j | j] eqn:Hj;
          [| lia |]; cbn [shr shr_m];
          exists m, E; rewrite Z.sub_diag; (split; [cbn; lia|]); (split; [lia|]);
          destruct (Z.leb_spec E 971); [left | right | left | right]; done.
  - (* the exponent is already above the target *)
    assert (HE : E = e) by lia.
    cbn [shr shr_m loc_of_shr_record round_nearest_even].
    cbn [shr_record_of_loc Zdigits2]. fold d. rewrite fexp_eq, Hk.
    cbn [shr shr_m].
    exists (Zpos M). rewrite HE, Z.sub_diag. split; [|split; [lia|]].
    + unfold nearest_even. cbn. split; [lia|]. split; lia.
    + right. exists M, e. rewrite Z.sub_diag. cbn.
      split; [lia|]. split; [lia|].
      destruct (Z.leb_spec e 971); [left | right]; done.
Qed.

Lemma nearest_even_upper (M k q : Z) :
  0 <= k -> nearest_even M k q -> M < 2 ^ (k + 53) -> q <= 2 ^ 53.
Proof.
  intros Hk ([L _] & _) HM. rewrite Z.pow_add_r in HM by lia.
  assert (0 < 2 ^ k) by (apply Z.pow_pos_nonneg; lia). nia.
Qed.

Lemma nearest_even_lower (M k q : Z) :
  0 <= k -> nearest_even M k q -> 2 ^ (k + 52) <= M -> 2 ^ 52 <= q.
Proof.
  intros Hk ([_ U] & _) HM. rewrite Z.pow_add_r in HM by lia.
  assert (0 < 2 ^ k) by (apply Z.pow_pos_nonneg; lia).
  change (2 ^ 52) with 4503599627370496 in *. nia.
Qed.

Lemma nearest_even_exact (a k q : Z) :
  0 <= k -> nearest_even (a * 2 ^ k) k q -> q = a.
Proof.
  intros Hk ([L U] & _).
  assert (0 < 2 ^ k) by (apply Z.pow_pos_nonneg; lia). nia.
Qed.

Lemma nearest_even_0 (M q : Z) : nearest_even M 0 q -> q = M.
Proof. intros ([L U] & _). rewrite Z.pow_0_r in *. lia. Qed.

Lemma shiftl_le_mono (a b n : Z) : a <= b -> Z.shiftl a n <= Z.shiftl b n.
Proof.
  intros Hab. destruct (Z.le_gt_cases 0 n).
  - rewrite !Z.shiftl_mul_pow2 by done.
    apply Z.mul_le_mono_nonneg_r; [apply Z.pow_nonneg; lia | done].
  - rewrite !Z.shiftl_div_pow2 by lia.
    apply Z.div_le_mono; [apply Z.pow_pos_nonneg; lia | done].
Qed.

Lemma pos_iter_xO (p d : positive) : Zpos (Pos.iter xO p d) = Zpos p * 2 ^ Zpos d.
Proof.
  apply (Pos.iter_ind _ xO p (fun d a => Zpos a = Zpos p * 2 ^ Zpos d)).
  - rewrite Z.pow_1_r. lia.
  - intros d' a' IH. rewrite Pos2Z.inj_succ, Z.pow_succ_r by lia. lia.
Qed.

(** The shape of a finite binary64 number. *)
Lemma Prim2SF_finite_canonical (x : float) (s : bool) (m : positive) (e : Z) :
  Prim2SF x = S754_finite s m e ->
  Zpos (digits2_pos m) <= 53 /\ -1074 <= e <= 971 /\
  (e = -1074 \/ Zpos (digits2_pos m) = 53).
Proof.
  intros Hx. pose proof (Prim2SF_valid x) as Hv. rewrite Hx in Hv.
  unfold SpecFloat.valid_binary, bounded, canonical_mantissa in Hv.
  rewrite fexp_eq in Hv. change (emax - prec) with 971 in Hv.
  apply andb_prop in Hv as [Hc Hb].
  apply Z.eqb_eq in Hc. apply Z.leb_le in Hb. lia.
Qed.

(** [int] and the floor of a rounded non-negative magnitude. *)
Lemma int_of_float_rounded (x : float) (q E : Z) :
  rounded false q E (Prim2SF x) -> E + 1 <= 971 ->
  int_of_float x = Returned (Z.shiftl q E) /\
  floor_of_float x = Some (Z.shiftl q E).
Proof.
  intros [[-> Hx] | (m' & e' & -> & He & [[_ Hx] | [Hov _]])] HE; [| | lia];
    unfold int_of_float, floor_of_float; rewrite Hx.
  - by rewrite Z.shiftl_0_l.
  - cbn [cond_Zopp]. rewrite <- Z.shiftl_mul_pow2 by lia.
    rewrite Z.shiftl_shiftl by lia.
    replace (e' - E + E) with e' by lia. split; reflexivity.
Qed.

Lemma Prim2SF_zero : Prim2SF 0 = S754_zero false.
Proof. vm_compute. reflexivity. Qed.

Lemma Prim2SF_one : Prim2SF 1 = S754_finite false 4503599627370496 (-52).
Proof. vm_compute. reflexivity. Qed.

(** A ratio in the interval (0, 1]. *)
Lemma Prim2SF_unit_interval (r : float) :
  (0 <? r)%float = true -> (r <=? 1)%float = true ->
  exists m e, Prim2SF r = S754_finite false m e /\
    Zpos (digits2_pos m) <= 53 /\ -1074 <= e /\
    (e = -1074 \/ Zpos (digits2_pos m) = 53) /\
    (e < -52 \/ e = -52 /\ Zpos m <= 2 ^ 52).
Proof.
  rewrite ltb_spec, leb_spec.
  rewrite Prim2SF_zero, Prim2SF_one.
  intros Hlt Hle.
  destruct (Prim2SF r) as [s | s | | s m e] eqn:Hr; try discriminate.
  - destruct s; discriminate.
  - destruct s; [discriminate|].
    destruct (Prim2SF_finite_canonical r false m e Hr) as (Hd & He & Hn).
    exists m, e. split; [reflexivity|]. split; [exact Hd|]. split; [lia|].
    split; [exact Hn|].
    unfold SFleb, SFcompare in Hle.
    destruct (Z.compare_spec e (-52)) as [-> | ? | ?]; [| lia | discriminate].
    right. split; [reflexivity|].
    rewrite Pos.compare_cont_spec in Hle. cbn [Pos.switch_Eq] in Hle.
    assert (Hm : (m <= 4503599627370496)%positive).
    { unfold Pos.le. intros Hc. rewrite Hc in Hle. discriminate Hle. }
    rewrite pow2_52. apply Pos2Z.pos_le_pos. exact Hm.
Qed.

Lemma shiftl_rounded (m' : positive) (e' q E : Z) :
  q = Zpos m' * 2 ^ (e' - E) -> E <= e' -> Z.shiftl (Zpos m') e' = Z.shiftl q E.
Proof.
  intros -> He. rewrite <- Z.shiftl_mul_pow2 by lia.
  rewrite Z.shiftl_shiftl by lia. f_equal. lia.
Qed.

Lemma digits2_pos_ge (p : positive) (d : Z) :
  2 ^ (d - 1) <= Zpos p -> d <= Zpos (digits2_pos p).
Proof.
  intros Hp. pose proof (digits2_pos_bounds p) as [_ Bhi].
  destruct (Z.le_gt_cases d (Zpos (digits2_pos p))) as [|Hgt]; [assumption|].
  assert (2 ^ Zpos (digits2_pos p) <= 2 ^ (d - 1)) by (apply Z.pow_le_mono_r; lia).
  lia.
Qed.

Lemma digits2_pos_le (p : positive) (d : Z) :
  0 <= d -> Zpos p < 2 ^ d -> Zpos (digits2_pos p) <= d.
Proof.
  intros Hd Hp. pose proof (digits2_pos_bounds p) as [Blo _].
  destruct (Z.le_gt_cases (Zpos (digits2_pos p)) d) as [|Hgt]; [assumption|].
  assert (2 ^ d <= 2 ^ (Zpos (digits2_pos p) - 1)) by (apply Z.pow_le_mono_r; lia).
  lia.
Qed.

(** [float(n)] is zero or a normal number of exponent between -52 and 11,
    and it is exact up to [2^53]. *)
Lemma float_of_len_spec (n : nat) :
  let z := Z.of_nat n mod 2 ^ 63 in
  (z = 0 /\ Prim2SF (float_of_len n) = S754_zero false) \/
  (0 < z /\ exists mn en,
      Prim2SF (float_of_len n) = S754_finite false mn en /\
      Zpos (digits2_pos mn) = 53 /\ -52 <= en <= 11 /\
      (z <= 2 ^ 53 -> Z.shiftl (Zpos mn) en = z)).
Proof.
  intros z. unfold float_of_len.
  set (x := of_uint63 _).
  assert (Hx : Prim2SF x = binary_normalize prec emax z 0 false).
  { unfold x. rewrite of_uint63_spec, Uint63.of_Z_spec. reflexivity. }
  assert (Hz : 0 <= z < 2 ^ 63) by (apply Z.mod_pos_bound; reflexivity).
  clearbody x z. destruct z as [| p | p]; [left; split; [reflexivity | exact Hx] | | lia].
  right. split; [lia|].
  pose proof (digits2_pos_bounds p) as [Plo Phi].
  assert (Hdp : Zpos (digits2_pos p) <= 63) by (apply digits2_pos_le; lia).
  cbn [binary_normalize] in Hx. unfold binary_round, shl_align in Hx.
  rewrite fexp_eq in Hx.
  set (dp := Zpos (digits2_pos p)) in *.
  destruct (Z.max (dp + 0 - 53) (-1074) - 0) as [| t | d] eqn:Ht.
  - (* exactly 53 digits *)
    destruct (binary_round_aux_exact false p 0 0) as (q & Hq & Hq0 & Hr); [lia|].
    rewrite <- Hx in Hr. change (0 - 0) with 0 in Hq.
    apply nearest_even_0 in Hq.
    subst q.
    destruct Hr as [[? _] | (m' & e' & Hm & He & [[_ Hf] | [Hov _]])]; [lia | | lia].
    exists m', e'. split; [exact Hf|].
    destruct (Prim2SF_finite_canonical x false m' e' Hf) as (_ & _ & Hn).
    split; [lia|]. split; [lia|]. intros _.
    rewrite (shiftl_rounded m' e' (Zpos p) 0 Hm) by lia. apply Z.shiftl_0_r.
  - (* more than 53 digits: the low bits are rounded away *)
    destruct (binary_round_aux_exact false p 0 (dp - 53)) as (q & Hq & Hq0 & Hr); [lia|].
    rewrite <- Hx in Hr.
    replace (dp - 53 - 0) with (dp - 53) in Hq by lia.
    assert (Hq52 : 2 ^ 52 <= q).
    { apply (nearest_even_lower (Zpos p) (dp - 53)); [lia | exact Hq |].
      replace (dp - 53 + 52) with (dp - 1) by lia. exact Plo. }
    assert (0 < 2 ^ 52) by (apply Z.pow_pos_nonneg; lia).
    destruct Hr as [[? _] | (m' & e' & Hm & He & [[_ Hf] | [Hov _]])]; [lia | | lia].
    exists m', e'. split; [exact Hf|].
    destruct (Prim2SF_finite_canonical x false m' e' Hf) as (_ & _ & Hn).
    split; [lia|]. split; [lia|]. intros Hle.
    rewrite (shiftl_rounded m' e' q (dp - 53) Hm) by lia.
    assert (Hd54 : dp = 54).
    { assert (dp <= 54); [|lia]. apply digits2_pos_le; [lia|].
      change (2 ^ 54) with (2 * 2 ^ 53). lia. }
    assert (Hp : Zpos p = 2 ^ 52 * 2 ^ 1).
    { rewrite Hd54 in Plo. change (2 ^ (54 - 1)) with (2 ^ 53) in Plo.
      change (2 ^ 53) with (2 ^ 52 * 2 ^ 1) in *. lia. }
    rewrite Hd54 in *. change (54 - 53) with 1 in *.
    rewrite Hp in Hq. apply nearest_even_exact in Hq; [|lia]. subst q.
    rewrite Z.shiftl_mul_pow2 by lia. symmetry. exact Hp.
  - (* fewer than 53 digits: the mantissa is padded *)
    assert (Hd : Zpos d = 53 - dp) by lia.
    set (mz := Pos.iter xO p d) in *.
    assert (Hmz : Zpos mz = Zpos p * 2 ^ Zpos d) by apply pos_iter_xO.
    assert (Hdz : Zpos (digits2_pos mz) = 53).
    { apply digits2_pos_unique. rewrite Hmz.
      assert (H52 : 2 ^ (53 - 1) = 2 ^ (dp - 1) * 2 ^ Zpos d).
      { rewrite <- Z.pow_add_r by lia. f_equal. lia. }
      assert (H53 : 2 ^ 53 = 2 ^ dp * 2 ^ Zpos d).
      { rewrite <- Z.pow_add_r by lia. f_equal. lia. }
      rewrite H52, H53.
      assert (0 < 2 ^ Zpos d) by (apply Z.pow_pos_nonneg; lia). nia. }
    replace (Z.max (dp + 0 - 53) (-1074)) with (dp - 53) in Hx by lia.
    destruct (binary_round_aux_exact false mz (dp - 53) (dp - 53))
      as (q & Hq & Hq0 & Hr); [lia|].
    rewrite <- Hx in Hr. rewrite Z.sub_diag in Hq.
    apply nearest_even_0 in Hq.
    subst q.
    destruct Hr as [[? _] | (m' & e' & Hm & He & [[_ Hf] | [Hov _]])]; [lia | | lia].
    exists m', e'. split; [exact Hf|].
    destruct (Prim2SF_finite_canonical x false m' e' Hf) as (_ & _ & Hn).
    split; [lia|]. split; [lia|]. intros _.
    rewrite (shiftl_rounded m' e' (Zpos mz) (dp - 53) Hm) by lia.
    rewrite Hmz, Z.shiftl_div_pow2 by lia.
    replace (- (dp - 53)) with (Zpos d) by lia.
    apply Z.div_mul. apply Z.pow_nonzero; lia.
Qed.

(** [int] of the product of a normal number below [2^64] and a positive
    number not above 1: the exact product [mx * mr * 2^(ex + er)] loses its
    bits below [2^E] by rounding to nearest even, and then the bits below
    the unit by truncation. *)
Lemma int_of_product (x r : float) (mx mr : positive) (ex er E : Z) :
  Prim2SF x = S754_finite false mx ex -> Zpos (digits2_pos mx) = 53 -> ex <= 11 ->
  Prim2SF r = S754_finite false mr er -> Zpos (digits2_pos mr) <= 53 -> er <= -52 ->
  E = Z.max (Zpos (digits2_pos (mx * mr)) + (ex + er) - 53) (-1074) ->
  ex + er <= E /\
  exists q, nearest_even (Zpos (mx * mr)) (E - (ex + er)) q /\ 0 <= q /\
    int_of_float (x * r) = Returned (Z.shiftl q E) /\
    floor_of_float (x * r) = Some (Z.shiftl q E).
Proof.
  intros Hx Hdx Hex Hr Hdr Her HE.
  pose proof (digits2_pos_bounds mx) as [Xlo Xhi].
  pose proof (digits2_pos_bounds mr) as [Rlo Rhi].
  rewrite Hdx in Xlo, Xhi.
  assert (Hr53 : Zpos mr < 2 ^ 53).
  { assert (2 ^ Zpos (digits2_pos mr) <= 2 ^ 53) by (apply Z.pow_le_mono_r; lia). lia. }
  assert (Hlo : 53 <= Zpos (digits2_pos (mx * mr))).
  { apply digits2_pos_ge. rewrite Pos2Z.inj_mul. nia. }
  assert (Hhi : Zpos (digits2_pos (mx * mr)) <= 106).
  { apply digits2_pos_le; [lia|]. rewrite Pos2Z.inj_mul.
    change (2 ^ 106) with (2 ^ 53 * 2 ^ 53). nia. }
  split; [lia|].
  destruct (binary_round_aux_exact false (mx * mr) (ex + er) E) as (q & Hq & Hq0 & Hrd);
    [lia|].
  exists q. split; [exact Hq|]. split; [exact Hq0|].
  apply int_of_float_rounded; [|lia].
  rewrite mul_spec, Hx, Hr. exact Hrd.
Qed.

Lemma int_of_zero_product (x r : float) (mr : positive) (er : Z) :
  Prim2SF x = S754_zero false -> Prim2SF r = S754_finite false mr er ->
  int_of_float (x * r) = Returned 0 /\ floor_of_float (x * r) = Some 0.
Proof.
  intros Hx Hr. unfold int_of_float, floor_of_float.
  rewrite mul_spec, Hx, Hr. split; reflexivity.
Qed.

(** Rounding to nearest and then truncating is monotone in the magnitude. *)
Lemma rounded_value_mono (M1 M2 : positive) (e1 e2 E1 E2 q1 q2 c : Z) :
  53 <= Zpos (digits2_pos M1) -> 53 <= Zpos (digits2_pos M2) ->
  E1 = Z.max (Zpos (digits2_pos M1) + e1 - 53) (-1074) ->
  E2 = Z.max (Zpos (digits2_pos M2) + e2 - 53) (-1074) ->
  nearest_even (Zpos M1) (E1 - e1) q1 -> nearest_even (Zpos M2) (E2 - e2) q2 ->
  c <= e1 -> c <= e2 ->
  Zpos M1 * 2 ^ (e1 - c) <= Zpos M2 * 2 ^ (e2 - c) ->
  Z.shiftl q1 E1 <= Z.shiftl q2 E2.
Proof.
  intros Hd1 Hd2 HE1 HE2 Hq1 Hq2 Hc1 Hc2 Hle.
  pose proof (digits2_pos_bounds M1) as [Lo1 Hi1].
  pose proof (digits2_pos_bounds M2) as [Lo2 Hi2].
  set (d1 := Zpos (digits2_pos M1)) in *. set (d2 := Zpos (digits2_pos M2)) in *.
  assert (Ha : 0 < 2 ^ (e1 - c)) by (apply Z.pow_pos_nonneg; lia).
  assert (Hb : 0 < 2 ^ (e2 - c)) by (apply Z.pow_pos_nonneg; lia).
  (* the magnitudes are ordered, hence so are their binades *)
  assert (HD : d1 + e1 <= d2 + e2).
  { destruct (Z.le_gt_cases (d1 + e1) (d2 + e2)) as [|Hgt]; [assumption|exfalso].
    assert (H1 : 2 ^ (d2 + e2 - c) <= 2 ^ (d1 - 1 + (e1 - c)))
      by (apply Z.pow_le_mono_r; lia).
    rewrite Z.pow_add_r in H1 by lia.
    assert (H2 : 2 ^ (d2 + e2 - c) = 2 ^ d2 * 2 ^ (e2 - c)).
    { rewrite <- Z.pow_add_r by lia. f_equal. lia. }
    nia. }
  (* both values at the common scale [c] *)
  assert (HV : q1 * 2 ^ (E1 - c) <= q2 * 2 ^ (E2 - c)).
  { destruct (Z.eq_dec E1 E2) as [Heq | Hne].
    - assert (q1 <= q2); [|rewrite Heq; apply Z.mul_le_mono_nonneg_r;
                             [apply Z.pow_nonneg; lia | assumption]].
      apply (nearest_even_mono (Zpos M1) (E1 - e1) q1 (Zpos M2) (E2 - e2) q2);
        [lia | lia | assumption | assumption |].
      rewrite <- Heq.
      assert (HA : 2 ^ (E1 - c) = 2 ^ (E1 - e1) * 2 ^ (e1 - c)).
      { rewrite <- Z.pow_add_r by lia. f_equal. lia. }
      assert (HB : 2 ^ (E1 - c) = 2 ^ (E1 - e2) * 2 ^ (e2 - c)).
      { rewrite <- Z.pow_add_r by lia. f_equal. lia. }
      assert (0 < 2 ^ (E1 - e1)) by (apply Z.pow_pos_nonneg; lia).
      assert (0 < 2 ^ (E1 - e2)) by (apply Z.pow_pos_nonneg; lia).
      set (a := 2 ^ (e1 - c)) in *. set (b := 2 ^ (e2 - c)) in *.
      set (A := 2 ^ (E1 - e1)) in *. set (B := 2 ^ (E1 - e2)) in *.
      set (P := 2 ^ (E1 - c)) in *.
      assert (Zpos M1 * B * (a * b) <= Zpos M2 * A * (a * b)).
      { replace (Zpos M1 * B * (a * b)) with (Zpos M1 * a * (B * b)) by ring.
        replace (Zpos M2 * A * (a * b)) with (Zpos M2 * b * (A * a)) by ring.
        rewrite <- HA, <- HB. apply Z.mul_le_mono_nonneg_r; lia. }
      apply Z.mul_le_mono_pos_r with (p := a * b); [nia | assumption].
    - assert (HE12 : E1 < E2) by lia.
      assert (Hq1' : q1 <= 2 ^ 53).
      { apply (nearest_even_upper (Zpos M1) (E1 - e1)); [lia | assumption |].
        assert (2 ^ d1 <= 2 ^ (E1 - e1 + 53)) by (apply Z.pow_le_mono_r; lia). lia. }
      assert (Hq2' : 2 ^ 52 <= q2).
      { apply (nearest_even_lower (Zpos M2) (E2 - e2)); [lia | assumption |].
        replace (E2 - e2 + 52) with (d2 - 1) by lia. assumption. }
      assert (H1 : q1 * 2 ^ (E1 - c) <= 2 ^ 53 * 2 ^ (E1 - c)).
      { apply Z.mul_le_mono_nonneg_r; [apply Z.pow_nonneg; lia | assumption]. }
      assert (H2 : 2 ^ 52 * 2 ^ (E2 - c) <= q2 * 2 ^ (E2 - c)).
      { apply Z.mul_le_mono_nonneg_r; [apply Z.pow_nonneg; lia | assumption]. }
      assert (H3 : 2 ^ 53 * 2 ^ (E1 - c) <= 2 ^ 52 * 2 ^ (E2 - c)).
      { rewrite <- !Z.pow_add_r by lia. apply Z.pow_le_mono_r; lia. }
      lia. }
  replace E1 with ((E1 - c) + c) at 1 by lia.
  replace E2 with ((E2 - c) + c) at 1 by lia.
  rewrite <- !Z.shiftl_shiftl by lia.
  apply shiftl_le_mono. rewrite !Z.shiftl_mul_pow2 by lia. exact HV.
Qed.

(** The product of a length and a ratio in (0, 1] is truncated without
    raising, and truncation and floor agree on it. *)
Lemma int_of_scaled_len (n : nat) (r : float) :
  (0 <? r)%float = true -> (r <=? 1)%float = true ->
  exists v, 0 <= v /\
    int_of_float (float_of_len n * r) = Returned v /\
    floor_of_float (float_of_len n * r) = Some v.
Proof.
  intros H0 H1.
  destruct (Prim2SF_unit_interval r H0 H1) as (mr & er & Hr & Hdr & _ & _ & Her).
  destruct (float_of_len_spec n) as [[_ Hx] | (_ & mn & en & Hx & Hdn & Hen & _)].
  - exists 0. split; [lia|]. exact (int_of_zero_product _ _ _ _ Hx Hr).
  - destruct (int_of_product _ _ mn mr en er _ Hx Hdn (proj2 Hen) Hr Hdr
                ltac:(lia) eq_refl) as (_ & q & _ & Hq0 & Hi & Hf).
    eexists. split; [|split; [exact Hi | exact Hf]].
    apply Z.shiftl_nonneg. exact Hq0.
Qed.

(** [float(n) * 1.0] is [float(n)], and [float(n)] is [n] up to [2^53]. *)
Lemma int_of_len_times_one (n : nat) :
  Z.of_nat n <= 2 ^ 53 ->
  int_of_float (float_of_len n * 1) = Returned (Z.of_nat n).
Proof.
  intros Hn.
  assert (Hz : Z.of_nat n mod 2 ^ 63 = Z.of_nat n).
  { apply Z.mod_small. change (2 ^ 63) with (2 ^ 53 * 1024). lia. }
  destruct (float_of_len_spec n) as [[Hz0 Hx] | (_ & mn & en & Hx & Hdn & Hen & Hex)].
  - rewrite Hz in Hz0. rewrite Hz0.
    exact (proj1 (int_of_zero_product _ _ _ _ Hx Prim2SF_one)).
  - rewrite Hz in Hex. specialize (Hex Hn).
    pose proof (digits2_pos_bounds mn) as [Lo Hi]. rewrite Hdn in Lo, Hi.
    assert (Hm : Zpos (mn * 4503599627370496) = Zpos mn * 2 ^ 52).
    { rewrite Pos2Z.inj_mul, pow2_52. reflexivity. }
    assert (Hd : Zpos (digits2_pos (mn * 4503599627370496)) = 105).
    { apply digits2_pos_unique. rewrite Hm.
      change (2 ^ (105 - 1)) with (2 ^ (53 - 1) * 2 ^ 52).
      change (2 ^ 105) with (2 ^ 53 * 2 ^ 52).
      assert (0 < 2 ^ 52) by (apply Z.pow_pos_nonneg; lia). nia. }
    destruct (int_of_product _ _ mn 4503599627370496 en (-52) en Hx Hdn (proj2 Hen)
                Prim2SF_one) as (_ & q & Hq & _ & Hi' & _).
    + apply digits2_pos_le; [lia|]. rewrite <- pow2_52.
      apply Z.pow_lt_mono_r; lia.
    + lia.
    + rewrite Hd. lia.
    + replace (en - (en + -52)) with 52 in Hq by lia.
      rewrite Hm in Hq. apply nearest_even_exact in Hq; [|lia].
      rewrite Hi', Hq, Hex. reflexivity.
Qed.

(** A larger ratio never gives a smaller integer part. *)
Lemma int_of_scaled_len_mono (n : nat) (r1 r2 : float) :
  (0 <? r1)%float = true -> (r1 <=? 1)%float = true ->
  (0 <? r2)%float = true -> (r2 <=? 1)%float = true ->
  (r1 <=? r2)%float = true ->
  exists v1 v2,
    int_of_float (float_of_len n * r1) = Returned v1 /\
    int_of_float (float_of_len n * r2) = Returned v2 /\ 0 <= v1 <= v2.
Proof.
  intros P1 U1 P2 U2 Hle.
  destruct (Prim2SF_unit_interval r1 P1 U1) as (m1 & e1 & Hr1 & Hd1 & He1 & Hn1 & Hu1).
  destruct (Prim2SF_unit_interval r2 P2 U2) as (m2 & e2 & Hr2 & Hd2 & He2 & Hn2 & Hu2).
  rewrite leb_spec, Hr1, Hr2 in Hle. unfold SFleb, SFcompare in Hle.
  assert (Hord : e1 < e2 \/ e1 = e2 /\ Zpos m1 <= Zpos m2).
  { destruct (Z.compare_spec e1 e2) as [-> | ? | ?]; [right | left; lia | discriminate].
    split; [reflexivity|]. apply Pos2Z.pos_le_pos. unfold Pos.le.
    rewrite Pos.compare_cont_spec in Hle. cbn [Pos.switch_Eq] in Hle.
    intros Hc. rewrite Hc in Hle. discriminate Hle. }
  destruct (float_of_len_spec n) as [[_ Hx] | (_ & mn & en & Hx & Hdn & Hen & _)].
  - exists 0, 0. split; [exact (proj1 (int_of_zero_product _ _ _ _ Hx Hr1))|].
    split; [exact (proj1 (int_of_zero_product _ _ _ _ Hx Hr2)) | lia].
  - destruct (int_of_product _ _ mn m1 en e1 _ Hx Hdn (proj2 Hen) Hr1 Hd1
                ltac:(lia) eq_refl) as (_ & q1 & Hq1 & Hq10 & Hi1 & _).
    destruct (int_of_product _ _ mn m2 en e2 _ Hx Hdn (proj2 Hen) Hr2 Hd2
                ltac:(lia) eq_refl) as (_ & q2 & Hq2 & _ & Hi2 & _).
    pose proof (digits2_pos_bounds mn) as [Nlo Nhi]. rewrite Hdn in Nlo, Nhi.
    assert (Hdig : forall m : positive, 53 <= Zpos (digits2_pos (mn * m))).
    { intros m. apply digits2_pos_ge. rewrite Pos2Z.inj_mul.
      assert (0 < 2 ^ (53 - 1)) by (apply Z.pow_pos_nonneg; lia). nia. }
    eexists _, _. split; [exact Hi1|]. split; [exact Hi2|].
    split; [apply Z.shiftl_nonneg; exact Hq10|].
    apply (rounded_value_mono (mn * m1) (mn * m2) (en + e1) (en + e2) _ _ q1 q2
             (en + e1)); try apply Hdig; try reflexivity; try assumption; try lia.
    rewrite Z.sub_diag, Z.pow_0_r, !Pos2Z.inj_mul.
    replace (en + e2 - (en + e1)) with (e2 - e1) by lia.
    destruct Hord as [Hlt | [-> Hm]].
    + pose proof (digits2_pos_bounds m1) as [_ Hi1'].
      pose proof (digits2_pos_bounds m2) as [Lo2' _].
      assert (Hdm2 : Zpos (digits2_pos m2) = 53) by lia.
      rewrite Hdm2 in Lo2'.
      assert (2 ^ Zpos (digits2_pos m1) <= 2 ^ 53) by (apply Z.pow_le_mono_r; lia).
      assert (2 ^ 1 <= 2 ^ (e2 - e1)) by (apply Z.pow_le_mono_r; lia).
      change (2 ^ 53) with (2 ^ (53 - 1) * 2) in *. change (2 ^ 1) with 2 in *.
      assert (0 < 2 ^ (53 - 1)) by (apply Z.pow_pos_nonneg; lia).
      assert (Hm : Zpos m1 <= Zpos m2 * 2 ^ (e2 - e1)).
      { set (T := 2 ^ (53 - 1)) in *. set (P := 2 ^ (e2 - e1)) in *.
        clearbody T P. clear - Hi1' Lo2' H H0 H1. nia. }
      rewrite Z.mul_1_r, <- Z.mul_assoc.
      apply Z.mul_le_mono_nonneg_l; [lia | exact Hm].
    + rewrite Z.sub_diag, Z.pow_0_r.
      apply Z.mul_le_mono_nonneg_r; [lia|].
      apply Z.mul_le_mono_nonneg_l; [lia | exact Hm].
Qed.

End FloatFacts.

(** * Facts about the tokenizer *)

Module TextFacts.
Import PyStr Re.

(** Case folding keeps the word class of a character. *)
Lemma isword_lower_char (c : ascii) : isword (lower_char c) = isword c.
Proof. destruct c as [[] [] [] [] [] [] [] []]; reflexivity. Qed.

(** A whitespace character is not a word character, folded or not. *)
Lemma isspace_not_word (c : ascii) :
  isspace c = true -> isword (lower_char c) = false.
Proof. destruct c as [[] [] [] [] [] [] [] []]; intros H; try reflexivity; discriminate H. Qed.

Lemma append_nil (b : string) : EmptyString +:+ b = b.
Proof. reflexivity. Qed.

Lemma append_cons (x : ascii) (a b : string) :
  String x a +:+ b = String x (a +:+ b).
Proof. reflexivity. Qed.

Lemma append_assoc (a b c : string) : (a +:+ b) +:+ c = a +:+ (b +:+ c).
Proof.
  induction a as [| x a IH]; [reflexivity|]. rewrite !append_cons. congruence.
Qed.

Lemma append_snoc (a : string) (x : ascii) (b : string) :
  (a +:+ String x EmptyString) +:+ b = a +:+ String x b.
Proof. rewrite append_assoc. reflexivity. Qed.

Lemma append_empty_r (a : string) : a +:+ EmptyString = a.
Proof.
  induction a as [| x a IH]; [reflexivity|]. rewrite append_cons. congruence.
Qed.

Lemma lower_append (a b : string) : lower (a +:+ b) = lower a +:+ lower b.
Proof.
  induction a as [| x a IH]; [reflexivity|].
  rewrite append_cons. cbn [lower]. rewrite append_cons. congruence.
Qed.

Lemma findall_from_empty (cur : string) : findall_from cur EmptyString = flush cur.
Proof. reflexivity. Qed.

(** A character outside the word class ends the run before it and starts
    the scan afresh after it. *)
Lemma findall_from_nonword (a : string) :
  forall cur c b, isword c = false ->
    findall_from cur (a +:+ String c b) =
    (findall_from cur a ++ findall_from EmptyString b)%list.
Proof.
  induction a as [| x a IH]; intros cur c b Hc;
    rewrite ?append_nil, ?append_cons; cbn [findall_from].
  - by rewrite Hc.
  - destruct (isword x).
    + by apply IH.
    + rewrite IH by done. by rewrite app_assoc.
Qed.

Lemma words_of_space (a : string) (c : ascii) (b : string) :
  isspace c = true ->
  words_of (a +:+ String c b) = (words_of a ++ words_of b)%list.
Proof.
  intros Hc. unfold words_of, findall_words.
  rewrite lower_append. cbn [lower].
  apply findall_from_nonword. by apply isspace_not_word.
Qed.

Lemma words_of_space_head (c : ascii) (s : string) :
  isspace c = true -> words_of (String c s) = words_of s.
Proof. intros Hc. apply (words_of_space EmptyString c s Hc). Qed.

Lemma words_of_lstrip (s : string) : words_of (lstrip s) = words_of s.
Proof.
  induction s as [| c s IH]; [reflexivity|]. cbn [lstrip].
  destruct (isspace c) eqn:Hc; [|reflexivity].
  by rewrite IH, words_of_space_head.
Qed.

Lemma rstrip_cons (c : ascii) (s : string) :
  rstrip (String c s) = EmptyString /\ isspace c = true /\ rstrip s = EmptyString \/
  rstrip (String c s) = String c (rstrip s).
Proof.
  cbn [rstrip]. destruct (rstrip s) eqn:Hr.
  - destruct (isspace c); [left | right]; done.
  - by right.
Qed.

Lemma findall_from_rstrip (s : string) :
  forall cur, findall_from cur (lower (rstrip s)) = findall_from cur (lower s).
Proof.
  induction s as [| c s IH]; intros cur; [reflexivity|].
  destruct (rstrip_cons c s) as [(-> & Hc & Hs) | ->].
  - cbn [lower findall_from]. rewrite (isspace_not_word c Hc).
    rewrite <- IH, Hs. cbn. by rewrite app_nil_r.
  - cbn [lower findall_from]. destruct (isword (lower_char c)); by rewrite IH.
Qed.

Lemma words_of_strip (s : string) : words_of (strip s) = words_of s.
Proof.
  unfold strip. transitivity (words_of (lstrip s));
    [apply findall_from_rstrip | apply words_of_lstrip].
Qed.

(** Splitting never cuts a word: the words of the pieces, in order, are the
    words of the whole. *)
Lemma words_of_split_from (s : string) :
  (forall at_term cur,
      concat (map words_of (split_from false at_term cur s)) = words_of (cur +:+ s)) /\
  (forall at_term cur,
      concat (map words_of (split_from true at_term cur s)) =
      match s with EmptyString => words_of cur | _ => words_of s end).
Proof.
  induction s as [| c s [IH1 IH2]]; (split; intros at_term cur).
  - cbn. by rewrite append_empty_r, app_nil_r.
  - cbn. by rewrite app_nil_r.
  - cbn [split_from]. destruct (at_term && isspace c) eqn:Hsep.
    + apply andb_prop in Hsep as [_ Hc]. cbn [map concat].
      rewrite IH2, (words_of_space cur c s Hc). f_equal.
      destruct s; reflexivity.
    + by rewrite IH1, append_snoc.
  - cbn [split_from]. destruct (isspace c) eqn:Hc.
    + rewrite IH2, (words_of_space_head c s Hc).
      destruct s; reflexivity.
    + apply IH1.
Qed.

Lemma words_of_split_sentences (s : string) :
  concat (map words_of (split_sentences s)) = words_of s.
Proof. apply (proj1 (words_of_split_from s) false EmptyString). Qed.

(** The words counted over the whole text are the words scored sentence by
    sentence. *)
Lemma words_of_sentences (text : string) :
  concat (map words_of (split_sentences (strip text))) = findall_words (lower text).
Proof. rewrite words_of_split_sentences. apply words_of_strip. Qed.

Lemma elem_of_concat {A} (x : A) (ls : list (list A)) :
  x ∈ concat ls <-> exists l, l ∈ ls /\ x ∈ l.
Proof.
  rewrite list_elem_of_In, in_concat.
  split; intros (l & H1 & H2); exists l; by rewrite ?list_elem_of_In in *.
Qed.

Lemma split_from_nonempty (s : string) (sk at_term : bool) (cur : string) :
  split_from sk at_term cur s <> [].
Proof.
  revert sk at_term cur. induction s as [| c s IH]; intros sk at_term cur; cbn; [done|].
  destruct sk; [destruct (isspace c); apply IH|].
  destruct (at_term && isspace c); [done | apply IH].
Qed.

Lemma words_of_nonempty (s : string) (w : string) : w ∈ words_of s -> s <> EmptyString.
Proof. intros Hw ->. cbn in Hw. by apply elem_of_nil in Hw. Qed.

End TextFacts.

(** * Facts about the frequency counter *)

Module FrequencyFacts.
Import Summarizer.

Lemma count_word_stop (m : gmap string Z) (w : string) :
  w ∈ STOP_WORDS -> count_word m w = m.
Proof. intros Hw. unfold count_word. by rewrite bool_decide_eq_true_2. Qed.

Lemma count_word_other (m : gmap string Z) (w : string) :
  w ∉ STOP_WORDS -> count_word m w = <[w := default 0 (m !! w) + 1]> m.
Proof.
  intros Hw. unfold count_word. rewrite bool_decide_eq_false_2 by done.
  unfold Counter.getitem, Counter.setitem.
  destruct (m !! w) as [v|] eqn:Hm; cbn; [done|].
  by rewrite insert_insert_eq.
Qed.

(** The keys after counting: the old ones and the counted non-stop words. *)
Lemma fold_count_word_is_Some (words : list string) :
  forall (m : gmap string Z) (k : string),
    is_Some (fold_left count_word words m !! k) <->
    is_Some (m !! k) \/ (k ∈ words /\ k ∉ STOP_WORDS).
Proof.
  induction words as [| w words IH]; intros m k; cbn [fold_left].
  - split; [by left | intros [H | [H _]]; [done | by apply elem_of_nil in H]].
  - rewrite IH, elem_of_cons.
    destruct (decide (w ∈ STOP_WORDS)) as [Hs | Hs].
    + rewrite count_word_stop by done. split; [tauto | intros [? | [[-> | ?] ?]]; tauto].
    + rewrite count_word_other by done.
      destruct (decide (w = k)) as [-> | Hne].
      * rewrite lookup_insert_eq. split; intros _; [right; split; [by left | done] | left; exact (mk_is_Some _ _ eq_refl)].
      * rewrite lookup_insert_ne by done. split; [tauto | intros [? | [[? | ?] ?]]; [tauto | congruence | tauto]].
Qed.

(** Counting keeps stop words out and counts positive. *)
Lemma fold_count_word_invariant (words : list string) :
  forall m : gmap string Z,
    (forall k v, m !! k = Some v -> (k ∉ STOP_WORDS) /\ 0 < v) ->
    forall k v, fold_left count_word words m !! k = Some v ->
                (k ∉ STOP_WORDS) /\ 0 < v.
Proof.
  induction words as [| w words IH]; intros m Hm; cbn [fold_left]; [done|].
  apply IH. intros k v.
  destruct (decide (w ∈ STOP_WORDS)) as [Hs | Hs].
  - rewrite count_word_stop by done. apply Hm.
  - rewrite count_word_other by done.
    destruct (decide (w = k)) as [-> | Hne].
    + rewrite lookup_insert_eq. intros [= <-]. split; [done|].
      destruct (m !! k) as [v0|] eqn:Hk; cbn; [|lia].
      destruct (Hm k v0 Hk). lia.
    + rewrite lookup_insert_ne by done. apply Hm.
Qed.

Lemma calculate_word_frequencies_is_Some (words : list string) (k : string) :
  is_Some (calculate_word_frequencies words !! k) <->
  k ∈ words /\ k ∉ STOP_WORDS.
Proof.
  unfold calculate_word_frequencies. rewrite fold_count_word_is_Some.
  rewrite lookup_empty. split; [intros [[? [=]] | H]; done | by right].
Qed.

Lemma truthy_is_Some (m : gmap string Z) :
  Counter.truthy m = true <-> exists k, is_Some (m !! k).
Proof.
  unfold Counter.truthy. rewrite negb_true_iff, bool_decide_eq_false.
  split.
  - intros Hne. destruct (map_choose m Hne) as (k & v & Hk). by exists k, v.
  - intros (k & v & Hk) ->. by rewrite lookup_empty in Hk.
Qed.

End FrequencyFacts.

(** * Facts about the sentence scorer *)

Module ScoreFacts.
Import Re Summarizer ScoreModel TextFacts.

(** Scoring one word leaves the frequency map as it was. *)
Lemma score_word_frame (i : nat) (st : list (nat * Z) * gmap string Z) (w : string) :
  snd (score_word i st w) = snd st.
Proof.
  destruct st as [sc wf]. unfold score_word, Counter.contains.
  case_bool_decide as Hw; [|done].
  destruct Hw as [f Hf]. unfold Counter.getitem. rewrite Hf.
  by destruct (Scores.getitem sc i).
Qed.

Lemma fold_score_word_frame (i : nat) (ws : list string) :
  forall st, snd (fold_left (score_word i) ws st) = snd st.
Proof.
  induction ws as [| w ws IH]; intros st; cbn [fold_left]; [done|].
  by rewrite IH, score_word_frame.
Qed.

Lemma score_loop_frame (sentences : list string) :
  forall i st, snd (score_loop i sentences st) = snd st.
Proof.
  induction sentences as [| s rest IH]; intros i st; cbn [score_loop]; [done|].
  by rewrite IH, fold_score_word_frame.
Qed.

Lemma lookup_snoc_fresh (sc : list (nat * Z)) (i : nat) (v : Z) :
  Scores.lookup sc i = None -> Scores.lookup (sc ++ [(i, v)]) i = Some v.
Proof.
  induction sc as [| [j w] sc IH]; cbn; [by rewrite Nat.eqb_refl|].
  destruct (Nat.eqb j i); [done | apply IH].
Qed.

Lemma setitem_snoc_fresh (sc : list (nat * Z)) (i : nat) (v v' : Z) :
  Scores.lookup sc i = None ->
  Scores.setitem (sc ++ [(i, v)]) i v' = sc ++ [(i, v')].
Proof.
  induction sc as [| [j w] sc IH]; cbn; [by rewrite Nat.eqb_refl|].
  destruct (Nat.eqb j i); [done|]. intros H. by rewrite IH.
Qed.

Lemma contains_lookup (wf : gmap string Z) (w : string) :
  Counter.contains wf w = true ->
  exists f, wf !! w = Some f /\ Counter.getitem wf w = (f, wf).
Proof.
  unfold Counter.contains, Counter.getitem. rewrite bool_decide_eq_true.
  intros [f Hf]. exists f. by rewrite Hf.
Qed.

Lemma not_contains_lookup (wf : gmap string Z) (w : string) :
  Counter.contains wf w = false -> wf !! w = None.
Proof.
  unfold Counter.contains. rewrite bool_decide_eq_false.
  intros H. by apply eq_None_not_Some.
Qed.

(** The inner loop once the sentence has its entry. *)
Lemma inner_loop_started (wf : gmap string Z) (i : nat) (sc : list (nat * Z))
    (ws : list string) :
  Scores.lookup sc i = None ->
  forall v, fold_left (score_word i) ws (sc ++ [(i, v)], wf) =
            (sc ++ [(i, v + word_total wf ws)], wf).
Proof.
  intros Hsc. induction ws as [| w ws IH]; intros v; cbn [fold_left word_total foldr].
  - by rewrite Z.add_0_r.
  - unfold score_word at 2. destruct (Counter.contains wf w) eqn:Hw.
    + destruct (contains_lookup wf w Hw) as (f & Hf & ->).
      unfold Scores.getitem. rewrite lookup_snoc_fresh by done.
      rewrite setitem_snoc_fresh by done. rewrite IH, Hf. cbn.
      by rewrite Z.add_assoc.
    + rewrite IH, (not_contains_lookup wf w Hw). cbn. done.
Qed.

(** The inner loop from a dictionary without entry for the sentence. *)
Lemma inner_loop_fresh (wf : gmap string Z) (i : nat) (sc : list (nat * Z))
    (ws : list string) :
  Scores.lookup sc i = None ->
  fold_left (score_word i) ws (sc, wf) =
  (if any_hit wf ws then sc ++ [(i, word_total wf ws)] else sc, wf).
Proof.
  intros Hsc. induction ws as [| w ws IH]; cbn [fold_left any_hit existsb]; [done|].
  unfold score_word at 2. destruct (Counter.contains wf w) eqn:Hw.
  - destruct (contains_lookup wf w Hw) as (f & Hf & ->).
    unfold Scores.getitem. rewrite Hsc.
    rewrite (setitem_snoc_fresh sc i 0 (0 + f) Hsc).
    rewrite inner_loop_started by done. cbn [orb word_total foldr].
    by rewrite Hf.
  - rewrite IH. cbn [orb word_total foldr].
    rewrite (not_contains_lookup wf w Hw). cbn. done.
Qed.

Lemma lookup_None_lt (sc : list (nat * Z)) (i : nat) :
  Forall (fun e => (fst e < i)%nat) sc -> Scores.lookup sc i = None.
Proof.
  induction 1 as [| [j v] sc Hj _ IH]; cbn; [done|].
  cbn in Hj. destruct (Nat.eqb_spec j i); [lia | done].
Qed.

Lemma score_loop_entries (wf : gmap string Z) (sentences : list string) :
  forall i sc, Forall (fun e => (fst e < i)%nat) sc ->
    score_loop i sentences (sc, wf) = (sc ++ entries wf i sentences, wf).
Proof.
  induction sentences as [| s rest IH]; intros i sc Hsc; cbn [score_loop entries].
  - by rewrite app_nil_r.
  - rewrite inner_loop_fresh by (by apply lookup_None_lt).
    fold (words_of s). unfold entry_of.
    destruct (any_hit wf (words_of s)).
    + rewrite IH, <- app_assoc; [done|].
      apply Forall_app. split; [|by repeat constructor].
      eapply Forall_impl; [exact Hsc | cbn; lia].
    + rewrite IH; [done|]. eapply Forall_impl; [exact Hsc | cbn; lia].
Qed.

Lemma score_sentences_entries (sentences : list string) (wf : gmap string Z) :
  score_sentences sentences wf = entries wf 0 sentences.
Proof.
  unfold score_sentences, score_sentences_state.
  by rewrite score_loop_entries by constructor.
Qed.

(** The scored positions are positions of sentences, in increasing order. *)
Lemma entries_keys_sublist (wf : gmap string Z) (sentences : list string) :
  forall i, (entries wf i sentences).*1 `sublist_of` seq i (length sentences).
Proof.
  induction sentences as [| s rest IH]; intros i; cbn [entries length seq]; [done|].
  rewrite fmap_app. unfold entry_of. destruct (any_hit wf (words_of s)); cbn.
  - by apply sublist_skip.
  - by apply sublist_cons.
Qed.

Lemma any_hit_exists (wf : gmap string Z) (ws : list string) :
  any_hit wf ws = true <-> exists w, w ∈ ws /\ is_Some (wf !! w).
Proof.
  unfold any_hit. rewrite existsb_exists. unfold Counter.contains.
  split; intros (w & Hw & Hc); exists w.
  - apply list_elem_of_In in Hw. by apply bool_decide_eq_true in Hc.
  - apply list_elem_of_In in Hw. by rewrite bool_decide_eq_true.
Qed.

(** A sentence has an entry exactly when one of its words has a frequency. *)
Lemma entries_lookup (wf : gmap string Z) (sentences : list string) :
  forall i j v, (j, v) ∈ entries wf i sentences <->
    exists s, (i <= j)%nat /\ sentences !! (j - i)%nat = Some s /\
              any_hit wf (words_of s) = true /\ v = word_total wf (words_of s).
Proof.
  induction sentences as [| s rest IH]; intros i j v; cbn [entries].
  - split; [intros H; by apply elem_of_nil in H | intros (s & _ & H & _); done].
  - rewrite elem_of_app, IH. unfold entry_of. split.
    + intros [H | (s' & Hle & Hl & Hh & Hv)].
      * destruct (any_hit wf (words_of s)) eqn:Hh; [|by apply elem_of_nil in H].
        apply list_elem_of_singleton in H as [= -> ->].
        exists s. rewrite Nat.sub_diag. done.
      * exists s'. split; [lia|]. split; [|done].
        replace (j - i)%nat with (S (j - S i)) by lia. done.
    + intros (s' & Hle & Hl & Hh & Hv).
      destruct (decide (j = i)) as [-> | Hne].
      * rewrite Nat.sub_diag in Hl. injection Hl as ->.
        left. rewrite Hh, Hv. by apply list_elem_of_singleton.
      * right. exists s'. split; [lia|]. split; [|done].
        replace (j - i)%nat with (S (j - S i)) in Hl by lia. done.
Qed.

End ScoreFacts.

(** * Facts about the selector *)

Module SelectFacts.
Import Summarizer Builtins Heapq SelectionOrder.

Section Descending.
Context {A : Type} (key : A -> Z).

Lemma insert_desc_Permutation (x : A) (l : list A) :
  insert_desc key x l ≡ₚ x :: l.
Proof.
  induction l as [| y l IH]; cbn; [done|].
  destruct (key x <? key y); [|done].
  rewrite IH. apply Permutation_swap.
Qed.

Lemma sorted_desc_Permutation (l : list A) : sorted_desc key l ≡ₚ l.
Proof.
  induction l as [| x l IH]; cbn; [done|].
  by rewrite insert_desc_Permutation, IH.
Qed.
End Descending.

Lemma before_asym (x y : nat * Z) : before x y -> before y x -> False.
Proof. unfold before. lia. Qed.

Lemma insert_desc_sorted (x : nat * Z) (l : list (nat * Z)) :
  StronglySorted before l -> Forall (position_lt x) l ->
  StronglySorted before (insert_desc snd x l).
Proof.
  induction 1 as [| y l Hl IH Hy]; intros Hx; cbn.
  - by repeat constructor.
  - apply Forall_cons in Hx as [Hxy Hxl].
    destruct (Z.ltb_spec (snd x) (snd y)) as [Hlt | Hge].
    + constructor; [by apply IH|].
      rewrite insert_desc_Permutation. constructor; [by left | done].
    + constructor; [by constructor|].
      constructor; [unfold position_lt in Hxy; unfold before; lia|].
      rewrite Forall_forall in Hy, Hxl |- *. intros z Hz.
      specialize (Hy z Hz). specialize (Hxl z Hz).
      unfold before, position_lt in *. lia.
Qed.

Lemma sorted_desc_sorted (l : list (nat * Z)) :
  StronglySorted position_lt l -> StronglySorted before (sorted_desc snd l).
Proof.
  induction 1 as [| x l Hl IH Hx]; [constructor|].
  change (sorted_desc snd (x :: l)) with (insert_desc snd x (sorted_desc snd l)).
  apply insert_desc_sorted; [done|]. by rewrite sorted_desc_Permutation.
Qed.

(** A prefix of a sorted list holds everything that sorts before one of
    its elements. *)
Lemma take_sorted_closed (l : list (nat * Z)) (n : nat) (x y : nat * Z) :
  StronglySorted before l -> x ∈ take n l -> y ∈ l -> before y x -> y ∈ take n l.
Proof.
  intros Hl Hx Hy Hyx. rewrite <- (take_drop n l) in Hy, Hl.
  apply elem_of_app in Hy as [Hy | Hy]; [done|].
  destruct (before_asym x y); [|done].
  by eapply StronglySorted_app_1_elem_of.
Qed.

Lemma position_lt_unique (l : list (nat * Z)) (x y : nat * Z) :
  StronglySorted position_lt l -> x ∈ l -> y ∈ l -> fst x = fst y -> x = y.
Proof.
  induction 1 as [| z l Hl IH Hz]; intros Hx Hy Hxy.
  - by apply elem_of_nil in Hx.
  - rewrite Forall_forall in Hz.
    apply elem_of_cons in Hx as [-> | Hx]; apply elem_of_cons in Hy as [-> | Hy].
    + done.
    + specialize (Hz y Hy). unfold position_lt in Hz. lia.
    + specialize (Hz x Hx). unfold position_lt in Hz. lia.
    + by apply IH.
Qed.

Lemma lookup_elem_of (sc : list (nat * Z)) (i : nat) (v : Z) :
  Scores.lookup sc i = Some v -> (i, v) ∈ sc.
Proof.
  induction sc as [| [j w] sc IH]; cbn; [done|].
  destruct (Nat.eqb_spec j i) as [-> | Hne].
  - intros [= ->]. by left.
  - intros H. right. by apply IH.
Qed.

(** ** [sorted] on positions *)

Lemma insert_asc_Permutation (x : nat) (l : list nat) : insert_asc x l ≡ₚ x :: l.
Proof.
  induction l as [| y l IH]; cbn [insert_asc]; [done|].
  destruct (Nat.ltb y x); [|done]. rewrite IH. apply Permutation_swap.
Qed.

Lemma sorted_Permutation (l : list nat) : sorted l ≡ₚ l.
Proof.
  induction l as [| x l IH]; [done|].
  change (sorted (x :: l)) with (insert_asc x (sorted l)).
  by rewrite insert_asc_Permutation, IH.
Qed.

Lemma insert_asc_sorted (x : nat) (l : list nat) :
  StronglySorted lt l -> x ∉ l -> StronglySorted lt (insert_asc x l).
Proof.
  induction 1 as [| y l Hl IH Hy]; intros Hx; cbn [insert_asc].
  - by repeat constructor.
  - apply not_elem_of_cons in Hx as [Hxy Hxl].
    destruct (Nat.ltb_spec y x) as [Hlt | Hge].
    + constructor; [by apply IH|].
      rewrite insert_asc_Permutation. by constructor.
    + constructor; [by constructor|].
      constructor; [lia|]. eapply Forall_impl; [exact Hy | cbn; lia].
Qed.

Lemma sorted_sorted (l : list nat) : NoDup l -> StronglySorted lt (sorted l).
Proof.
  induction 1 as [| x l Hx Hl IH]; [constructor|].
  change (sorted (x :: l)) with (insert_asc x (sorted l)).
  apply insert_asc_sorted; [done|]. by rewrite sorted_Permutation.
Qed.

(** A strictly increasing list of positions within a range is a
    subsequence of the range. *)
Lemma sorted_sublist_seq (n : nat) :
  forall (base : nat) (idx : list nat),
    StronglySorted lt idx ->
    Forall (fun i => (base <= i < base + n)%nat) idx ->
    idx `sublist_of` seq base n.
Proof.
  induction n as [| n IH]; intros base idx Hs Hb.
  - destruct idx as [| i idx]; [done|].
    apply Forall_cons in Hb as [Hi _]. lia.
  - cbn [seq]. destruct idx as [| i idx]; [apply sublist_nil_l|].
    apply StronglySorted_cons in Hs as [Hi Hs].
    apply Forall_cons in Hb as [Hbi Hb].
    destruct (decide (i = base)) as [-> | Hne].
    + apply sublist_skip, IH; [done|].
      rewrite Forall_forall in Hi, Hb |- *. intros j Hj.
      specialize (Hi j Hj). specialize (Hb j Hj). lia.
    + apply sublist_cons, IH; [by apply StronglySorted_cons|].
      constructor; [lia|].
      rewrite Forall_forall in Hi, Hb |- *. intros j Hj.
      specialize (Hi j Hj). specialize (Hb j Hj). lia.
Qed.

(** ** The selected positions *)

Lemma elem_of_top_indices (sc : list (nat * Z)) (count : Z) (i : nat) :
  i ∈ top_indices sc count <->
  exists v, (i, v) ∈ take (Z.to_nat count) (sorted_desc snd sc).
Proof.
  unfold top_indices, nlargest, Scores.items. rewrite sorted_Permutation.
  rewrite list_elem_of_fmap. split.
  - intros ([j v] & -> & H). by exists v.
  - intros (v & H). by exists (i, v).
Qed.

Lemma top_indices_subseteq (sc : list (nat * Z)) (count : Z) (i : nat) :
  i ∈ top_indices sc count -> i ∈ sc.*1.
Proof.
  rewrite elem_of_top_indices. intros (v & H).
  apply subseteq_take in H. rewrite sorted_desc_Permutation in H.
  apply list_elem_of_fmap. by exists (i, v).
Qed.

Lemma top_indices_length (sc : list (nat * Z)) (count : Z) :
  length (top_indices sc count) = Nat.min (Z.to_nat count) (length sc).
Proof.
  unfold top_indices, nlargest, Scores.items.
  rewrite (Permutation_length (sorted_Permutation _)), length_fmap, length_take.
  by rewrite (Permutation_length (sorted_desc_Permutation snd sc)).
Qed.

Lemma top_indices_sorted (sc : list (nat * Z)) (count : Z) :
  NoDup sc.*1 -> StronglySorted lt (top_indices sc count).
Proof.
  intros Hnd. apply sorted_sorted.
  apply (sublist_NoDup _ (sorted_desc snd sc).*1).
  - by rewrite (sorted_desc_Permutation snd sc).
  - apply fmap_sublist, sublist_take.
Qed.

Lemma sublist_seq_sorted (l : list nat) (base n : nat) :
  l `sublist_of` seq base n -> StronglySorted lt l.
Proof.
  revert base l. induction n as [| n IH]; intros base l Hl; cbn [seq] in Hl.
  - apply sublist_nil_r in Hl as ->. constructor.
  - apply sublist_cons_r in Hl as [Hl | (l' & -> & Hl)]; [by eapply IH|].
    constructor; [by eapply IH|].
    apply Forall_forall. intros j Hj.
    assert (Hj' : j ∈ seq (S base) n).
    { eapply sublist_submseteq, submseteq_Permutation in Hl as [k Hk].
      rewrite Hk. apply elem_of_app. by left. }
    apply elem_of_seq in Hj'. lia.
Qed.

Lemma position_lt_fst (sc : list (nat * Z)) :
  StronglySorted lt sc.*1 -> StronglySorted position_lt sc.
Proof.
  induction sc as [| x sc IH]; cbn; intros H; [constructor|].
  apply StronglySorted_cons in H as [Hx H]. constructor; [by apply IH|].
  rewrite Forall_fmap in Hx. exact Hx.
Qed.

(** Ties are broken by position: the selection holds every scored
    position that has a higher score, or the same score and a lower
    position, than a selected one. *)
Lemma top_indices_closed (sc : list (nat * Z)) (count : Z) (i j : nat) (vi vj : Z) :
  StronglySorted lt sc.*1 ->
  (i, vi) ∈ sc -> (j, vj) ∈ sc -> i ∈ top_indices sc count ->
  before (j, vj) (i, vi) -> j ∈ top_indices sc count.
Proof.
  intros Hs Hi Hj Hsel Hb.
  apply position_lt_fst in Hs.
  apply elem_of_top_indices in Hsel as (v & Hv).
  assert (Heq : (i, v) = (i, vi)).
  { apply (position_lt_unique sc); [done | | done | done].
    apply subseteq_take in Hv. by rewrite sorted_desc_Permutation in Hv. }
  rewrite Heq in Hv.
  apply elem_of_top_indices. exists vj.
  eapply take_sorted_closed; [by apply sorted_desc_sorted | exact Hv | | done].
  by rewrite sorted_desc_Permutation.
Qed.

(** When the count covers every scored sentence, all are selected. *)
Lemma top_indices_all (sc : list (nat * Z)) (count : Z) :
  StronglySorted lt sc.*1 -> (length sc <= Z.to_nat count)%nat ->
  top_indices sc count = sc.*1.
Proof.
  intros Hs Hlen.
  assert (Hnd : NoDup sc.*1).
  { clear Hlen. induction sc as [| x sc IH]; cbn in *; [constructor|].
    apply StronglySorted_cons in Hs as [Hx Hs]. constructor; [|by apply IH].
    intros Hin. rewrite Forall_forall in Hx. specialize (Hx _ Hin). lia. }
  apply (StronglySorted_unique_strong lt); [intros; lia | | done |].
  - by apply top_indices_sorted.
  - unfold top_indices, nlargest, Scores.items.
    rewrite sorted_Permutation, take_ge.
    + by rewrite (sorted_desc_Permutation snd sc).
    + by rewrite (Permutation_length (sorted_desc_Permutation snd sc)).
Qed.

(** ** Reading the selected sentences *)

Lemma getitems_Returned {A} (l : list A) (d : A) (idx : list nat) :
  Forall (fun i => (i < length l)%nat) idx ->
  getitems l idx = Returned ((fun i => nth i l d) <$> idx).
Proof.
  induction 1 as [| i idx Hi _ IH]; cbn [getitems fmap list_fmap]; [done|].
  destruct (nth_error l i) as [x|] eqn:Hx.
  - rewrite IH. cbn. do 2 f_equal. symmetry. by apply nth_error_nth.
  - apply nth_error_None in Hx. lia.
Qed.

Lemma nth_seq_fmap {A} (l : list A) (d : A) :
  (fun i => nth i l d) <$> seq 0 (length l) = l.
Proof.
  apply list_eq. intros i. rewrite list_lookup_fmap.
  destruct (l !! i) as [x|] eqn:Hx.
  - pose proof (lookup_lt_Some _ _ _ Hx) as Hlt.
    rewrite (proj2 (lookup_seq 0 (length l) i i)) by done. cbn.
    by rewrite (nth_lookup_Some _ _ _ _ Hx).
  - apply lookup_ge_None in Hx.
    rewrite (proj2 (lookup_ge_None (seq 0 (length l)) i)); [done|].
    by rewrite length_seq.
Qed.

Lemma picked_sublist {A} (l : list A) (d : A) (idx : list nat) :
  idx `sublist_of` seq 0 (length l) ->
  (fun i => nth i l d) <$> idx `sublist_of` l.
Proof.
  intros H. pose proof (fmap_sublist (fun i => nth i l d) _ _ H) as H'.
  by rewrite nth_seq_fmap in H'.
Qed.

End SelectFacts.

(** * The summarizer: results *)

Module SummarizerFacts.
Import PyStr Re Builtins Summarizer.
Import ScoreModel SelectionOrder TextFacts FrequencyFacts ScoreFacts SelectFacts FloatFacts.

Lemma scores_of_entries (text : string) :
  scores_of text = entries (frequencies_of text) 0 (sentences_of text).
Proof. apply score_sentences_entries. Qed.

Lemma scores_of_keys_sublist (text : string) :
  (scores_of text).*1 `sublist_of` seq 0 (length (sentences_of text)).
Proof. rewrite scores_of_entries. apply entries_keys_sublist. Qed.

Lemma scores_of_keys_sorted (text : string) : StronglySorted lt (scores_of text).*1.
Proof. eapply sublist_seq_sorted, scores_of_keys_sublist. Qed.

Lemma scores_of_keys_NoDup (text : string) : NoDup (scores_of text).*1.
Proof.
  eapply sublist_NoDup; [apply NoDup_seq | apply scores_of_keys_sublist].
Qed.

(** A scored position is the position of a sentence with a counted word. *)
Lemma scores_of_elem (text : string) (i : nat) (v : Z) :
  (i, v) ∈ scores_of text <->
  exists s, sentences_of text !! i = Some s /\
            any_hit (frequencies_of text) (words_of s) = true /\
            v = word_total (frequencies_of text) (words_of s).
Proof.
  rewrite scores_of_entries, entries_lookup. rewrite Nat.sub_0_r.
  split; [intros (s & _ & H); by exists s | intros (s & H); exists s; split; [lia | done]].
Qed.

(** Every counted word occurs in some sentence. *)
Lemma counted_word_in_sentence (text : string) (w : string) :
  is_Some (frequencies_of text !! w) ->
  exists i s, sentences_of text !! i = Some s /\ w ∈ words_of s.
Proof.
  intros Hw. apply calculate_word_frequencies_is_Some in Hw as [Hw _].
  cbn [preprocess_text snd] in Hw. rewrite <- words_of_sentences in Hw.
  apply elem_of_concat in Hw as (ws & Hin & Hws).
  apply list_elem_of_fmap in Hin as (s & -> & Hs).
  apply list_elem_of_lookup in Hs as [i Hi]. by exists i, s.
Qed.

(** Once the frequency map is not empty, neither is the score map. *)
Lemma scores_of_nonempty (text : string) :
  Counter.truthy (frequencies_of text) = true -> scores_of text <> [].
Proof.
  intros Ht. apply truthy_is_Some in Ht as [w Hw].
  destruct (counted_word_in_sentence text w Hw) as (i & s & Hi & Hs).
  assert (Hin : (i, word_total (frequencies_of text) (words_of s)) ∈ scores_of text).
  { apply scores_of_elem. exists s. split; [done|]. split; [|done].
    apply any_hit_exists. by exists w. }
  intros Heq. rewrite Heq in Hin. by apply elem_of_nil in Hin.
Qed.

Lemma truthy_text (text : string) :
  Counter.truthy (frequencies_of text) = true -> truthy text = true.
Proof. destruct text; [intros H; vm_compute in H; discriminate H | done]. Qed.

(** The selected positions are increasing positions of scored sentences. *)
Lemma top_indices_of_text (text : string) (count : Z) :
  top_indices (scores_of text) count `sublist_of` seq 0 (length (sentences_of text)).
Proof.
  apply sorted_sublist_seq.
  - apply top_indices_sorted, scores_of_keys_NoDup.
  - apply Forall_forall. intros i Hi. apply top_indices_subseteq in Hi.
    pose proof (scores_of_keys_sublist text) as Hsub.
    apply sublist_submseteq, submseteq_Permutation in Hsub as [k Hk].
    assert (Hin : i ∈ seq 0 (length (sentences_of text))).
    { rewrite Hk. apply elem_of_app. by left. }
    apply elem_of_seq in Hin. lia.
Qed.

Lemma top_indices_in_range (text : string) (count : Z) :
  Forall (fun i => (i < length (sentences_of text))%nat)
         (top_indices (scores_of text) count).
Proof.
  apply Forall_forall. intros i Hi.
  pose proof (top_indices_of_text text count) as Hsub.
  apply sublist_submseteq, submseteq_Permutation in Hsub as [k Hk].
  assert (Hin : i ∈ seq 0 (length (sentences_of text))).
  { rewrite Hk. apply elem_of_app. by left. }
  apply elem_of_seq in Hin. lia.
Qed.

Lemma selected_indices_count (text : string) (ratio : float) (count : Z) :
  summary_sentences_count (length (sentences_of text)) ratio = Returned count ->
  selected_indices text ratio = Returned (top_indices (scores_of text) count).
Proof.
  intros Hc. unfold selected_indices, sentences_of in *.
  cbn [preprocess_text fst] in *. by rewrite Hc.
Qed.

(** [summarize_text] past its guards, as a function of the count. *)
Lemma summarize_text_count (text : string) (ratio : float) (count : Z) :
  Counter.truthy (frequencies_of text) = true ->
  summary_sentences_count (length (sentences_of text)) ratio = Returned count ->
  summarize_text text ratio =
  Returned (join " " ((fun i => nth i (sentences_of text) EmptyString) <$>
                        top_indices (scores_of text) count)).
Proof.
  intros Hf Hc. pose proof (truthy_text text Hf) as Ht.
  unfold summarize_text. rewrite Ht. cbn [negb preprocess_text].
  unfold frequencies_of, sentences_of, scores_of in *. cbn [preprocess_text fst snd] in *.
  rewrite Hf. cbn [negb]. rewrite Hc. cbn [mbind outcome_bind].
  rewrite (getitems_Returned _ EmptyString); [done|].
  apply (top_indices_in_range text count).
Qed.

Lemma summary_sentences_count_ge_1 (n : nat) (ratio : float) (count : Z) :
  summary_sentences_count n ratio = Returned count -> 1 <= count.
Proof.
  unfold summary_sentences_count.
  destruct (int_of_float _) as [v | e]; cbn; [|done]. intros [= <-]. lia.
Qed.

Lemma summary_sentences_count_unit (n : nat) (ratio : float) :
  (0 <? ratio)%float = true -> (ratio <=? 1)%float = true ->
  exists count, summary_sentences_count n ratio = Returned count /\
                Z.max 1 <$> floor_of_float (float_of_len n * ratio) = Some count /\
                1 <= count.
Proof.
  intros H0 H1. destruct (int_of_scaled_len n ratio H0 H1) as (v & Hv & Hi & Hf).
  exists (Z.max 1 v). unfold summary_sentences_count.
  rewrite Hi, Hf. cbn. split; [done|]. split; [done | lia].
Qed.

Lemma join_nonempty (sep p : string) (ps : list string) :
  p <> EmptyString -> join sep (p :: ps) <> EmptyString.
Proof.
  intros Hp. cbn [join]. destruct ps; [done|].
  destruct p; [done|]. by rewrite append_cons.
Qed.

(** A summary of at least one selected sentence is not empty. *)
Lemma summary_nonempty (text : string) (count : Z) :
  Counter.truthy (frequencies_of text) = true -> 1 <= count ->
  join " " ((fun i => nth i (sentences_of text) EmptyString) <$>
              top_indices (scores_of text) count) <> EmptyString.
Proof.
  intros Hf Hc.
  pose proof (scores_of_nonempty text Hf) as Hne.
  pose proof (top_indices_length (scores_of text) count) as Hlen.
  destruct (top_indices (scores_of text) count) as [| i idx] eqn:Htop.
  { destruct (scores_of text); [done|]. cbn in Hlen. lia. }
  cbn [fmap list_fmap]. apply join_nonempty.
  assert (Hi : i ∈ top_indices (scores_of text) count) by (rewrite Htop; by left).
  apply top_indices_subseteq, list_elem_of_fmap in Hi as ([j v] & -> & Hv).
  apply scores_of_elem in Hv as (s & Hs & Hh & _). cbn [fst].
  rewrite (nth_lookup_Some _ _ _ _ Hs).
  apply any_hit_exists in Hh as (w & Hw & _). by eapply words_of_nonempty.
Qed.

End SummarizerFacts.

(** * The binary64 count and the exact floor *)

Module CountFacts.
Import Builtins Summarizer Rounding FloatFacts.




End CountFacts.

(** * The claims about the summarizer *)

Module SummarizerSpec.
Import PyStr Re Builtins Summarizer.
Import ScoreModel SelectionOrder TextFacts FrequencyFacts ScoreFacts SelectFacts FloatFacts SummarizerFacts.
Import CountFacts.

(** A text has a non-stop word exactly when its frequency map is truthy. *)
Lemma has_content_truthy (text : string) :
  (exists w, w ∈ snd (preprocess_text text) /\ w ∉ STOP_WORDS) <->
  Counter.truthy (frequencies_of text) = true.
Proof.
  rewrite truthy_is_Some. unfold frequencies_of.
  split; intros (w & Hw); exists w; by apply calculate_word_frequencies_is_Some.
Qed.

Lemma no_content_falsy (text : string) :
  (forall w, w ∈ snd (preprocess_text text) -> w ∈ STOP_WORDS) ->
  Counter.truthy (frequencies_of text) = false.
Proof.
  intros Hall. apply not_true_is_false. intros Ht.
  apply has_content_truthy in Ht as (w & Hw & Hs). by apply Hs, Hall.
Qed.

(** C1. For a non-empty text with at least one non-stop word and a ratio in
    (0, 1], [summarize_text] returns a non-empty string that joins, with
    single spaces, a subsequence of the tokenized sentences: sentences at
    increasing positions, so in their order, none twice, nothing else. *)
Theorem summary_is_subsequence (text : string) (ratio : float) :
  text <> EmptyString ->
  (exists w, w ∈ snd (preprocess_text text) /\ w ∉ STOP_WORDS) ->
  (0 <? ratio)%float = true -> (ratio <=? 1)%float = true ->
  exists parts,
    summarize_text text ratio = Returned (join " " parts) /\
    parts `sublist_of` fst (preprocess_text text) /\
    join " " parts <> EmptyString.
Proof.
  intros _ Hw H0 H1. apply has_content_truthy in Hw.
  destruct (summary_sentences_count_unit (length (sentences_of text)) ratio H0 H1)
    as (count & Hc & _ & Hge).
  eexists. split; [by apply (summarize_text_count text ratio count)|].
  split; [|by apply summary_nonempty].
  apply picked_sublist, top_indices_of_text.
Qed.

Lemma summary_is_subsequence_witness :
  exists parts,
    summarize_text pets 0.34 = Returned (join " " parts) /\
    parts `sublist_of` fst (preprocess_text pets) /\
    join " " parts <> EmptyString.
Proof.
  apply (summary_is_subsequence pets 0.34).
  - discriminate.
  - exists "cat"%string. split.
    + apply list_elem_of_In. vm_compute. tauto.
    + apply (bool_decide_eq_false_1 _). vm_compute. reflexivity.
  - vm_compute. reflexivity.
  - vm_compute. reflexivity.
Defined.

(** C2. Ties are broken by the lowest sentence position: when a selected
    sentence and an earlier sentence have the same score, the earlier one is
    selected too. On the scenario text with ratio 0.34 the scores are 2, 4
    and 4, one sentence is wanted, and the summary is the second
    sentence. *)
Theorem ties_broken_by_lowest_position :
  (forall (text : string) (ratio : float) (idx : list nat) (i j : nat) (v : Z),
      selected_indices text ratio = Returned idx ->
      i ∈ idx -> (j < i)%nat ->
      Scores.lookup (scores_of text) i = Some v ->
      Scores.lookup (scores_of text) j = Some v ->
      j ∈ idx) /\
  scores_of pets = [(0%nat, 2); (1%nat, 4); (2%nat, 4)] /\
  summary_sentences_count (length (sentences_of pets)) 0.34 = Returned 1 /\
  summarize_text pets 0.34 = Returned "Dogs bark loudly."%string.
Proof.
  split; [|split; [|split]]; [| vm_compute; reflexivity ..].
  intros text ratio idx i j v Hsel Hi Hji Hvi Hvj.
  unfold selected_indices in Hsel. cbn [preprocess_text] in Hsel.
  fold (sentences_of text) in Hsel.
  destruct (summary_sentences_count _ ratio) as [count | e]; [|discriminate Hsel].
  injection Hsel as <-.
  apply (top_indices_closed (scores_of text) count i j v v);
    [apply scores_of_keys_sorted | by apply lookup_elem_of ..| exact Hi |].
  right. cbn. split; [reflexivity | exact Hji].
Qed.

(** The tie of the scenario at ratio 0.67: positions 1 and 2 are selected. *)
Lemma ties_broken_by_lowest_position_witness : 1%nat ∈ [1%nat; 2%nat].
Proof.
  apply (proj1 ties_broken_by_lowest_position pets 0.67%float [1%nat; 2%nat] 2%nat 1%nat 4).
  - vm_compute. reflexivity.
  - apply list_elem_of_In. vm_compute. tauto.
  - lia.
  - vm_compute. reflexivity.
  - vm_compute. reflexivity.
Defined.




(** C4. With ratio exactly 1.0 the selection is exactly the sentences that
    have an entry in the score map; and whenever the scored sentences are
    no more than the wanted count, all of them are selected and the call
    returns. The text has a non-stop word and at most [2^53] sentences
    (beyond that a length is not a binary64 number). *)
Theorem ratio_one_selects_all_scored (text : string) :
  (exists w, w ∈ snd (preprocess_text text) /\ w ∉ STOP_WORDS) ->
  Z.of_nat (length (sentences_of text)) <= 2 ^ 53 ->
  (selected_indices text 1 = Returned (scores_of text).*1 /\
   summarize_text text 1 = Returned (join " " (scored_sentences text))) /\
  (forall ratio count,
      summary_sentences_count (length (sentences_of text)) ratio = Returned count ->
      Z.of_nat (length (scores_of text)) <= count ->
      selected_indices text ratio = Returned (scores_of text).*1 /\
      summarize_text text ratio = Returned (join " " (scored_sentences text))).
Proof.
  intros Hw Hn. apply has_content_truthy in Hw.
  assert (Hall : forall ratio count,
      summary_sentences_count (length (sentences_of text)) ratio = Returned count ->
      Z.of_nat (length (scores_of text)) <= count ->
      selected_indices text ratio = Returned (scores_of text).*1 /\
      summarize_text text ratio = Returned (join " " (scored_sentences text))).
  { intros ratio count Hc Hlen.
    rewrite (selected_indices_count text ratio count Hc).
    rewrite (summarize_text_count text ratio count Hw Hc).
    unfold scored_sentences.
    rewrite (top_indices_all (scores_of text) count); [done | | lia].
    apply scores_of_keys_sorted. }
  split; [|exact Hall].
  apply (Hall 1%float (Z.max 1 (Z.of_nat (length (sentences_of text))))).
  - unfold summary_sentences_count. by rewrite int_of_len_times_one.
  - pose proof (sublist_length _ _ (scores_of_keys_sublist text)) as Hlen.
    rewrite length_fmap, length_seq in Hlen. lia.
Qed.

Lemma ratio_one_selects_all_scored_witness :
  (selected_indices pets 1 = Returned (scores_of pets).*1 /\
   summarize_text pets 1 = Returned (join " " (scored_sentences pets))) /\
  (forall ratio count,
      summary_sentences_count (length (sentences_of pets)) ratio = Returned count ->
      Z.of_nat (length (scores_of pets)) <= count ->
      selected_indices pets ratio = Returned (scores_of pets).*1 /\
      summarize_text pets ratio = Returned (join " " (scored_sentences pets))).
Proof.
  apply (ratio_one_selects_all_scored pets).
  - exists "cat"%string. split.
    + apply list_elem_of_In. vm_compute. tauto.
    + apply (bool_decide_eq_false_1 _). vm_compute. reflexivity.
  - vm_compute. discriminate.
Defined.

(** C5. An empty text gets the empty-input message; a non-empty text whose
    words are all stop words, or that has no word at all, gets the
    no-frequencies message; the two messages differ; and "The. An. Is."
    gets the second one, not an empty summary. *)
Theorem error_results_distinct (ratio : float) :
  summarize_text EmptyString ratio = Returned EMPTY_INPUT_MESSAGE /\
  (forall text,
      text <> EmptyString ->
      (forall w, w ∈ snd (preprocess_text text) -> w ∈ STOP_WORDS) ->
      summarize_text text ratio = Returned NO_FREQUENCIES_MESSAGE) /\
  EMPTY_INPUT_MESSAGE <> NO_FREQUENCIES_MESSAGE /\
  summarize_text "The. An. Is." ratio = Returned NO_FREQUENCIES_MESSAGE /\
  NO_FREQUENCIES_MESSAGE <> EmptyString.
Proof.
  assert (Hgen : forall text,
      text <> EmptyString ->
      (forall w, w ∈ snd (preprocess_text text) -> w ∈ STOP_WORDS) ->
      summarize_text text ratio = Returned NO_FREQUENCIES_MESSAGE).
  { intros text Hne Hall. apply no_content_falsy in Hall.
    unfold summarize_text. destruct text; [done|]. cbn [truthy negb preprocess_text].
    unfold frequencies_of in Hall. cbn [preprocess_text snd] in Hall.
    by rewrite Hall. }
  split; [reflexivity|]. split; [exact Hgen|]. split; [discriminate|].
  split; [|discriminate].
  apply Hgen; [discriminate|].
  intros w Hw. apply list_elem_of_In in Hw. vm_compute in Hw.
  destruct Hw as [<- | [<- | [<- | []]]];
    apply (bool_decide_eq_true_1 _); vm_compute; reflexivity.
Qed.

(** C6. For a fixed text and ratios [r1 <= r2] in (0, 1], at least as many
    sentences are selected at [r2] as at [r1]. *)
Theorem selection_monotone_in_ratio (text : string) (r1 r2 : float) :
  (0 <? r1)%float = true -> (r1 <=? 1)%float = true ->
  (0 <? r2)%float = true -> (r2 <=? 1)%float = true ->
  (r1 <=? r2)%float = true ->
  exists idx1 idx2,
    selected_indices text r1 = Returned idx1 /\
    selected_indices text r2 = Returned idx2 /\
    (length idx1 <= length idx2)%nat /\
    ((exists w, w ∈ snd (preprocess_text text) /\ w ∉ STOP_WORDS) ->
     summarize_text text r1 =
       Returned (join " " ((fun i => nth i (sentences_of text) EmptyString) <$> idx1)) /\
     summarize_text text r2 =
       Returned (join " " ((fun i => nth i (sentences_of text) EmptyString) <$> idx2))).
Proof.
  intros P1 U1 P2 U2 Hle.
  destruct (int_of_scaled_len_mono (length (sentences_of text)) r1 r2 P1 U1 P2 U2 Hle)
    as (v1 & v2 & Hv1 & Hv2 & Hv).
  assert (Hc1 : summary_sentences_count (length (sentences_of text)) r1 =
                Returned (Z.max 1 v1)).
  { unfold summary_sentences_count. by rewrite Hv1. }
  assert (Hc2 : summary_sentences_count (length (sentences_of text)) r2 =
                Returned (Z.max 1 v2)).
  { unfold summary_sentences_count. by rewrite Hv2. }
  exists (top_indices (scores_of text) (Z.max 1 v1)),
         (top_indices (scores_of text) (Z.max 1 v2)).
  split; [by apply selected_indices_count|].
  split; [by apply selected_indices_count|].
  split; [rewrite !top_indices_length; lia|].
  intros Hw. apply has_content_truthy in Hw.
  split; by apply summarize_text_count.
Qed.

Lemma selection_monotone_in_ratio_witness :
  exists idx1 idx2,
    selected_indices pets 0.34 = Returned idx1 /\
    selected_indices pets 0.67 = Returned idx2 /\
    (length idx1 <= length idx2)%nat /\
    ((exists w, w ∈ snd (preprocess_text pets) /\ w ∉ STOP_WORDS) ->
     summarize_text pets 0.34 =
       Returned (join " " ((fun i => nth i (sentences_of pets) EmptyString) <$> idx1)) /\
     summarize_text pets 0.67 =
       Returned (join " " ((fun i => nth i (sentences_of pets) EmptyString) <$> idx2))).
Proof.
  apply (selection_monotone_in_ratio pets 0.34 0.67); vm_compute; reflexivity.
Defined.

(** C7. In the map returned by [calculate_word_frequencies] no key is a
    stop word and every count is positive. *)
Theorem frequency_map_invariant (words : list string) (k : string) (v : Z) :
  calculate_word_frequencies words !! k = Some v ->
  (k ∉ STOP_WORDS) /\ 0 < v.
Proof.
  apply (fold_count_word_invariant words ∅). intros k' v' H.
  by rewrite lookup_empty in H.
Qed.

Lemma frequency_map_invariant_witness :
  ("cat"%string ∉ STOP_WORDS) /\ 0 < 2.
Proof.
  apply (frequency_map_invariant ["the"; "cat"; "and"; "cat"]%string "cat"%string 2).
  vm_compute. reflexivity.
Defined.

(** C9. If the frequency map of a text is not empty, its score map is not
    empty either, every key of the frequency map being a word of some
    tokenized sentence; so past the frequency guard [summarize_text] never
    returns the empty string, and for a ratio in (0, 1] it returns. *)
Theorem nonempty_frequencies_nonempty_summary (text : string) :
  frequencies_of text <> ∅ ->
  scores_of text <> [] /\
  (forall w, is_Some (frequencies_of text !! w) ->
     exists i s, fst (preprocess_text text) !! i = Some s /\
                 w ∈ findall_words (lower s)) /\
  (forall ratio s, summarize_text text ratio = Returned s -> s <> EmptyString) /\
  (forall ratio, (0 <? ratio)%float = true -> (ratio <=? 1)%float = true ->
     exists s, summarize_text text ratio = Returned s).
Proof.
  intros Hne.
  assert (Hf : Counter.truthy (frequencies_of text) = true).
  { unfold Counter.truthy. by rewrite bool_decide_eq_false_2. }
  split; [by apply scores_of_nonempty|].
  split; [apply counted_word_in_sentence|]. split.
  - intros ratio s Hs.
    destruct (summary_sentences_count (length (sentences_of text)) ratio)
      as [count | e] eqn:Hc.
    + rewrite (summarize_text_count text ratio count Hf Hc) in Hs.
      injection Hs as <-. apply summary_nonempty; [done|].
      by eapply summary_sentences_count_ge_1.
    + pose proof (truthy_text text Hf) as Ht.
      unfold summarize_text in Hs. rewrite Ht in Hs. cbn [negb preprocess_text] in Hs.
      unfold frequencies_of, sentences_of in *. cbn [preprocess_text fst snd] in *.
      rewrite Hf, Hc in Hs. discriminate Hs.
  - intros ratio H0 H1.
    destruct (summary_sentences_count_unit (length (sentences_of text)) ratio H0 H1)
      as (count & Hc & _).
    eexists. by apply (summarize_text_count text ratio count).
Qed.

Lemma nonempty_frequencies_nonempty_summary_witness :
  scores_of pets <> [] /\
  (forall w, is_Some (frequencies_of pets !! w) ->
     exists i s, fst (preprocess_text pets) !! i = Some s /\
                 w ∈ findall_words (lower s)) /\
  (forall ratio s, summarize_text pets ratio = Returned s -> s <> EmptyString) /\
  (forall ratio, (0 <? ratio)%float = true -> (ratio <=? 1)%float = true ->
     exists s, summarize_text pets ratio = Returned s).
Proof.
  apply (nonempty_frequencies_nonempty_summary pets).
  apply (bool_decide_eq_false_1 _). vm_compute. reflexivity.
Defined.

(** C10. [score_sentences] leaves the frequency map it is given as it was:
    every subscript of the [defaultdict] is behind a membership test, so no
    key is added, with value zero or otherwise. *)
Theorem score_sentences_keeps_frequencies (sentences : list string)
    (word_frequencies : gmap string Z) :
  snd (score_sentences_state sentences word_frequencies) = word_frequencies /\
  (forall w, word_frequencies !! w = None ->
             snd (score_sentences_state sentences word_frequencies) !! w = None).
Proof.
  assert (H : snd (score_sentences_state sentences word_frequencies) = word_frequencies)
    by apply score_loop_frame.
  split; [exact H | by rewrite H].
Qed.

(** Unguarded, a subscript does store the default: the frame property is
    due to the membership test. *)
Example getitem_stores_default :
  Counter.getitem ∅ "cat"%string = (0, {["cat"%string := 0]}).
Proof. vm_compute. reflexivity. Qed.

(** The product is the binary64 one: six sentences at one third round up
    to two whole sentences. *)
Example count_of_six_thirds :
  summary_sentences_count 6 0x1.5555555555555p-2 = Returned 2.
Proof. vm_compute. reflexivity. Qed.

End SummarizerSpec.

Module MatMulFacts.
Import MatMul MatMulLoops.

Lemma shaped_row (M : list (list Z)) (r c i : nat) :
  shaped M r c -> (i < r)%nat -> exists row, M !! i = Some row /\ length row = c.
Proof.
  intros [Hr Hc] Hi. destruct (lookup_lt_is_Some_2 M i) as [row Hrow]; [lia|].
  exists row. split; [done|]. exact (proj1 (Forall_lookup _ M) Hc i row Hrow).
Qed.

Lemma shaped_entry (M : list (list Z)) (r c i j : nat) :
  shaped M r c -> (i < r)%nat -> (j < c)%nat -> exists v, entry M i j = Some v.
Proof.
  intros HM Hi Hj. destruct (shaped_row M r c i HM Hi) as (row & Hrow & Hlen).
  destruct (lookup_lt_is_Some_2 row j) as [v Hv]; [lia|].
  exists v. unfold entry. by rewrite Hrow.
Qed.

(** [result[i][j] += v] changes entry [(i, j)] and nothing else. *)
Lemma iadd_entry_spec (R : list (list Z)) (r c i j : nat) (old v : Z) :
  shaped R r c -> entry R i j = Some old ->
  exists R', iadd_entry R i j v = Returned R' /\ shaped R' r c /\
    entry R' i j = Some (old + v) /\
    forall i' j', i' <> i \/ j' <> j -> entry R' i' j' = entry R i' j'.
Proof.
  intros [Hr Hc] He. unfold entry in He.
  destruct (R !! i) as [row|] eqn:Hrow; [|done]. cbn in He.
  pose proof (lookup_lt_Some _ _ _ Hrow) as Hi.
  pose proof (lookup_lt_Some _ _ _ He) as Hj.
  exists (<[i := <[j := old + v]> row]> R).
  unfold iadd_entry, getitem. rewrite Hrow. cbn. rewrite He. cbn.
  split; [done|]. split; [|split].
  - split; [by rewrite length_insert|].
    apply Forall_insert; [done|]. rewrite length_insert.
    exact (proj1 (Forall_lookup _ R) Hc i row Hrow).
  - unfold entry. rewrite list_lookup_insert_eq by done. cbn.
    by rewrite list_lookup_insert_eq.
  - intros i' j' Hne. unfold entry.
    destruct (decide (i' = i)) as [-> | Hi'].
    + rewrite list_lookup_insert_eq by done. rewrite Hrow. cbn.
      rewrite list_lookup_insert_ne; [done | intros ->; tauto].
    + by rewrite list_lookup_insert_ne.
Qed.

Section Product.
Context (X Y : list (list Z)) (n m p : nat).
Hypothesis HX : shaped X n m.
Hypothesis HY : shaped Y m p.

Lemma body_k_spec (i j k : nat) (R : list (list Z)) (a d : Z) :
  (i < n)%nat -> (j < p)%nat -> (k < m)%nat -> shaped R n p ->
  dot X Y i j k = Some d -> entry R i j = Some (a + d) ->
  exists R' d', body_k X Y i j k R = Returned R' /\ shaped R' n p /\
    dot X Y i j (S k) = Some d' /\ entry R' i j = Some (a + d') /\
    forall i' j', i' <> i \/ j' <> j -> entry R' i' j' = entry R i' j'.
Proof.
  intros Hi Hj Hk HR Hd He.
  destruct (shaped_row X n m i HX Hi) as (xi & Hxi & Hlxi).
  destruct (lookup_lt_is_Some_2 xi k) as [xik Hxik]; [lia|].
  destruct (shaped_row Y m p k HY Hk) as (yk & Hyk & Hlyk).
  destruct (lookup_lt_is_Some_2 yk j) as [ykj Hykj]; [lia|].
  destruct (iadd_entry_spec R n p i j (a + d) (xik * ykj) HR He)
    as (R' & HR' & Hs & He' & Hother).
  exists R', (d + xik * ykj).
  unfold body_k, getitem. rewrite Hxi. cbn. rewrite Hxik. cbn.
  rewrite Hyk. cbn. rewrite Hykj. cbn.
  split; [done|]. split; [done|]. split; [|split; [|done]].
  - cbn [dot]. rewrite Hd. cbn. unfold entry. rewrite Hxi, Hyk. cbn.
    rewrite Hxik, Hykj. done.
  - rewrite He'. f_equal. lia.
Qed.

Lemma loop_k_spec (i j : nat) :
  (i < n)%nat -> (j < p)%nat ->
  forall (cnt start : nat) (R : list (list Z)) (a d : Z),
    (start + cnt <= m)%nat -> shaped R n p ->
    dot X Y i j start = Some d -> entry R i j = Some (a + d) ->
    exists R' d', for_range cnt start (body_k X Y i j) R = Returned R' /\ shaped R' n p /\
      dot X Y i j (start + cnt) = Some d' /\ entry R' i j = Some (a + d') /\
      forall i' j', i' <> i \/ j' <> j -> entry R' i' j' = entry R i' j'.
Proof.
  intros Hi Hj. induction cnt as [| cnt IH]; intros start R a d Hle HR Hd He.
  - exists R, d. rewrite Nat.add_0_r. done.
  - destruct (body_k_spec i j start R a d Hi Hj ltac:(lia) HR Hd He)
      as (R1 & d1 & HR1 & Hs1 & Hd1 & He1 & Ho1).
    destruct (IH (S start) R1 a d1 ltac:(lia) Hs1 Hd1 He1)
      as (R2 & d2 & HR2 & Hs2 & Hd2 & He2 & Ho2).
    exists R2, d2. cbn [for_range]. rewrite HR1. cbn.
    replace (start + S cnt)%nat with (S start + cnt)%nat by lia.
    split; [done|]. split; [done|]. split; [done|]. split; [done|].
    intros i' j' Hne. by rewrite Ho2, Ho1.
Qed.

Lemma body_j_spec (i j : nat) (R : list (list Z)) :
  (i < n)%nat -> (j < p)%nat -> shaped R n p ->
  exists R' a d, body_j X Y i j R = Returned R' /\ shaped R' n p /\
    entry R i j = Some a /\ dot X Y i j m = Some d /\
    entry R' i j = Some (a + d) /\
    forall i' j', i' <> i \/ j' <> j -> entry R' i' j' = entry R i' j'.
Proof.
  intros Hi Hj HR. destruct (shaped_entry R n p i j HR Hi Hj) as [a Ha].
  destruct (loop_k_spec i j Hi Hj m 0 R a 0 ltac:(lia) HR eq_refl)
    as (R' & d & HR' & Hs & Hd & He & Ho).
  { rewrite Ha. f_equal. lia. }
  exists R', a, d. unfold body_j. rewrite (proj1 HY). done.
Qed.

(** One row of the product is accumulated column by column. *)
Lemma loop_j_spec (i : nat) :
  (i < n)%nat ->
  forall (cnt start : nat) (R : list (list Z)),
    (start + cnt <= p)%nat -> shaped R n p ->
    exists R',
      for_range cnt start (body_j X Y i) R = Returned R' /\ shaped R' n p /\
      (forall j, (start <= j < start + cnt)%nat ->
         exists a d, entry R i j = Some a /\ dot X Y i j m = Some d /\
                     entry R' i j = Some (a + d)) /\
      (forall i' j', i' <> i \/ (j' < start)%nat \/ (start + cnt <= j')%nat ->
         entry R' i' j' = entry R i' j').
Proof.
  intros Hi. induction cnt as [| cnt IH]; intros start R Hle HR.
  - exists R. split; [done|]. split; [done|]. split; [intros j Hj; lia | done].
  - destruct (body_j_spec i start R Hi ltac:(lia) HR)
      as (R1 & a & d1 & HR1 & Hs1 & Ha & Hd1 & He1 & Ho1).
    destruct (IH (S start) R1 ltac:(lia) Hs1) as (R2 & HR2 & Hs2 & Hin2 & Ho2).
    exists R2. cbn [for_range]. rewrite HR1. cbn [mbind outcome_bind].
    split; [done|]. split; [done|]. split.
    + intros j Hj. destruct (decide (j = start)) as [-> | Hne].
      * exists a, d1. split; [done|]. split; [done|].
        rewrite Ho2 by lia. done.
      * destruct (Hin2 j ltac:(lia)) as (a' & d' & Ha' & Hd' & He').
        exists a', d'. rewrite <- Ho1 by lia. done.
    + intros i' j' Hne. rewrite Ho2 by lia. apply Ho1. lia.
Qed.

Lemma body_i_spec (i : nat) (R : list (list Z)) :
  (0 < m)%nat -> (i < n)%nat -> shaped R n p ->
  exists R', body_i X Y i R = Returned R' /\ shaped R' n p /\
    (forall j, (j < p)%nat ->
       exists a d, entry R i j = Some a /\ dot X Y i j m = Some d /\
                   entry R' i j = Some (a + d)) /\
    (forall i' j', i' <> i -> entry R' i' j' = entry R i' j').
Proof.
  intros Hm Hi HR. destruct (shaped_row Y m p 0 HY Hm) as (y0 & Hy0 & Hly0).
  destruct (loop_j_spec i Hi p 0 R ltac:(lia) HR) as (R' & HR' & Hs & Hin & Ho).
  exists R'. unfold body_i, getitem. rewrite Hy0. cbn [mbind outcome_bind].
  rewrite Hly0. split; [done|]. split; [done|]. split.
  - intros j Hj. apply Hin. lia.
  - intros i' j' Hne. apply Ho. by left.
Qed.

(** The rows of the product are accumulated one after the other. *)
Lemma loop_i_spec :
  (0 < m)%nat ->
  forall (cnt start : nat) (R : list (list Z)),
    (start + cnt <= n)%nat -> shaped R n p ->
    exists R',
      for_range cnt start (body_i X Y) R = Returned R' /\ shaped R' n p /\
      (forall i j, (start <= i < start + cnt)%nat -> (j < p)%nat ->
         exists a d, entry R i j = Some a /\ dot X Y i j m = Some d /\
                     entry R' i j = Some (a + d)) /\
      (forall i' j', (i' < start)%nat \/ (start + cnt <= i')%nat ->
         entry R' i' j' = entry R i' j').
Proof.
  intros Hm. induction cnt as [| cnt IH]; intros start R Hle HR.
  - exists R. split; [done|]. split; [done|]. split; [intros i j Hi; lia | done].
  - destruct (body_i_spec start R Hm ltac:(lia) HR) as (R1 & HR1 & Hs1 & Hin1 & Ho1).
    destruct (IH (S start) R1 ltac:(lia) Hs1) as (R2 & HR2 & Hs2 & Hin2 & Ho2).
    exists R2. cbn [for_range]. rewrite HR1. cbn [mbind outcome_bind].
    split; [done|]. split; [done|]. split.
    + intros i j Hi Hj. destruct (decide (i = start)) as [-> | Hne].
      * destruct (Hin1 j Hj) as (a & d & Ha & Hd & He).
        exists a, d. rewrite Ho2 by lia. done.
      * destruct (Hin2 i j ltac:(lia) Hj) as (a & d & Ha & Hd & He).
        exists a, d. rewrite <- Ho1 by lia. done.
    + intros i' j' Hne. rewrite Ho2 by lia. apply Ho1. lia.
Qed.

(** The triple loop adds the matrix product to [result]. *)
Lemma multiply_spec (R : list (list Z)) :
  (0 < m)%nat -> shaped R n p ->
  exists R', multiply X Y R = Returned R' /\ shaped R' n p /\
    forall i j, (i < n)%nat -> (j < p)%nat ->
      exists a d, entry R i j = Some a /\ dot X Y i j m = Some d /\
                  entry R' i j = Some (a + d).
Proof.
  intros Hm HR.
  destruct (loop_i_spec Hm n 0 R ltac:(lia) HR) as (R' & HR' & Hs & Hin & _).
  exists R'. change (multiply X Y R) with (for_range (length X) 0 (body_i X Y) R).
  rewrite (proj1 HX). split; [exact HR'|]. split; [done|].
  intros i j Hi Hj. apply Hin; lia.
Qed.

End Product.

End MatMulFacts.

(** * The claim about the matrix script *)

Module MatMulSpec.
Import MatMul MatMulLoops MatMulFacts.

Lemma literal_shapes : shaped X 3 3 /\ shaped Y 3 4 /\ shaped result0 3 4.
Proof. repeat split; by repeat constructor. Qed.

(** C8. The script computes the matrix product of its two literal
    matrices: it ends without raising, and afterwards [result] is the
    3x4 matrix whose entry [(i, j)] is the sum over [k] of
    [X[i][k] * Y[k][j]]. *)
Theorem script_computes_product :
  exists result,
    script = Returned result /\
    result = [[114; 160; 60; 27]; [74; 97; 73; 14]; [119; 157; 112; 23]] /\
    shaped result 3 4 /\
    forall i j, (i < 3)%nat -> (j < 4)%nat ->
      exists v, entry result i j = Some v /\ dot X Y i j (length Y) = Some v.
Proof.
  destruct literal_shapes as (HX & HY & HR).
  destruct (multiply_spec X Y 3 3 4 HX HY result0 ltac:(lia) HR)
    as (result & Hrun & Hshape & Hentries).
  exists result. split; [exact Hrun|]. split; [|split; [exact Hshape|]].
  - unfold script in Hrun. vm_compute in Hrun. by injection Hrun.
  - intros i j Hi Hj.
    destruct (Hentries i j Hi Hj) as (a & d & Ha & Hd & He).
    exists d. split; [|exact Hd]. rewrite He. f_equal.
    assert (Hzero : a = 0); [|lia].
    destruct i as [| [| [| i]]]; [| | | lia];
      (destruct j as [| [| [| [| j]]]]; [| | | | lia]);
      vm_compute in Ha; by injection Ha.
Qed.

End MatMulSpec.

(** * Facts about the sentence tokenizer *)

Module SentenceFacts.
Import PyStr Re SentenceShape TextFacts SummarizerFacts.

Lemma has_split_snoc (cur : string) (c : ascii) :
  forall a, has_split a (cur +:+ String c EmptyString) =
            has_split a cur || (ends_terminal a cur && isspace c).
Proof.
  induction cur as [| x cur IH]; intros a; rewrite ?append_nil, ?append_cons;
    cbn [has_split ends_terminal].
  - by rewrite orb_false_r.
  - by rewrite IH, orb_assoc.
Qed.

Lemma ends_terminal_snoc (cur : string) (c : ascii) :
  forall a, ends_terminal a (cur +:+ String c EmptyString) = isterminal c.
Proof.
  induction cur as [| x cur IH]; intros a; rewrite ?append_nil, ?append_cons;
    cbn [ends_terminal]; [done | apply IH].
Qed.

Lemma starts_space_append (a b : string) :
  a <> EmptyString -> starts_space (a +:+ b) = starts_space a.
Proof. destruct a; [done|]. by rewrite append_cons. Qed.

Lemma ends_space_snoc (cur : string) (c : ascii) :
  ends_space (cur +:+ String c EmptyString) = isspace c.
Proof.
  induction cur as [| x cur IH]; [done|]. rewrite append_cons.
  cbn [ends_space]. destruct (cur +:+ String c EmptyString) eqn:E; [|done].
  by destruct cur.
Qed.

Lemma append_nonempty_l (a b : string) : a <> EmptyString -> a +:+ b <> EmptyString.
Proof. destruct a; [done|]. by rewrite append_cons. Qed.

Lemma snoc_nonempty (a : string) (c : ascii) : a +:+ String c EmptyString <> EmptyString.
Proof. destruct a; [done|]. by rewrite append_cons. Qed.

Lemma isterminal_not_space (c : ascii) : isterminal c = true -> isspace c = false.
Proof. destruct c as [[] [] [] [] [] [] [] []]; intros H; try reflexivity; discriminate H. Qed.

(** Reading a stretch without separator only extends the current piece. *)
Lemma split_from_run (p : string) :
  forall at_term cur rest,
    has_split at_term p = false ->
    split_from false at_term cur (p +:+ rest) =
    split_from false (ends_terminal at_term p) (cur +:+ p) rest.
Proof.
  induction p as [| c p IH]; intros at_term cur rest Hp.
  - by rewrite append_nil, append_empty_r.
  - cbn [has_split] in Hp. apply orb_false_elim in Hp as [Hc Hp].
    rewrite append_cons. cbn [split_from ends_terminal]. rewrite Hc.
    rewrite IH by done. by rewrite append_snoc.
Qed.

Lemma reading_snoc (at_term : bool) (cur : string) (c : ascii) :
  reading at_term cur -> at_term && isspace c = false ->
  reading (isterminal c) (cur +:+ String c EmptyString).
Proof.
  intros [Ha Hc] Hsep. split; [by rewrite ends_terminal_snoc|].
  by rewrite has_split_snoc, Hc, <- Ha, Hsep.
Qed.

Lemma reading_start (c : ascii) : reading (isterminal c) (String c EmptyString).
Proof. split; [done|]. cbn [has_split]. by rewrite andb_false_l. Qed.

Lemma split_from_pieces (s : string) :
  (forall at_term cur, reading at_term cur -> pieces_ok (split_from false at_term cur s)) /\
  (forall at_term, pieces_ok (split_from true at_term EmptyString s)).
Proof.
  induction s as [| c s [IH1 IH2]]; (split; [intros at_term cur Hr | intros at_term]).
  - destruct Hr as [_ Hc]. split; [by repeat constructor | done].
  - split; [by repeat constructor | done].
  - cbn [split_from]. destruct (at_term && isspace c) eqn:Hsep.
    + destruct (IH2 false) as [HF HL]. destruct Hr as [Ha Hc].
      split; [by constructor|].
      cbn [all_but_last].
      destruct (split_from true false EmptyString s) eqn:E; [done|].
      split; [|done]. apply andb_prop in Hsep as [-> _]. done.
    + apply IH1. by apply (reading_snoc at_term).
  - cbn [split_from]. destruct (isspace c); [apply IH2|].
    apply IH1, reading_start.
Qed.

Lemma ends_space_cons (c : ascii) (s : string) :
  s <> EmptyString -> ends_space (String c s) = ends_space s.
Proof. by destruct s. Qed.

Lemma ends_terminal_not_space (cur : string) :
  forall a, ends_terminal a cur = true -> ends_space cur = false.
Proof.
  induction cur as [| c cur IH]; intros a H; [done|].
  cbn [ends_terminal] in H. destruct cur as [| c' cur'].
  - cbn in *. by apply isterminal_not_space.
  - rewrite ends_space_cons by done. by eapply IH.
Qed.

(** In a text that does not end with whitespace, every piece is non-empty
    and neither starts nor ends with whitespace, once the first piece has
    started so. *)
Lemma split_from_trimmed (s : string) :
  ends_space s = false ->
  (forall at_term cur,
     at_term = ends_terminal false cur -> cur <> EmptyString ->
     starts_space cur = false ->
     (s = EmptyString -> ends_space cur = false) ->
     Forall trimmed (split_from false at_term cur s)) /\
  (forall at_term, s <> EmptyString ->
     Forall trimmed (split_from true at_term EmptyString s)).
Proof.
  induction s as [| c s IH]; intros Hs;
    (split; [intros at_term cur Hr Hne Hst Hend | intros at_term Hne]).
  - repeat constructor; [done | done | by apply Hend].
  - done.
  - assert (Hs' : s <> EmptyString -> ends_space s = false).
    { intros H. by rewrite <- (ends_space_cons c s H). }
    cbn [split_from]. destruct (at_term && isspace c) eqn:Hsep.
    + apply andb_prop in Hsep as [Hat Hc].
      assert (Hsne : s <> EmptyString).
      { intros ->. cbn in Hs. congruence. }
      constructor.
      * split; [done|]. split; [done|].
        apply (ends_terminal_not_space cur false). congruence.
      * by apply (proj2 (IH (Hs' Hsne))).
    + destruct (decide (s = EmptyString)) as [-> | Hsne].
      * cbn [split_from]. repeat constructor.
        -- apply snoc_nonempty.
        -- by rewrite starts_space_append.
        -- rewrite ends_space_snoc. cbn in Hs. done.
      * apply (proj1 (IH (Hs' Hsne))).
        -- by rewrite ends_terminal_snoc.
        -- apply snoc_nonempty.
        -- by rewrite starts_space_append.
        -- done.
  - assert (Hs' : s <> EmptyString -> ends_space s = false).
    { intros H. by rewrite <- (ends_space_cons c s H). }
    cbn [split_from]. destruct (isspace c) eqn:Hc.
    + assert (Hsne : s <> EmptyString).
      { intros ->. cbn in Hs. congruence. }
      by apply (proj2 (IH (Hs' Hsne))).
    + destruct (decide (s = EmptyString)) as [-> | Hsne].
      * cbn [split_from]. repeat constructor; done.
      * apply (proj1 (IH (Hs' Hsne))); done.
Qed.

(** *** Stripping *)

Lemma starts_space_lstrip (s : string) : starts_space (lstrip s) = false.
Proof.
  induction s as [| c s IH]; [done|]. cbn [lstrip].
  destruct (isspace c) eqn:Hc; [done | by cbn].
Qed.

Lemma rstrip_head (c : ascii) (s : string) :
  rstrip (String c s) = EmptyString \/ exists r, rstrip (String c s) = String c r.
Proof.
  cbn [rstrip]. destruct (rstrip s); [|right; by eexists].
  destruct (isspace c); [by left | right; by eexists].
Qed.

Lemma starts_space_rstrip (s : string) :
  starts_space s = false -> starts_space (rstrip s) = false.
Proof.
  destruct s as [| c s]; [done|]. intros H.
  destruct (rstrip_head c s) as [-> | [r ->]]; done.
Qed.

Lemma ends_space_rstrip (s : string) : ends_space (rstrip s) = false.
Proof.
  induction s as [| c s IH]; [done|]. cbn [rstrip].
  destruct (rstrip s) as [| c' r] eqn:E.
  - destruct (isspace c) eqn:Hc; [done | by cbn].
  - by rewrite ends_space_cons.
Qed.

Lemma lstrip_id (s : string) : starts_space s = false -> lstrip s = s.
Proof. destruct s as [| c s]; [done|]. cbn. by intros ->. Qed.

Lemma rstrip_id (s : string) : ends_space s = false -> rstrip s = s.
Proof.
  induction s as [| c s IH]; [done|]. intros H. cbn [rstrip].
  destruct s as [| c' s'].
  - cbn in *. by rewrite H.
  - rewrite ends_space_cons in H by done. by rewrite IH.
Qed.

Lemma strip_id (s : string) :
  starts_space s = false -> ends_space s = false -> strip s = s.
Proof. intros H1 H2. unfold strip. by rewrite lstrip_id, rstrip_id. Qed.

Lemma strip_trimmed (s : string) :
  starts_space (strip s) = false /\ ends_space (strip s) = false.
Proof.
  split; [apply starts_space_rstrip, starts_space_lstrip | apply ends_space_rstrip].
Qed.

Lemma strip_strip (s : string) : strip (strip s) = strip s.
Proof. apply strip_id; apply strip_trimmed. Qed.

(** The sentences of a text whose stripped form is not empty. *)
Lemma split_sentences_shape (s : string) :
  s <> EmptyString -> starts_space s = false -> ends_space s = false ->
  Forall well_formed (split_sentences s) /\
  all_but_last (fun p => ends_terminal false p = true) (split_sentences s).
Proof.
  intros Hne Hst Hend. destruct s as [| c s]; [done|]. cbn in Hst.
  assert (Heq : split_sentences (String c s) =
                split_from true false EmptyString (String c s)).
  { unfold split_sentences. cbn [split_from]. by rewrite Hst. }
  rewrite Heq.
  destruct (proj2 (split_from_pieces (String c s)) false) as [HF HL].
  pose proof (proj2 (split_from_trimmed (String c s) Hend) false Hne) as HT.
  split; [|done].
  apply Forall_forall. intros p Hp.
  rewrite Forall_forall in HF, HT.
  destruct (HT p Hp) as (H1 & H2 & H3). repeat split; auto.
Qed.

(** *** Closure under taking a subsequence *)

Lemma all_but_last_sublist {A} (P : A -> Prop) (l1 l2 : list A) :
  l1 `sublist_of` l2 -> all_but_last P l2 -> all_but_last P l1.
Proof.
  induction 1 as [| x l1 l2 Hsub IH | x l1 l2 Hsub IH]; intros H; [done | |].
  - destruct l2 as [| y l2].
    + apply sublist_nil_r in Hsub as ->. done.
    + destruct H as [Hx H]. destruct l1 as [| z l1]; [done|].
      split; [done | by apply IH].
  - apply IH. destruct l2; [done|]. by destruct H.
Qed.

(** *** Splitting a joined list of sentences *)

Lemma ends_space_append (a b : string) :
  b <> EmptyString -> ends_space (a +:+ b) = ends_space b.
Proof.
  intros Hb. induction a as [| c a IH]; [done|]. rewrite append_cons.
  rewrite ends_space_cons; [done|]. destruct a; [by rewrite append_nil|].
  by rewrite append_cons.
Qed.

Lemma split_from_sentence (p rest : string) (sk : bool) :
  well_formed p ->
  split_from sk false EmptyString (p +:+ rest) =
  split_from false (ends_terminal false p) p rest.
Proof.
  intros (Hne & Hst & _ & Hsp). destruct sk.
  - destruct p as [| c p]; [done|]. cbn [starts_space has_split andb orb] in Hst, Hsp.
    rewrite append_cons. cbn [split_from]. rewrite Hst.
    rewrite split_from_run by done. by rewrite append_cons, append_nil.
  - rewrite split_from_run by done. by rewrite append_nil.
Qed.

Lemma split_from_join (parts : list string) :
  forall sk p,
    Forall well_formed (p :: parts) ->
    all_but_last (fun p => ends_terminal false p = true) (p :: parts) ->
    split_from sk false EmptyString (join " " (p :: parts)) = p :: parts.
Proof.
  induction parts as [| q parts IH]; intros sk p HF HL.
  - cbn [join]. rewrite <- (append_empty_r p) at 1.
    rewrite split_from_sentence by (by inversion HF). done.
  - apply Forall_cons in HF as [Hp HF]. destruct HL as [Ht HL].
    change (join " " (p :: q :: parts)) with (p +:+ " " +:+ join " " (q :: parts)).
    rewrite split_from_sentence by done. rewrite Ht.
    rewrite append_cons, append_nil. cbn [split_from].
    change (isspace " ") with true. cbn [andb].
    f_equal. by apply IH.
Qed.

Lemma join_trimmed (parts : list string) :
  forall p, Forall well_formed (p :: parts) ->
    starts_space (join " " (p :: parts)) = false /\
    ends_space (join " " (p :: parts)) = false.
Proof.
  induction parts as [| q parts IH]; intros p HF.
  - apply Forall_cons in HF as [(H1 & H2 & H3 & _) _]. done.
  - apply Forall_cons in HF as [(H1 & H2 & H3 & _) HF].
    destruct (IH q HF) as [_ He].
    change (join " " (p :: q :: parts)) with (p +:+ " " +:+ join " " (q :: parts)).
    split; [by rewrite starts_space_append|].
    rewrite ends_space_append.
    + rewrite append_cons, append_nil. rewrite ends_space_cons; [done|].
      apply join_nonempty. apply Forall_cons in HF as [(? & _) _]. done.
    + by rewrite append_cons.
Qed.

(** Joining sentences with single spaces and splitting again gives the
    sentences back. *)
Lemma split_join (parts : list string) :
  parts <> [] -> Forall well_formed parts ->
  all_but_last (fun p => ends_terminal false p = true) parts ->
  split_sentences (strip (join " " parts)) = parts.
Proof.
  intros Hne HF HL. destruct parts as [| p parts]; [done|].
  destruct (join_trimmed parts p HF) as [H1 H2].
  rewrite strip_id by done. by apply split_from_join.
Qed.

End SentenceFacts.

(** * Facts about a summary past the guards *)

Module SummaryFacts.
Import PyStr Re Builtins Summarizer ScoreModel SentenceShape SelectionModel.
Import TextFacts FrequencyFacts ScoreFacts SelectFacts SummarizerFacts SentenceFacts.

Lemma content_strip_nonempty (text : string) :
  Counter.truthy (frequencies_of text) = true -> strip text <> EmptyString.
Proof.
  intros Ht Hs. apply truthy_is_Some in Ht as [w Hw].
  apply calculate_word_frequencies_is_Some in Hw as [Hw _].
  cbn [preprocess_text snd] in Hw. fold (words_of text) in Hw.
  rewrite <- words_of_strip, Hs in Hw. by apply elem_of_nil in Hw.
Qed.

Lemma sentences_of_shape (text : string) :
  strip text <> EmptyString ->
  Forall well_formed (sentences_of text) /\
  all_but_last (fun p => ends_terminal false p = true) (sentences_of text).
Proof.
  intros Hne. destruct (strip_trimmed text) as [H1 H2].
  by apply split_sentences_shape.
Qed.

Lemma summarize_text_raised (text : string) (ratio : float) (e : exn) :
  Counter.truthy (frequencies_of text) = true ->
  summary_sentences_count (length (sentences_of text)) ratio = Raised e ->
  summarize_text text ratio = Raised e.
Proof.
  intros Hf Hc. pose proof (truthy_text text Hf) as Ht.
  unfold summarize_text. rewrite Ht. cbn [negb preprocess_text].
  unfold frequencies_of, sentences_of in *. cbn [preprocess_text fst snd] in *.
  rewrite Hf. cbn [negb]. by rewrite Hc.
Qed.

(** Past the guards, a returned summary joins the sentences at the selected
    positions, and at least one. *)
Lemma summarize_text_inv (text : string) (ratio : float) (summary : string) :
  Counter.truthy (frequencies_of text) = true ->
  summarize_text text ratio = Returned summary ->
  exists count,
    summary_sentences_count (length (sentences_of text)) ratio = Returned count /\
    1 <= count /\
    summary = join " " ((fun i => nth i (sentences_of text) EmptyString) <$>
                          top_indices (scores_of text) count).
Proof.
  intros Hf Hs.
  destruct (summary_sentences_count (length (sentences_of text)) ratio)
    as [count | e] eqn:Hc.
  - exists count. split; [done|].
    split; [by eapply summary_sentences_count_ge_1|].
    rewrite (summarize_text_count text ratio count Hf Hc) in Hs. by injection Hs.
  - by rewrite (summarize_text_raised text ratio e Hf Hc) in Hs.
Qed.

Lemma selected_indices_inv (text : string) (ratio : float) (idx : list nat) :
  selected_indices text ratio = Returned idx ->
  exists count,
    summary_sentences_count (length (sentences_of text)) ratio = Returned count /\
    1 <= count /\ idx = top_indices (scores_of text) count.
Proof.
  intros Hsel. unfold selected_indices in Hsel. cbn [preprocess_text] in Hsel.
  fold (sentences_of text) in Hsel.
  destruct (summary_sentences_count _ ratio) as [count | e] eqn:Hc; [|discriminate Hsel].
  injection Hsel as <-. exists count. split; [done|]. split; [|done].
  by eapply summary_sentences_count_ge_1.
Qed.

Lemma selected_indices_unfold (text : string) (ratio : float) :
  selected_indices text ratio =
  (count ← summary_sentences_count (length (sentences_of text)) ratio;
   Returned (top_indices (scores_of text) count)).
Proof. reflexivity. Qed.

Lemma content_truthy (text : string) :
  (exists w, w ∈ snd (preprocess_text text) /\ w ∉ STOP_WORDS) ->
  Counter.truthy (frequencies_of text) = true.
Proof.
  intros (w & Hw). apply truthy_is_Some. exists w.
  by apply calculate_word_frequencies_is_Some.
Qed.

Lemma picked_sublist_of (text : string) (count : Z) :
  picked text count `sublist_of` sentences_of text.
Proof. apply picked_sublist, top_indices_of_text. Qed.

(** Splitting the joined selection gives the selection back. *)
Lemma resplit_picked (text : string) (count : Z) :
  Counter.truthy (frequencies_of text) = true -> 1 <= count ->
  split_sentences (strip (join " " (picked text count))) = picked text count.
Proof.
  intros Hf Hge.
  destruct (sentences_of_shape text (content_strip_nonempty text Hf)) as [HF HL].
  apply split_join.
  - intros Hnil. apply (summary_nonempty text count Hf Hge).
    fold (picked text count). by rewrite Hnil.
  - apply Forall_forall. intros p Hp. rewrite Forall_forall in HF.
    eapply HF, elem_of_sublist; [exact Hp | apply picked_sublist_of].
  - eapply all_but_last_sublist; [apply picked_sublist_of | done].
Qed.

(** Every selected sentence holds a word that is no stop word. *)
Lemma picked_have_content (text : string) (count : Z) :
  Forall (fun s => exists w, w ∈ words_of s /\ w ∉ STOP_WORDS) (picked text count).
Proof.
  apply Forall_forall. intros p Hp. unfold picked in Hp.
  apply list_elem_of_fmap in Hp as (i & -> & Hi).
  apply top_indices_subseteq, list_elem_of_fmap in Hi as ([j v] & -> & Hv).
  apply scores_of_elem in Hv as (s & Hs & Hh & _). cbn [fst].
  rewrite (nth_lookup_Some _ _ _ _ Hs).
  apply any_hit_exists in Hh as (w & Hw & Hsome). exists w. split; [done|].
  by apply calculate_word_frequencies_is_Some in Hsome as [_ ?].
Qed.

End SummaryFacts.

(** * Facts about words, counts and scores *)

Module WordFacts.
Import PyStr Re Summarizer WordModel ScoreModel.
Import TextFacts FrequencyFacts ScoreFacts.

Lemma occurrences_cons (w x : string) (words : list string) :
  occurrences w (x :: words) =
  (if decide (x = w) then 1 else 0) + occurrences w words.
Proof.
  unfold occurrences. rewrite filter_cons.
  destruct (decide (x = w)); cbn [length]; lia.
Qed.

Lemma occurrences_nonneg (w : string) (words : list string) : 0 <= occurrences w words.
Proof. unfold occurrences. lia. Qed.

Lemma occurrences_pos (w : string) (words : list string) :
  w ∈ words <-> 0 < occurrences w words.
Proof.
  induction words as [| x words IH].
  - split; [intros H; by apply elem_of_nil in H | unfold occurrences; cbn; lia].
  - rewrite occurrences_cons, elem_of_cons.
    pose proof (occurrences_nonneg w words).
    destruct (decide (x = w)) as [-> | Hne].
    + split; [lia | by left].
    + rewrite IH. split; [intros [-> | ?]; [done | lia] | right; lia].
Qed.

(** The loop of [calculate_word_frequencies] from any map [m]. *)
Lemma fold_count_word_lookup (words : list string) (w : string) :
  forall m : gmap string Z,
    fold_left count_word words m !! w =
    if decide (w ∈ STOP_WORDS \/ w ∉ words) then m !! w
    else Some (default 0 (m !! w) + occurrences w words).
Proof.
  induction words as [| x words IH]; intros m; cbn [fold_left].
  - rewrite decide_True; [done | right; apply not_elem_of_nil].
  - rewrite IH. rewrite occurrences_cons.
    destruct (decide (w ∈ STOP_WORDS)) as [Hs | Hs].
    { rewrite !decide_True by (by left).
      destruct (decide (x ∈ STOP_WORDS)) as [Hx | Hx].
      - by rewrite count_word_stop.
      - rewrite count_word_other by done. rewrite lookup_insert_ne; [done|].
        by intros ->. }
    destruct (decide (x = w)) as [-> | Hne].
    + rewrite count_word_other by done. rewrite lookup_insert_eq. cbn [from_option id].
      set (d := default 0 (m !! w)).
      rewrite (decide_False (P := _ \/ w ∉ w :: words));
        [|intros [? | Hn]; [done | apply Hn; by left]].
      destruct (decide (w ∈ words)) as [Hin | Hin].
      * rewrite decide_False by tauto. f_equal. unfold id. lia.
      * rewrite decide_True by tauto.
        f_equal.
        pose proof (occurrences_nonneg w words).
        assert (occurrences w words = 0); [|unfold id; lia].
        destruct (decide (0 < occurrences w words)) as [Hp | Hp]; [|lia].
        by apply occurrences_pos in Hp.
    + assert (Hm : count_word m x !! w = m !! w).
      { destruct (decide (x ∈ STOP_WORDS)) as [Hx | Hx].
        - by rewrite count_word_stop.
        - rewrite count_word_other by done. by rewrite lookup_insert_ne. }
      rewrite Hm. rewrite Z.add_0_l.
      destruct (decide (w ∈ words)) as [Hin | Hin].
      * rewrite !decide_False; [done | |]; [|tauto].
        intros [? | Hn]; [done|]. apply Hn. by right.
      * rewrite !decide_True; [done | |]; [|tauto].
        right. intros [? | ?]%elem_of_cons; congruence.
Qed.

(** *** Words are runs of lower-cased word characters *)

Lemma lower_char_idem (c : ascii) : lower_char (lower_char c) = lower_char c.
Proof. destruct c as [[] [] [] [] [] [] [] []]; vm_compute; reflexivity. Qed.

Lemma all_chars_snoc (p : ascii -> bool) (s : string) (c : ascii) :
  all_chars p (s +:+ String c EmptyString) = all_chars p s && p c.
Proof.
  induction s as [| x s IH]; rewrite ?append_nil, ?append_cons; cbn [all_chars].
  - by rewrite andb_true_r.
  - by rewrite IH, andb_assoc.
Qed.

Lemma word_shaped_snoc (cur : string) (c : ascii) :
  word_shaped cur -> isword (lower_char c) = true ->
  word_shaped (cur +:+ String (lower_char c) EmptyString).
Proof.
  intros [H1 H2] Hc. split.
  - by rewrite all_chars_snoc, H1, Hc.
  - rewrite lower_append, H2. cbn [lower]. by rewrite lower_char_idem.
Qed.

Lemma findall_from_lower_shape (s : string) :
  forall cur, word_shaped cur ->
    Forall (fun w => w <> EmptyString /\ word_shaped w) (findall_from cur (lower s)).
Proof.
  induction s as [| c s IH]; intros cur Hcur; cbn [lower findall_from].
  - destruct cur; cbn [flush]; [constructor | by constructor].
  - destruct (isword (lower_char c)) eqn:Hc.
    + apply IH. by apply word_shaped_snoc.
    + apply Forall_app. split; [|by apply IH].
      destruct cur; cbn [flush]; [constructor | by constructor].
Qed.

(** *** The score map, position by position *)

Lemma lookup_app (a b : list (nat * Z)) (k : nat) :
  Scores.lookup (a ++ b) k =
  match Scores.lookup a k with Some v => Some v | None => Scores.lookup b k end.
Proof.
  induction a as [| [j v] a IH]; cbn; [done|]. by destruct (Nat.eqb j k).
Qed.

Lemma entries_Scores_lookup (wf : gmap string Z) (sentences : list string) :
  forall i j,
    Scores.lookup (entries wf i sentences) j =
    if decide (j < i)%nat then None
    else s ← sentences !! (j - i)%nat;
         if any_hit wf (words_of s) then Some (word_total wf (words_of s)) else None.
Proof.
  induction sentences as [| s rest IH]; intros i j; cbn [entries].
  - cbn. by destruct (decide _).
  - rewrite lookup_app, IH. unfold entry_of.
    destruct (decide (j < i)%nat) as [Hlt | Hge].
    + rewrite decide_True by lia.
      destruct (any_hit wf (words_of s)); cbn; [|done].
      destruct (Nat.eqb_spec i j); [lia | done].
    + destruct (decide (j = i)) as [-> | Hne].
      * rewrite Nat.sub_diag. cbn [lookup list_lookup mbind option_bind].
        destruct (any_hit wf (words_of s)); cbn.
        -- by rewrite Nat.eqb_refl.
        -- by rewrite decide_True by lia.
      * rewrite decide_False by lia.
        replace (j - i)%nat with (S (j - S i)) by lia.
        cbn [lookup list_lookup].
        destruct (any_hit wf (words_of s)); cbn; [|done].
        destruct (Nat.eqb_spec i j); [lia | done].
Qed.

Lemma word_total_nonneg (wf : gmap string Z) (ws : list string) :
  (forall k v, wf !! k = Some v -> 0 < v) -> 0 <= word_total wf ws.
Proof.
  intros Hwf. induction ws as [| w ws IH]; cbn [word_total foldr]; [lia|].
  fold (word_total wf ws).
  destruct (wf !! w) as [v|] eqn:Hv; cbn [from_option id]; [|lia].
  specialize (Hwf w v Hv). lia.
Qed.

Lemma word_total_pos (wf : gmap string Z) (ws : list string) :
  (forall k v, wf !! k = Some v -> 0 < v) ->
  any_hit wf ws = true -> 0 < word_total wf ws.
Proof.
  intros Hwf. induction ws as [| w ws IH]; cbn [any_hit existsb]; [done|].
  cbn [word_total foldr]. fold (word_total wf ws). fold (any_hit wf ws).
  pose proof (word_total_nonneg wf ws Hwf).
  destruct (Counter.contains wf w) eqn:Hc; cbn [orb].
  - intros _. destruct (contains_lookup wf w Hc) as (f & Hf & _).
    rewrite Hf. cbn. specialize (Hwf w f Hf). lia.
  - intros Hh. specialize (IH Hh).
    rewrite (not_contains_lookup wf w Hc). cbn. lia.
Qed.

End WordFacts.

(** * Ratios outside (0, 1] *)

Module RatioFacts.
Import Builtins Summarizer FloatFacts.

Lemma is_nan_spec (r : float) : is_nan r = true -> Prim2SF r = S754_nan.
Proof.
  unfold is_nan. rewrite FloatAxioms.eqb_spec. unfold SFeqb.
  destruct (Prim2SF r) as [s | s | | s m e]; cbn [SFcompare negb]; try done.
  - by destruct s.
  - rewrite Z.compare_refl, Pos.compare_cont_refl. by destruct s.
Qed.

Lemma Prim2SF_infinity : Prim2SF infinity = S754_infinity false.
Proof. vm_compute. reflexivity. Qed.

Lemma is_infinity_spec (r : float) :
  is_infinity r = true -> exists s, Prim2SF r = S754_infinity s.
Proof.
  unfold is_infinity. rewrite FloatAxioms.eqb_spec, FloatAxioms.abs_spec, Prim2SF_infinity. unfold SFeqb.
  destruct (Prim2SF r) as [s | s | | s m e]; cbn [SFabs SFcompare]; try done.
  intros _. by exists s.
Qed.

Lemma eqb_zero_spec (r : float) :
  (r =? 0)%float = true -> exists s, Prim2SF r = S754_zero s.
Proof.
  rewrite FloatAxioms.eqb_spec, Prim2SF_zero. unfold SFeqb.
  destruct (Prim2SF r) as [s | s | | s m e]; cbn [SFcompare]; try done.
  - intros _. by exists s.
  - by destruct s.
  - by destruct s.
Qed.

(** A length converts to a zero or to a positive finite number. *)
Lemma float_of_len_cases (n : nat) :
  (Z.of_nat n mod 2 ^ 63 = 0 /\ Prim2SF (float_of_len n) = S754_zero false) \/
  (0 < Z.of_nat n mod 2 ^ 63 /\
   exists m e, Prim2SF (float_of_len n) = S754_finite false m e).
Proof.
  destruct (float_of_len_spec n) as [[Hz Hx] | (Hz & mn & en & Hx & _)];
    [by left | right; split; [done | by exists mn, en]].
Qed.

Lemma count_of_nan (n : nat) (r : float) :
  Prim2SF r = S754_nan -> summary_sentences_count n r = Raised ValueError.
Proof.
  intros Hr. unfold summary_sentences_count, int_of_float.
  rewrite mul_spec, Hr. unfold SF64mul, SFmul.
  by destruct (Prim2SF (float_of_len n)).
Qed.

Lemma count_of_infinity (n : nat) (r : float) (s : bool) :
  Prim2SF r = S754_infinity s -> 0 < Z.of_nat n mod 2 ^ 63 ->
  summary_sentences_count n r = Raised OverflowError.
Proof.
  intros Hr Hn. unfold summary_sentences_count, int_of_float.
  rewrite mul_spec, Hr.
  destruct (float_of_len_cases n) as [[Hz _] | (_ & m & e & ->)]; [lia | done].
Qed.

Lemma count_of_zero (n : nat) (r : float) (s : bool) :
  Prim2SF r = S754_zero s -> summary_sentences_count n r = Returned 1.
Proof.
  intros Hr. unfold summary_sentences_count, int_of_float.
  rewrite mul_spec, Hr.
  by destruct (float_of_len_cases n) as [[_ ->] | (_ & m & e & ->)].
Qed.

End RatioFacts.

(** * Lower-casing and stripping the input *)

Module CaseFacts.
Import PyStr Re Builtins Summarizer ScoreModel SentenceShape.
Import TextFacts FrequencyFacts ScoreFacts SelectFacts SummarizerFacts SentenceFacts WordFacts.

Lemma isspace_lower_char (c : ascii) : isspace (lower_char c) = isspace c.
Proof. destruct c as [[] [] [] [] [] [] [] []]; vm_compute; reflexivity. Qed.

Lemma isterminal_lower_char (c : ascii) : isterminal (lower_char c) = isterminal c.
Proof. destruct c as [[] [] [] [] [] [] [] []]; vm_compute; reflexivity. Qed.

Lemma lower_idem (s : string) : lower (lower s) = lower s.
Proof.
  induction s as [| c s IH]; [done|]. cbn [lower]. by rewrite lower_char_idem, IH.
Qed.

Lemma words_of_lower (s : string) : words_of (lower s) = words_of s.
Proof. unfold words_of. by rewrite lower_idem. Qed.

Lemma split_from_lower (s : string) :
  forall sk at_term cur,
    split_from sk at_term (lower cur) (lower s) = lower <$> split_from sk at_term cur s.
Proof.
  induction s as [| c s IH]; intros sk at_term cur; cbn [lower split_from]; [done|].
  rewrite isspace_lower_char, isterminal_lower_char.
  destruct sk.
  - destruct (isspace c); [apply (IH true false EmptyString)|].
    apply (IH false (isterminal c) (String c EmptyString)).
  - destruct (at_term && isspace c).
    + cbn [fmap list_fmap]. f_equal. apply (IH true false EmptyString).
    + rewrite <- IH. by rewrite lower_append.
Qed.

Lemma lstrip_lower (s : string) : lstrip (lower s) = lower (lstrip s).
Proof.
  induction s as [| c s IH]; [done|]. cbn [lower lstrip].
  rewrite isspace_lower_char. by destruct (isspace c).
Qed.

Lemma rstrip_lower (s : string) : rstrip (lower s) = lower (rstrip s).
Proof.
  induction s as [| c s IH]; [done|]. cbn [lower rstrip]. rewrite IH.
  destruct (rstrip s); cbn [lower]; [|done].
  rewrite isspace_lower_char. by destruct (isspace c).
Qed.

Lemma strip_lower (s : string) : strip (lower s) = lower (strip s).
Proof. unfold strip. by rewrite lstrip_lower, rstrip_lower. Qed.

Lemma sentences_of_lower (text : string) :
  sentences_of (lower text) = lower <$> sentences_of text.
Proof.
  unfold sentences_of. cbn [preprocess_text fst]. rewrite strip_lower.
  apply (split_from_lower _ false false EmptyString).
Qed.

Lemma frequencies_of_lower (text : string) :
  frequencies_of (lower text) = frequencies_of text.
Proof. unfold frequencies_of. cbn [preprocess_text snd]. by rewrite lower_idem. Qed.

Lemma entries_lower (wf : gmap string Z) (sentences : list string) :
  forall i, entries wf i (lower <$> sentences) = entries wf i sentences.
Proof.
  induction sentences as [| s rest IH]; intros i; cbn [fmap list_fmap entries]; [done|].
  fold (lower <$> rest). rewrite IH. unfold entry_of. by rewrite words_of_lower.
Qed.

Lemma scores_of_lower (text : string) : scores_of (lower text) = scores_of text.
Proof.
  rewrite !scores_of_entries, sentences_of_lower, frequencies_of_lower.
  apply entries_lower.
Qed.

Lemma join_lower (parts : list string) :
  lower (join " " parts) = join " " (lower <$> parts).
Proof.
  induction parts as [| p parts IH]; [done|].
  destruct parts as [| q parts]; [done|].
  change (join " " (p :: q :: parts)) with (p +:+ " " +:+ join " " (q :: parts)).
  rewrite !lower_append, IH. done.
Qed.

Lemma sentences_of_strip (text : string) :
  sentences_of (strip text) = sentences_of text.
Proof. unfold sentences_of. cbn [preprocess_text fst]. by rewrite strip_strip. Qed.

Lemma frequencies_of_strip (text : string) :
  frequencies_of (strip text) = frequencies_of text.
Proof.
  unfold frequencies_of. cbn [preprocess_text snd].
  change (findall_words (lower (strip text))) with (words_of (strip text)).
  by rewrite words_of_strip.
Qed.

End CaseFacts.

(** * Facts about the length of a summary and about summarizing it again *)

Module ResummaryFacts.
Import PyStr Re Builtins Summarizer ScoreModel SentenceShape.
Import TextFacts FrequencyFacts ScoreFacts SelectFacts FloatFacts SummarizerFacts.
Import SentenceFacts WordFacts CaseFacts.

Lemma length_append (a b : string) :
  String.length (a +:+ b) = (String.length a + String.length b)%nat.
Proof.
  induction a as [| c a IH]; [done|]. rewrite append_cons. cbn [String.length].
  by rewrite IH.
Qed.

Lemma length_join_cons (p : string) (ps : list string) :
  String.length (join " " (p :: ps)) =
  (String.length p +
   match ps with [] => 0 | _ => 1 + String.length (join " " ps) end)%nat.
Proof.
  destruct ps as [| q ps]; [cbn [join]; lia|].
  change (join " " (p :: q :: ps)) with (p +:+ " " +:+ join " " (q :: ps)).
  by rewrite !length_append.
Qed.

Lemma length_join_sublist (l1 l2 : list string) :
  l1 `sublist_of` l2 ->
  (String.length (join " " l1) <= String.length (join " " l2))%nat.
Proof.
  induction 1 as [| x l1 l2 Hsub IH | x l1 l2 Hsub IH]; [done | |].
  - rewrite !length_join_cons. destruct l1 as [| y l1].
    + lia.
    + destruct l2 as [| z l2]; [by apply sublist_nil_r in Hsub | lia].
  - rewrite length_join_cons. destruct l2 as [| z l2]; [|lia].
    apply sublist_nil_r in Hsub as ->. cbn. lia.
Qed.

(** The pieces of a split, joined by single spaces, are no longer than what
    was split: each separator holds at least one character. *)
Lemma length_join_split_from (s : string) :
  forall sk at_term cur,
    (String.length (join " " (split_from sk at_term cur s)) <=
     String.length cur + String.length s)%nat.
Proof.
  induction s as [| c s IH]; intros sk at_term cur; cbn [split_from String.length].
  - cbn [join]. lia.
  - destruct sk.
    + destruct (isspace c).
      * specialize (IH true false EmptyString). cbn in IH. lia.
      * specialize (IH false (isterminal c) (String c EmptyString)). cbn in IH. lia.
    + destruct (at_term && isspace c).
      * rewrite length_join_cons.
        destruct (split_from true false EmptyString s) eqn:E;
          [destruct (split_from_nonempty s true false EmptyString E)|].
        rewrite <- E. specialize (IH true false EmptyString). cbn in IH. lia.
      * specialize (IH false (isterminal c) (cur +:+ String c EmptyString)).
        rewrite length_append in IH. cbn in IH. lia.
Qed.

Lemma length_lstrip (s : string) : (String.length (lstrip s) <= String.length s)%nat.
Proof.
  induction s as [| c s IH]; [done|]. cbn [lstrip].
  destruct (isspace c); cbn [String.length]; lia.
Qed.

Lemma length_rstrip (s : string) : (String.length (rstrip s) <= String.length s)%nat.
Proof.
  induction s as [| c s IH]; [done|]. cbn [rstrip].
  destruct (rstrip s); [destruct (isspace c)|]; cbn [String.length] in *; lia.
Qed.

Lemma length_strip (s : string) : (String.length (strip s) <= String.length s)%nat.
Proof.
  unfold strip. pose proof (length_rstrip (lstrip s)). pose proof (length_lstrip s). lia.
Qed.

(** *** A text whose sentences all score *)

Lemma entries_all_keys (wf : gmap string Z) (sentences : list string) :
  Forall (fun s => any_hit wf (words_of s) = true) sentences ->
  forall i, (entries wf i sentences).*1 = seq i (length sentences).
Proof.
  induction 1 as [| s rest Hs _ IH]; intros i; cbn [entries length seq]; [done|].
  unfold entry_of. rewrite Hs. cbn. by rewrite IH.
Qed.

(** At ratio 1 a text whose sentences all hold a non-stop word is returned
    whole, its sentences joined by single spaces. *)
Lemma summarize_all_scored (text : string) :
  Forall (fun s => exists w, w ∈ words_of s /\ w ∉ STOP_WORDS) (sentences_of text) ->
  Z.of_nat (length (sentences_of text)) <= 2 ^ 53 ->
  summarize_text text 1 = Returned (join " " (sentences_of text)).
Proof.
  intros Hall Hn.
  assert (Hin : forall s w, s ∈ sentences_of text -> w ∈ words_of s ->
                            w ∈ snd (preprocess_text text)).
  { intros s w Hs Hw. cbn [preprocess_text snd]. rewrite <- words_of_sentences.
    apply elem_of_concat. exists (words_of s). split; [|done].
    apply list_elem_of_fmap. by exists s. }
  assert (Hhit : Forall (fun s => any_hit (frequencies_of text) (words_of s) = true)
                        (sentences_of text)).
  { apply Forall_forall. intros s Hs. rewrite Forall_forall in Hall.
    destruct (Hall s Hs) as (w & Hw & Hstop).
    apply any_hit_exists. exists w. split; [done|].
    apply calculate_word_frequencies_is_Some. split; [by eapply Hin | done]. }
  assert (Hne : sentences_of text <> []) by apply split_from_nonempty.
  assert (Hf : Counter.truthy (frequencies_of text) = true).
  { destruct (sentences_of text) as [| s rest] eqn:E; [done|].
    apply Forall_cons in Hhit as [Hs _].
    apply any_hit_exists in Hs as (w & _ & Hw).
    apply truthy_is_Some. by exists w. }
  assert (Hkeys : (scores_of text).*1 = seq 0 (length (sentences_of text))).
  { rewrite scores_of_entries. by apply entries_all_keys. }
  assert (Hc : summary_sentences_count (length (sentences_of text)) 1 =
               Returned (Z.max 1 (Z.of_nat (length (sentences_of text))))).
  { unfold summary_sentences_count. by rewrite int_of_len_times_one. }
  rewrite (summarize_text_count text 1 _ Hf Hc).
  rewrite (top_indices_all (scores_of text)).
  - by rewrite Hkeys, nth_seq_fmap.
  - apply scores_of_keys_sorted.
  - pose proof (f_equal length Hkeys) as Hl.
    rewrite length_fmap, length_seq in Hl. lia.
Qed.

End ResummaryFacts.

(** * Facts about the report *)

Module FormatFacts.
Import Cli FloatFacts TextFacts.

Lemma round_half_even_spec (n d : Z) :
  0 <= n -> 0 < d ->
  (2 * round_half_even n d - 1) * d <= 2 * n <= (2 * round_half_even n d + 1) * d.
Proof.
  intros Hn Hd. unfold round_half_even.
  pose proof (Z.div_mod n d ltac:(lia)) as Hdm.
  pose proof (Z.mod_pos_bound n d Hd) as Hr.
  set (q := n / d) in *. set (r := n mod d) in *. clearbody q r.
  destruct (Z.ltb_spec (2 * r) d); [nia|].
  destruct (Z.ltb_spec d (2 * r)); [nia|].
  destruct (Z.even q); nia.
Qed.

Lemma round_half_even_bounds (n d k : Z) :
  0 <= n <= k * d -> 0 < d -> 0 <= round_half_even n d <= k.
Proof.
  intros Hn Hd. unfold round_half_even.
  pose proof (Z.div_mod n d ltac:(lia)) as Hdm.
  pose proof (Z.mod_pos_bound n d Hd) as Hr.
  assert (Hq : 0 <= n / d) by (apply Z.div_pos; lia).
  set (q := n / d) in *. set (r := n mod d) in *. clearbody q r.
  assert (Hqk : q <= k) by nia.
  assert (Hk : q = k -> r = 0) by nia.
  destruct (Z.ltb_spec (2 * r) d); [lia|].
  assert (q < k) by (destruct (Z.eq_dec q k) as [Heq | ?]; [specialize (Hk Heq)|]; lia).
  destruct (Z.ltb_spec d (2 * r)); [lia|].
  destruct (Z.even q); lia.
Qed.

Lemma format_hundredths_length (h : Z) :
  0 <= h <= 100 ->
  String.length (str_of_int (h / 100) +:+ "." +:+ two_digits (h mod 100)) = 4%nat.
Proof.
  intros Hh.
  assert (Hall : forall k : nat, (k <= 100)%nat ->
            String.length (str_of_int (Z.of_nat k / 100) +:+ "." +:+
                           two_digits (Z.of_nat k mod 100)) = 4%nat).
  { intros k Hk. do 101 (destruct k as [| k]; [vm_compute; reflexivity|]). lia. }
  rewrite <- (Z2Nat.id h) by lia. apply Hall. lia.
Qed.

End FormatFacts.

(** * Facts about the loops of the matrix script *)

Module MatMulMore.
Import MatMul MatMulLoops MatMulFacts.

Lemma for_range_ext {St} (body1 body2 : nat -> St -> outcome St) (n : nat) :
  forall start s,
    (forall i s', (start <= i < start + n)%nat -> body1 i s' = body2 i s') ->
    for_range n start body1 s = for_range n start body2 s.
Proof.
  induction n as [| n IH]; intros start s Hb; cbn [for_range]; [done|].
  rewrite (Hb start s) by lia. destruct (body2 start s) as [s' | e]; cbn; [|done].
  apply IH. intros i s'' Hi. apply Hb. lia.
Qed.

Lemma getitem_take {A} (l : list A) (m k : nat) :
  (k < m)%nat -> getitem (take m l) k = getitem l k.
Proof. intros Hk. unfold getitem. by rewrite lookup_take_lt. Qed.

Lemma body_k_take (A B : list (list Z)) (m i j k : nat) (R : list (list Z)) :
  (k < m)%nat -> body_k (take m <$> A) B i j k R = body_k A B i j k R.
Proof.
  intros Hk.
  assert (Hrow : getitem (take m <$> A) i = (row ← getitem A i; Returned (take m row))).
  { unfold getitem. rewrite list_lookup_fmap. by destruct (A !! i). }
  unfold body_k. rewrite Hrow.
  destruct (getitem A i) as [row | e]; cbn [mbind outcome_bind]; [|done].
  by rewrite getitem_take.
Qed.

Lemma body_j_take (A B : list (list Z)) (i j : nat) (R : list (list Z)) :
  body_j (take (length B) <$> A) B i j R = body_j A B i j R.
Proof.
  unfold body_j. apply for_range_ext. intros k R' Hk. apply body_k_take. lia.
Qed.

Lemma body_i_take (A B : list (list Z)) (i : nat) (R : list (list Z)) :
  body_i (take (length B) <$> A) B i R = body_i A B i R.
Proof.
  unfold body_i. destruct (getitem B 0) as [y0 | e]; cbn [mbind outcome_bind]; [|done].
  apply for_range_ext. intros j R' _. apply body_j_take.
Qed.

Lemma multiply_loops (A B R : list (list Z)) :
  multiply A B R = for_range (length A) 0 (body_i A B) R.
Proof. reflexivity. Qed.

Lemma shaped_take (A : list (list Z)) (n m : nat) :
  length A = n -> Forall (fun row => (m <= length row)%nat) A ->
  shaped (take m <$> A) n m.
Proof.
  intros Hn Hw. split; [by rewrite length_fmap|].
  apply Forall_fmap. eapply Forall_impl; [exact Hw|].
  intros row Hrow. cbn in Hrow |- *. rewrite length_take. lia.
Qed.

Lemma dot_take (A B : list (list Z)) (m i j : nat) :
  forall k, (k <= m)%nat -> dot (take m <$> A) B i j k = dot A B i j k.
Proof.
  induction k as [| k IH]; intros Hk; cbn [dot]; [done|].
  rewrite IH by lia. destruct (dot A B i j k) as [acc|]; cbn; [|done].
  assert (He : entry (take m <$> A) i k = entry A i k).
  { unfold entry. rewrite list_lookup_fmap. destruct (A !! i) as [row|]; cbn; [|done].
    apply lookup_take_lt. lia. }
  by rewrite He.
Qed.

End MatMulMore.

(** * The loops on row objects and on values, in step *)

Module MatMulHeapFacts.
Import MatMul MatMulLoops MatMulFacts MatMulMore MatMulHeap.

Lemma getitem_view (h : heap) (M : list nat) (i : nat) :
  getitem (view h M) i = (a ← getitem M i; Returned (h a)).
Proof.
  unfold getitem, view. rewrite list_lookup_fmap. by destruct (M !! i).
Qed.

Lemma getitem_IndexError {A} (l : list A) (i : nat) (e : exn) :
  getitem l i = Raised e -> e = IndexError.
Proof. unfold getitem. destruct (l !! i); intros H; congruence. Qed.

Lemma view_unchanged (h h0 : heap) (M result : list nat) :
  (forall a, a ∉ result -> h a = h0 a) -> (forall a, a ∈ result -> a ∉ M) ->
  view h M = view h0 M.
Proof.
  intros Hh Hd. unfold view. apply list_fmap_ext. intros i a Ha. apply Hh.
  intros Hin. apply (Hd a Hin). by eapply list_elem_of_lookup_2.
Qed.

Lemma view_store (h : heap) (result : list nat) (i j : nat) (r : nat) (v : Z) :
  NoDup result -> result !! i = Some r ->
  view (store h r j v) result = <[i := <[j := v]> (h r)]> (view h result).
Proof.
  intros Hnd Hr. unfold view. apply list_eq. intros i'.
  rewrite list_lookup_fmap.
  destruct (decide (i' = i)) as [-> | Hne].
  - rewrite list_lookup_insert_eq by (rewrite length_fmap; by eapply lookup_lt_Some).
    rewrite Hr. cbn. unfold store. by rewrite Nat.eqb_refl.
  - rewrite list_lookup_insert_ne by done. rewrite list_lookup_fmap.
    destruct (result !! i') as [a|] eqn:Ha; cbn; [|done]. f_equal.
    unfold store. destruct (Nat.eqb_spec a r) as [-> | _]; [|done].
    destruct Hne. by apply (NoDup_lookup result i' i r).
Qed.

Section InStep.
Context (X Y result : list nat) (h0 : heap).
Hypothesis Hsep : separate X Y result.

Lemma in_step_X (h : heap) (R : list (list Z)) :
  in_step h0 result h R -> view h X = view h0 X.
Proof.
  intros [_ Hh]. apply (view_unchanged h h0 X result Hh).
  intros a Ha. by apply (proj2 Hsep).
Qed.

Lemma in_step_Y (h : heap) (R : list (list Z)) :
  in_step h0 result h R -> view h Y = view h0 Y.
Proof.
  intros [_ Hh]. apply (view_unchanged h h0 Y result Hh).
  intros a Ha. by apply (proj2 Hsep).
Qed.

(** One update in step. *)
Lemma body_k_in_step (i j k : nat) (h : heap) (R : list (list Z)) :
  in_step h0 result h R ->
  outcomes_in_step h0 result
    (MatMulHeap.body_k X Y result i j k h)
    (MatMulLoops.body_k (view h0 X) (view h0 Y) i j k R).
Proof.
  intros Hst. pose proof (in_step_X h R Hst) as HX.
  pose proof (in_step_Y h R Hst) as HY. destruct Hst as [HR Hh].
  unfold MatMulLoops.body_k, MatMulHeap.body_k, iadd_entry.
  rewrite <- HX, <- HY, <- HR, !getitem_view.
  destruct (getitem X i) as [xi | e1] eqn:E1; cbn [mbind outcome_bind].
  2:{ apply getitem_IndexError in E1 as ->.
      destruct (getitem result i) as [r | e] eqn:Er; cbn; [|by apply getitem_IndexError in Er as ->].
      by destruct (getitem (h r) j) as [old | e] eqn:Eo; cbn;
        [|apply getitem_IndexError in Eo as ->]. }
  destruct (getitem (h xi) k) as [xik | e2] eqn:E2; cbn [mbind outcome_bind].
  2:{ apply getitem_IndexError in E2 as ->.
      destruct (getitem result i) as [r | e] eqn:Er; cbn; [|by apply getitem_IndexError in Er as ->].
      by destruct (getitem (h r) j) as [old | e] eqn:Eo; cbn;
        [|apply getitem_IndexError in Eo as ->]. }
  destruct (getitem Y k) as [yk | e3] eqn:E3; cbn [mbind outcome_bind].
  2:{ apply getitem_IndexError in E3 as ->.
      destruct (getitem result i) as [r | e] eqn:Er; cbn; [|by apply getitem_IndexError in Er as ->].
      by destruct (getitem (h r) j) as [old | e] eqn:Eo; cbn;
        [|apply getitem_IndexError in Eo as ->]. }
  destruct (getitem (h yk) j) as [ykj | e4] eqn:E4; cbn [mbind outcome_bind].
  2:{ apply getitem_IndexError in E4 as ->.
      destruct (getitem result i) as [r | e] eqn:Er; cbn; [|by apply getitem_IndexError in Er as ->].
      by destruct (getitem (h r) j) as [old | e] eqn:Eo; cbn;
        [|apply getitem_IndexError in Eo as ->]. }
  destruct (getitem result i) as [r | e] eqn:Er; cbn [mbind outcome_bind];
    [|by apply getitem_IndexError in Er as ->].
  destruct (getitem (h r) j) as [old | e] eqn:Eo; cbn [mbind outcome_bind];
    [|by apply getitem_IndexError in Eo as ->].
  cbn [outcomes_in_step]. eexists. split; [reflexivity|].
  assert (Hr : result !! i = Some r).
  { unfold getitem in Er. by destruct (result !! i) as [r'|]; [injection Er as -> |]. }
  split.
  - by apply view_store; [apply Hsep|].
  - intros a Ha. unfold store. destruct (Nat.eqb_spec a r) as [-> | _]; [|by apply Hh].
    destruct Ha. by eapply list_elem_of_lookup_2.
Qed.

(** Loops in step. *)
Lemma for_range_in_step (body : nat -> heap -> outcome heap)
    (Body : nat -> list (list Z) -> outcome (list (list Z))) (n : nat) :
  (forall i h R, in_step h0 result h R ->
     outcomes_in_step h0 result (body i h) (Body i R)) ->
  forall start h R, in_step h0 result h R ->
    outcomes_in_step h0 result (for_range n start body h) (for_range n start Body R).
Proof.
  intros Hb. induction n as [| n IH]; intros start h R Hst; cbn [for_range].
  - exists h. by split.
  - specialize (Hb start h R Hst).
    destruct (Body start R) as [R' | e]; cbn [outcomes_in_step] in Hb.
    + destruct Hb as (h' & -> & Hst'). cbn [mbind outcome_bind]. by apply IH.
    + by rewrite Hb.
Qed.

Lemma body_j_in_step (i j : nat) (h : heap) (R : list (list Z)) :
  in_step h0 result h R ->
  outcomes_in_step h0 result
    (MatMulHeap.body_j X Y result i j h)
    (MatMulLoops.body_j (view h0 X) (view h0 Y) i j R).
Proof.
  intros Hst. unfold MatMulHeap.body_j, MatMulLoops.body_j.
  replace (length (view h0 Y)) with (length Y) by (unfold view; by rewrite length_fmap).
  apply for_range_in_step; [|done]. intros k h' R'. apply body_k_in_step.
Qed.

Lemma body_i_in_step (i : nat) (h : heap) (R : list (list Z)) :
  in_step h0 result h R ->
  outcomes_in_step h0 result
    (MatMulHeap.body_i X Y result i h)
    (MatMulLoops.body_i (view h0 X) (view h0 Y) i R).
Proof.
  intros Hst. pose proof (in_step_Y h R Hst) as HY.
  unfold MatMulHeap.body_i, MatMulLoops.body_i.
  rewrite <- HY at 1. rewrite getitem_view.
  destruct (getitem Y 0) as [y0 | e]; cbn [mbind outcome_bind]; [|done].
  apply for_range_in_step; [|done]. intros j h' R'. apply body_j_in_step.
Qed.

Lemma multiply_in_step (h : heap) (R : list (list Z)) :
  in_step h0 result h R ->
  outcomes_in_step h0 result
    (MatMulHeap.multiply X Y result h)
    (MatMul.multiply (view h0 X) (view h0 Y) R).
Proof.
  intros Hst. rewrite multiply_loops. unfold MatMulHeap.multiply.
  replace (length (view h0 X)) with (length X) by (unfold view; by rewrite length_fmap).
  apply for_range_in_step; [|done]. intros i h' R'. apply body_i_in_step.
Qed.

End InStep.

End MatMulHeapFacts.

(** * Facts about the command line *)

Module CliFacts.
Import PyStr Re Builtins Summarizer WordModel Cli CliSteps.
Import TextFacts FrequencyFacts SelectFacts FloatFacts SummarizerFacts.
Import SentenceFacts SummaryFacts.

Lemma printed_nil {A} (r : run A) : printed [] r = r.
Proof. by destruct r. Qed.

Lemma default_ratio_unit : (0 <? 0.2)%float = true /\ (0.2 <=? 1)%float = true.
Proof. split; vm_compute; reflexivity. Qed.

(** The three ways through [summarize_text]. *)
Lemma summarize_text_cases (text : string) (ratio : float) :
  (text = EmptyString /\ summarize_text text ratio = Returned EMPTY_INPUT_MESSAGE) \/
  (text <> EmptyString /\ Counter.truthy (frequencies_of text) = false /\
   summarize_text text ratio = Returned NO_FREQUENCIES_MESSAGE) \/
  (Counter.truthy (frequencies_of text) = true /\
   exists count idx,
     summary_sentences_count (length (sentences_of text)) ratio = count /\
     selected_indices text ratio = idx /\
     match count with
     | Returned c =>
         1 <= c /\ idx = Returned (top_indices (scores_of text) c) /\
         summarize_text text ratio =
         Returned (join " " ((fun i => nth i (sentences_of text) EmptyString) <$>
                               top_indices (scores_of text) c))
     | Raised e => idx = Raised e /\ summarize_text text ratio = Raised e
     end).
Proof.
  destruct text as [| c text]; [by left | right].
  destruct (Counter.truthy (frequencies_of (String c text))) eqn:Hf; [right | left].
  - split; [done|]. eexists _, _. split; [done|]. split; [done|].
    destruct (summary_sentences_count _ ratio) as [cnt | e] eqn:Hc.
    + split; [by eapply summary_sentences_count_ge_1|].
      split; [by apply selected_indices_count | by apply summarize_text_count].
    + split; [|by apply summarize_text_raised].
      rewrite selected_indices_unfold. by rewrite Hc.
  - split; [done|]. split; [done|].
    unfold summarize_text. cbn [truthy negb preprocess_text].
    unfold frequencies_of in Hf. cbn [preprocess_text snd] in Hf. by rewrite Hf.
Qed.

(** With a ratio in (0, 1], [summarize_text] returns. *)
Lemma summarize_text_returns (text : string) (ratio : float) :
  (0 <? ratio)%float = true -> (ratio <=? 1)%float = true ->
  exists summary, summarize_text text ratio = Returned summary.
Proof.
  intros H0 H1.
  destruct (summarize_text_cases text ratio)
    as [[_ H] | [(_ & _ & H) | (_ & count & idx & Hc & _ & H)]]; [by eexists .. |].
  destruct (summary_sentences_count_unit (length (sentences_of text)) ratio H0 H1)
    as (c & Hc' & _). rewrite Hc' in Hc. subst count.
  destruct H as (_ & _ & H). by eexists.
Qed.

(** *** ASCII text *)

Lemma all_chars_append (p : ascii -> bool) (a b : string) :
  all_chars p (a +:+ b) = all_chars p a && all_chars p b.
Proof.
  induction a as [| c a IH]; [done|]. rewrite append_cons. cbn [all_chars].
  by rewrite IH, andb_assoc.
Qed.

Lemma ascii_only_append (a b : string) :
  ascii_only (a +:+ b) = ascii_only a && ascii_only b.
Proof. apply all_chars_append. Qed.

Lemma ascii_only_str_mul (s : string) (n : nat) :
  ascii_only s = true -> ascii_only (str_mul s n) = true.
Proof.
  intros Hs. induction n as [| n IH]; [done|]. cbn [str_mul].
  by rewrite ascii_only_append, Hs, IH.
Qed.

Lemma ascii_only_digits (d : Decimal.uint) :
  ascii_only (NilEmpty.string_of_uint d) = true.
Proof. induction d; cbn [NilEmpty.string_of_uint]; done. Qed.

Lemma ascii_only_str_of_int (n : Z) : ascii_only (str_of_int n) = true.
Proof.
  unfold str_of_int, NilZero.string_of_uint.
  destruct (N.to_uint (Z.to_N n)) eqn:E; [done | apply ascii_only_digits ..].
Qed.

Lemma ascii_only_two_digits (n : Z) : ascii_only (two_digits n) = true.
Proof.
  unfold two_digits. destruct (n <? 10); [|apply ascii_only_str_of_int].
  by rewrite ascii_only_append, ascii_only_str_of_int.
Qed.

Lemma ascii_only_format_2f (x : float) : ascii_only (format_2f x) = true.
Proof.
  unfold format_2f. destruct (Prim2SF x) as [s | s | | s m e].
  - by destruct s.
  - by destruct s.
  - done.
  - rewrite !ascii_only_append, ascii_only_str_of_int, ascii_only_two_digits.
    by destruct s.
Qed.

Lemma ascii_only_summary_count_str (summary : string) :
  ascii_only (summary_count_str summary) = true.
Proof.
  unfold summary_count_str. destruct (_ && _); [apply ascii_only_str_of_int | done].
Qed.

Section Main.
Context (float_of_str : string -> option float) (open_read : string -> file_result)
        (stdout_encodes : ascii -> bool).

Lemma printable_ascii (s : string) :
  ascii_only s = true -> printable stdout_encodes s = true.
Proof.
  unfold ascii_only, printable. induction s as [| c s IH]; [done|]. cbn [all_chars].
  intros [Hc Hs]%andb_prop. by rewrite Hc, IH.
Qed.

Lemma print_ascii (s : string) :
  ascii_only s = true -> print stdout_encodes s = Done [s] tt.
Proof. intros Hs. unfold print. by rewrite printable_ascii. Qed.


Lemma print_lines_all (lines : list string) :
  Forall (fun s => printable stdout_encodes s = true) lines ->
  print_lines stdout_encodes lines = Done lines tt.
Proof.
  induction 1 as [| s rest Hs _ IH]; [done|]. cbn [print_lines].
  unfold print. rewrite Hs. cbn [mbind run_bind]. by rewrite IH.
Qed.

Lemma print_lines_stops (before : list string) (s : string) (rest : list string) :
  Forall (fun s => printable stdout_encodes s = true) before ->
  printable stdout_encodes s = false ->
  print_lines stdout_encodes (before ++ s :: rest) = Uncaught before UnicodeEncodeError.
Proof.
  intros Hb Hs. induction Hb as [| x before Hx _ IH]; cbn [app print_lines].
  - unfold print. by rewrite Hs.
  - unfold print at 1. rewrite Hx. cbn [mbind run_bind]. by rewrite IH.
Qed.

(** The lines of the report around the summary are ASCII. *)
Lemma report_split (text : string) (ratio : float) (summary : string) :
  exists before after,
    report text ratio summary = (before ++ summary :: after)%list /\
    length before = 7%nat /\ length after = 1%nat /\
    Forall (fun s => printable stdout_encodes s = true) before /\
    Forall (fun s => printable stdout_encodes s = true) after.
Proof.
  eexists [_; _; _; _; _; _; _], [_]. split; [reflexivity|].
  split; [done|]. split; [done|].
  assert (Hbar : forall s n, ascii_only s = true ->
                   printable stdout_encodes (str_mul s n) = true).
  { intros s n Hs. by apply printable_ascii, ascii_only_str_mul. }
  split; repeat constructor; try (by apply Hbar); apply printable_ascii;
    rewrite ?ascii_only_append, ?ascii_only_format_2f, ?ascii_only_str_of_int,
      ?ascii_only_summary_count_str, ?ascii_only_str_mul; done.
Qed.

Lemma print_report (text : string) (ratio : float) (summary : string) :
  print_lines stdout_encodes (report text ratio summary) =
  if printable stdout_encodes summary then Done (report text ratio summary) tt
  else Uncaught (take 7 (report text ratio summary)) UnicodeEncodeError.
Proof.
  destruct (report_split text ratio summary)
    as (before & after & Heq & Hlb & Hla & Hb & Ha).
  destruct (printable stdout_encodes summary) eqn:Hs.
  - apply print_lines_all. rewrite Heq. apply Forall_app. split; [done|].
    by constructor.
  - rewrite Heq, print_lines_stops by done. f_equal.
    rewrite take_app_length' by done. done.
Qed.

Lemma summarize_and_report_spec (text : string) (ratio : float) (summary : string) :
  summarize_text text ratio = Returned summary ->
  summarize_and_report stdout_encodes text ratio =
  if printable stdout_encodes summary then Done (report text ratio summary) tt
  else Uncaught (take 7 (report text ratio summary)) UnicodeEncodeError.
Proof.
  intros Hs. unfold summarize_and_report. rewrite Hs. cbn [call mbind run_bind].
  by rewrite printed_nil, print_report.
Qed.

(** *** The checks of the command line *)

Lemma check_args_wrong_count (argv : list string) :
  length argv <> 2%nat -> length argv <> 3%nat ->
  check_args float_of_str stdout_encodes argv = Exit [USAGE] 1.
Proof.
  intros H2 H3. unfold check_args.
  assert (Hb : (length argv <? 2)%nat || (3 <? length argv)%nat = true).
  { apply orb_true_iff. rewrite !Nat.ltb_lt. lia. }
  rewrite Hb. by rewrite print_ascii.
Qed.

Lemma check_args_two (prog filepath : string) :
  check_args float_of_str stdout_encodes [prog; filepath] = Done [] (filepath, 0.2%float).
Proof. reflexivity. Qed.

Lemma check_args_three (prog filepath arg : string) :
  check_args float_of_str stdout_encodes [prog; filepath; arg] =
  match float_of_str arg with
  | Some ratio =>
      if (0 <? ratio)%float && (ratio <=? 1)%float
      then Done [] (filepath, ratio)
      else Exit [RATIO_RANGE_MESSAGE] 1
  | None => Exit [RATIO_NUMBER_MESSAGE] 1
  end.
Proof.
  unfold check_args, parse_ratio, float_call.
  cbn [length Nat.ltb Nat.leb Nat.eqb orb getitem lookup list_lookup call
       mbind run_bind printed app].
  destruct (float_of_str arg) as [ratio|].
  - cbn [mbind run_bind printed app].
    destruct ((0 <? ratio)%float && (ratio <=? 1)%float); cbn [negb].
    + reflexivity.
    + by rewrite print_ascii.
  - cbn [try_except_ValueError is_ValueError].
    by rewrite print_ascii.
Qed.

Lemma main_unfold (argv : list string) :
  main float_of_str open_read stdout_encodes argv =
  (checked ← check_args float_of_str stdout_encodes argv;
   read_and_report open_read stdout_encodes checked.1 checked.2).
Proof. reflexivity. Qed.

Lemma main_wrong_count (argv : list string) :
  length argv <> 2%nat -> length argv <> 3%nat ->
  main float_of_str open_read stdout_encodes argv = Exit [USAGE] 1.
Proof. intros H2 H3. by rewrite main_unfold, check_args_wrong_count. Qed.

Lemma main_two (prog filepath : string) :
  main float_of_str open_read stdout_encodes [prog; filepath] =
  read_and_report open_read stdout_encodes filepath 0.2.
Proof.
  rewrite main_unfold, check_args_two. cbn [mbind run_bind fst snd].
  apply printed_nil.
Qed.

Lemma main_three (prog filepath arg : string) :
  main float_of_str open_read stdout_encodes [prog; filepath; arg] =
  match float_of_str arg with
  | Some ratio =>
      if (0 <? ratio)%float && (ratio <=? 1)%float
      then read_and_report open_read stdout_encodes filepath ratio
      else Exit [RATIO_RANGE_MESSAGE] 1
  | None => Exit [RATIO_NUMBER_MESSAGE] 1
  end.
Proof.
  rewrite main_unfold, check_args_three.
  destruct (float_of_str arg) as [ratio|]; [|done].
  destruct ((0 <? ratio)%float && (ratio <=? 1)%float); [|done].
  cbn [mbind run_bind fst snd]. apply printed_nil.
Qed.

Lemma accepted_unit (argv : list string) (filepath : string) (ratio : float) :
  accepted float_of_str argv filepath ratio ->
  (0 <? ratio)%float = true /\ (ratio <=? 1)%float = true.
Proof. intros [prog fp | prog fp arg r _ H0 H1]; [apply default_ratio_unit | done]. Qed.

Lemma check_args_accepted (argv : list string) (filepath : string) (ratio : float) :
  accepted float_of_str argv filepath ratio ->
  check_args float_of_str stdout_encodes argv = Done [] (filepath, ratio).
Proof.
  intros [prog fp | prog fp arg r Hf H0 H1]; [apply check_args_two|].
  by rewrite check_args_three, Hf, H0, H1.
Qed.

Lemma main_accepted (argv : list string) (filepath : string) (ratio : float) :
  accepted float_of_str argv filepath ratio ->
  main float_of_str open_read stdout_encodes argv =
  read_and_report open_read stdout_encodes filepath ratio.
Proof.
  intros Hacc. rewrite main_unfold, (check_args_accepted _ _ _ Hacc).
  cbn [mbind run_bind fst snd]. apply printed_nil.
Qed.



End Main.

End CliFacts.

(** * Sentences: what the tokenizer returns, and what splitting a summary
    gives back *)

Module SentenceSpec.
Import PyStr Re Builtins Summarizer SentenceShape SelectionModel.
Import TextFacts FrequencyFacts SelectFacts SummarizerFacts SentenceFacts SummaryFacts.





(** X1. The sentences of a text that is not blank: each is non-empty, has no
    whitespace at either end and holds no sentence break (whitespace right
    after [.], [!] or [?]); every one but the last ends with [.], [!] or
    [?]. A blank text has the empty string as its only sentence. *)
Theorem sentences_well_formed (text : string) :
  (strip text <> EmptyString ->
   Forall (fun s => s <> EmptyString /\ starts_space s = false /\
                    ends_space s = false /\ has_split false s = false)
          (fst (preprocess_text text)) /\
   all_but_last (fun s => ends_terminal false s = true) (fst (preprocess_text text))) /\
  (strip text = EmptyString -> fst (preprocess_text text) = [EmptyString]).
Proof.
  split.
  - apply sentences_of_shape.
  - intros H. cbn [preprocess_text fst]. by rewrite H.
Qed.

(** X2. Splitting a returned summary into sentences, as the report of
    [main] does to count them, gives back exactly the selected sentences:
    the summary has as many sentences as positions were selected. *)
Theorem summary_splits_into_selected (text : string) (ratio : float) (summary : string) :
  (exists w, w ∈ snd (preprocess_text text) /\ w ∉ STOP_WORDS) ->
  summarize_text text ratio = Returned summary ->
  exists idx,
    selected_indices text ratio = Returned idx /\
    split_sentences (strip summary) =
      (fun i => nth i (fst (preprocess_text text)) EmptyString) <$> idx /\
    length (split_sentences (strip summary)) = length idx.
Proof.
  intros Hw Hs.
  assert (Hf : Counter.truthy (frequencies_of text) = true).
  { apply truthy_is_Some. destruct Hw as (w & Hw). exists w.
    by apply calculate_word_frequencies_is_Some. }
  destruct (summarize_text_inv text ratio summary Hf Hs) as (count & Hc & Hge & ->).
  exists (top_indices (scores_of text) count).
  split; [by apply selected_indices_count|].
  pose proof (resplit_picked text count Hf Hge) as Heq. unfold picked in Heq.
  split; [exact Heq|]. fold (sentences_of text). by rewrite Heq, length_fmap.
Qed.

Lemma summary_splits_into_selected_witness :
  exists idx,
    selected_indices pets 0.67 = Returned idx /\
    split_sentences (strip "Dogs bark loudly. Cats and dogs are pets.") =
      (fun i => nth i (fst (preprocess_text pets)) EmptyString) <$> idx /\
    length (split_sentences (strip "Dogs bark loudly. Cats and dogs are pets.")) = length idx.
Proof.
  apply (summary_splits_into_selected pets 0.67).
  - exists "cat"%string. split.
    + apply list_elem_of_In. vm_compute. tauto.
    + apply (bool_decide_eq_false_1 _). vm_compute. reflexivity.
  - vm_compute. reflexivity.
Defined.

End SentenceSpec.

(** * Words, counts and scores *)

Module WordSpec.
Import PyStr Re Summarizer WordModel ScoreModel.
Import TextFacts FrequencyFacts ScoreFacts SummarizerFacts WordFacts.

(** X3. The frequency map counts exactly: a word that is no stop word and
    occurs in the list is mapped to its number of occurrences, and nothing
    else is a key. *)
Theorem word_counts_exact (words : list string) (w : string) :
  calculate_word_frequencies words !! w =
  if decide (w ∈ STOP_WORDS \/ w ∉ words) then None
  else Some (occurrences w words).
Proof.
  unfold calculate_word_frequencies. rewrite fold_count_word_lookup.
  rewrite lookup_empty. by destruct (decide _).
Qed.

(** X4. The words counted over the whole text are, in order, the words of
    the tokenized sentences: no sentence break cuts a word, and stripping
    loses none. *)
Theorem words_are_sentence_words (text : string) :
  snd (preprocess_text text) =
  concat ((fun s => findall_words (lower s)) <$> fst (preprocess_text text)).
Proof. symmetry. apply words_of_sentences. Qed.

(** X5. Every word returned by [preprocess_text] is a non-empty run of word
    characters that lower-casing leaves unchanged. *)
Theorem words_are_lower_case_runs (text : string) (w : string) :
  w ∈ snd (preprocess_text text) ->
  w <> EmptyString /\ all_chars isword w = true /\ lower w = w.
Proof.
  intros Hw. cbn [preprocess_text snd] in Hw.
  pose proof (findall_from_lower_shape text EmptyString (conj eq_refl eq_refl)) as HF.
  rewrite Forall_forall in HF. destruct (HF w Hw) as (H1 & H2 & H3). done.
Qed.

Lemma words_are_lower_case_runs_witness :
  "dogs"%string <> EmptyString /\ all_chars isword "dogs" = true /\
  lower "dogs" = "dogs"%string.
Proof.
  apply (words_are_lower_case_runs pets "dogs").
  apply list_elem_of_In. vm_compute. tauto.
Defined.

(** X6. The score of a sentence is the sum, over its word tokens, of the
    frequencies of those that are keys of the frequency map; a sentence
    has a score exactly when one of its tokens is a key. *)
Theorem score_is_sum_of_frequencies (sentences : list string)
    (word_frequencies : gmap string Z) (i : nat) :
  Scores.lookup (score_sentences sentences word_frequencies) i =
  s ← sentences !! i;
  if existsb (Counter.contains word_frequencies) (findall_words (lower s))
  then Some (foldr (fun w acc => default 0 (word_frequencies !! w) + acc) 0
               (findall_words (lower s)))
  else None.
Proof.
  rewrite score_sentences_entries, entries_Scores_lookup.
  rewrite decide_False by lia. by rewrite Nat.sub_0_r.
Qed.

(** X7. The score map lists sentence positions in increasing order, so
    none twice, and each is the position of a sentence: the order of
    insertion, which [nlargest] breaks ties by, is the order of the text. *)
Theorem score_positions_increase (sentences : list string)
    (word_frequencies : gmap string Z) :
  StronglySorted lt (score_sentences sentences word_frequencies).*1 /\
  Forall (fun i => (i < length sentences)%nat)
         (score_sentences sentences word_frequencies).*1.
Proof.
  rewrite score_sentences_entries.
  pose proof (entries_keys_sublist word_frequencies sentences 0) as Hsub.
  split; [by eapply SelectFacts.sublist_seq_sorted|].
  apply Forall_forall. intros i Hi.
  pose proof (elem_of_sublist _ _ _ Hi Hsub) as Hin.
  apply elem_of_seq in Hin. lia.
Qed.

(** X8. With the frequency map of the text itself, every score is
    positive. *)
Theorem scores_positive (text : string) (i : nat) (v : Z) :
  Scores.lookup (scores_of text) i = Some v -> 0 < v.
Proof.
  unfold scores_of. rewrite score_sentences_entries, entries_Scores_lookup.
  rewrite decide_False by lia.
  destruct (sentences_of text !! _) as [s|]; [|done]. cbn.
  destruct (any_hit _ _) eqn:Hh; [|done]. intros [= <-].
  apply word_total_pos; [|done].
  intros k x Hk. eapply (fold_count_word_invariant _ ∅); [|exact Hk].
  intros k' x' H. by rewrite lookup_empty in H.
Qed.

Lemma scores_positive_witness : 0 < 4.
Proof. apply (scores_positive pets 1 4). vm_compute. reflexivity. Defined.

End WordSpec.

(** * Selection, ratios and invariance of the summary *)

Module SelectionSpec.
Import PyStr Re Builtins Summarizer ScoreModel SelectionOrder SentenceShape.
Import TextFacts FrequencyFacts ScoreFacts SelectFacts SummarizerFacts.
Import SentenceFacts SummaryFacts WordFacts RatioFacts CaseFacts.




(** X9. No sentence left out of the summary scores higher than a selected
    one. *)
Theorem selected_scores_dominate (text : string) (ratio : float)
    (idx : list nat) (i j : nat) (vi vj : Z) :
  selected_indices text ratio = Returned idx ->
  i ∈ idx -> j ∉ idx ->
  Scores.lookup (scores_of text) i = Some vi ->
  Scores.lookup (scores_of text) j = Some vj ->
  vj <= vi.
Proof.
  intros Hsel Hi Hj Hvi Hvj.
  destruct (selected_indices_inv text ratio idx Hsel) as (count & _ & _ & ->).
  destruct (Z_le_gt_dec vj vi) as [Hle | Hgt]; [done|].
  destruct Hj.
  apply (top_indices_closed (scores_of text) count i j vi vj);
    [apply scores_of_keys_sorted | by apply lookup_elem_of ..| exact Hi |].
  left. cbn. lia.
Qed.

Lemma selected_scores_dominate_witness : 2 <= 4.
Proof.
  apply (selected_scores_dominate pets 0.34%float [1%nat] 1%nat 0%nat 4 2).
  - vm_compute. reflexivity.
  - apply list_elem_of_In. vm_compute. tauto.
  - intros H. apply list_elem_of_In in H. vm_compute in H. destruct H as [H | []].
    discriminate H.
  - vm_compute. reflexivity.
  - vm_compute. reflexivity.
Defined.

(** X10. The number of sentences selected is the smaller of the desired
    count and the number of scored sentences; every selected position is
    the position of a scored sentence. *)
Theorem selected_count_is_min (text : string) (ratio : float) (idx : list nat) :
  selected_indices text ratio = Returned idx ->
  exists count,
    summary_sentences_count (length (fst (preprocess_text text))) ratio = Returned count /\
    Z.of_nat (length idx) = Z.min count (Z.of_nat (length (scores_of text))) /\
    forall i, i ∈ idx -> is_Some (Scores.lookup (scores_of text) i).
Proof.
  intros Hsel.
  destruct (selected_indices_inv text ratio idx Hsel) as (count & Hc & Hge & ->).
  exists count. split; [exact Hc|]. split.
  - rewrite top_indices_length. lia.
  - intros i Hi. apply top_indices_subseteq in Hi.
    apply list_elem_of_fmap in Hi as ([j v] & -> & Hv). cbn [fst].
    apply scores_of_elem in Hv as (s & Hs & Hh & _).
    rewrite scores_of_entries, entries_Scores_lookup. rewrite decide_False by lia.
    rewrite Nat.sub_0_r, Hs. cbn [mbind option_bind]. by rewrite Hh.
Qed.

Lemma selected_count_is_min_witness :
  exists count,
    summary_sentences_count (length (fst (preprocess_text pets))) 0.67 = Returned count /\
    Z.of_nat (length [1%nat; 2%nat]) = Z.min count (Z.of_nat (length (scores_of pets))) /\
    forall i, i ∈ [1%nat; 2%nat] -> is_Some (Scores.lookup (scores_of pets) i).
Proof.
  apply (selected_count_is_min pets 0.67%float [1%nat; 2%nat]).
  vm_compute. reflexivity.
Defined.

(** X11. A ratio that is not a finite number makes [summarize_text] raise
    once the text has passed both guards: [ValueError] from [int] on a NaN,
    [OverflowError] on an infinity. The guards themselves do not look at
    the ratio. *)
Theorem non_finite_ratio_raises (text : string) (ratio : float) :
  (exists w, w ∈ snd (preprocess_text text) /\ w ∉ STOP_WORDS) ->
  (is_nan ratio = true -> summarize_text text ratio = Raised ValueError) /\
  (is_infinity ratio = true ->
   Z.of_nat (length (fst (preprocess_text text))) < 2 ^ 63 ->
   summarize_text text ratio = Raised OverflowError).
Proof.
  intros Hw. apply content_truthy in Hw. split.
  - intros Hn. apply summarize_text_raised; [done|].
    by apply count_of_nan, is_nan_spec.
  - intros Hi Hlen. apply summarize_text_raised; [done|].
    destruct (is_infinity_spec ratio Hi) as [s Hs].
    apply (count_of_infinity _ _ s Hs). fold (sentences_of text) in Hlen.
    assert (sentences_of text <> []) by apply split_from_nonempty.
    destruct (sentences_of text); [done|]. cbn [length] in *.
    rewrite Z.mod_small; lia.
Qed.

Lemma non_finite_ratio_raises_witness :
  (is_nan nan = true -> summarize_text pets nan = Raised ValueError) /\
  (is_infinity nan = true ->
   Z.of_nat (length (fst (preprocess_text pets))) < 2 ^ 63 ->
   summarize_text pets nan = Raised OverflowError).
Proof.
  apply (non_finite_ratio_raises pets nan).
  exists "cat"%string. split.
  - apply list_elem_of_In. vm_compute. tauto.
  - apply (bool_decide_eq_false_1 _). vm_compute. reflexivity.
Defined.

(** X12. With ratio zero of either sign the summary is one sentence: the
    desired count is [max(1, 0) = 1]. *)
Theorem zero_ratio_selects_one (text : string) (ratio : float) :
  (exists w, w ∈ snd (preprocess_text text) /\ w ∉ STOP_WORDS) ->
  (ratio =? 0)%float = true ->
  exists i s,
    selected_indices text ratio = Returned [i] /\
    fst (preprocess_text text) !! i = Some s /\
    summarize_text text ratio = Returned s.
Proof.
  intros Hw Hz. apply content_truthy in Hw.
  destruct (eqb_zero_spec ratio Hz) as [sg Hr].
  pose proof (count_of_zero (length (sentences_of text)) ratio sg Hr) as Hc.
  pose proof (top_indices_length (scores_of text) 1) as Hlen.
  pose proof (scores_of_nonempty text Hw) as Hne.
  destruct (top_indices (scores_of text) 1) as [| i [| i' idx]] eqn:Htop;
    [destruct (scores_of text); [done | cbn in Hlen; lia] | | cbn in Hlen; lia].
  pose proof (top_indices_in_range text 1) as Hr'. rewrite Htop in Hr'.
  apply Forall_cons in Hr' as [Hi _].
  destruct (lookup_lt_is_Some_2 (sentences_of text) i Hi) as [s Hs].
  exists i, s. split; [|split; [exact Hs|]].
  - rewrite (selected_indices_count text ratio 1 Hc). by rewrite Htop.
  - rewrite (summarize_text_count text ratio 1 Hw Hc), Htop. cbn.
    by rewrite (nth_lookup_Some _ _ _ _ Hs).
Qed.

Lemma zero_ratio_selects_one_witness :
  exists i s,
    selected_indices pets 0 = Returned [i] /\
    fst (preprocess_text pets) !! i = Some s /\
    summarize_text pets 0 = Returned s.
Proof.
  apply (zero_ratio_selects_one pets 0%float).
  - exists "cat"%string. split.
    + apply list_elem_of_In. vm_compute. tauto.
    + apply (bool_decide_eq_false_1 _). vm_compute. reflexivity.
  - vm_compute. reflexivity.
Defined.

(** X13. Whitespace around the text does not matter: unless the text is
    blank, [summarize_text] gives the same result on the stripped text. A
    blank text that is not empty gets the frequency message, the empty text
    its own. *)
Theorem summary_ignores_outer_whitespace (text : string) (ratio : float) :
  (strip text <> EmptyString ->
   summarize_text (strip text) ratio = summarize_text text ratio) /\
  (strip text = EmptyString -> text <> EmptyString ->
   summarize_text text ratio = Returned NO_FREQUENCIES_MESSAGE /\
   summarize_text (strip text) ratio = Returned EMPTY_INPUT_MESSAGE).
Proof.
  split.
  - intros Hne.
    assert (Ht : truthy text = true).
    { destruct text; [|done]. by destruct Hne. }
    assert (Hs : truthy (strip text) = true) by (by destruct (strip text)).
    unfold summarize_text. rewrite Ht, Hs. cbn [negb preprocess_text].
    change (findall_words (lower (strip text))) with (words_of (strip text)).
    change (findall_words (lower text)) with (words_of text).
    by rewrite strip_strip, words_of_strip.
  - intros Hs Hne. rewrite Hs. split; [|done].
    unfold summarize_text. destruct text as [| c text]; [done|].
    cbn [truthy negb preprocess_text].
    change (findall_words (lower (String c text))) with (words_of (String c text)).
    rewrite <- words_of_strip, Hs. done.
Qed.

(** X14. Letter case does not matter to the selection: the lower-cased
    text has the same selected positions, and its summary is the
    lower-cased summary of the text. *)
Theorem summary_ignores_case (text : string) (ratio : float) :
  selected_indices (lower text) ratio = selected_indices text ratio /\
  ((exists w, w ∈ snd (preprocess_text text) /\ w ∉ STOP_WORDS) ->
   forall summary,
     summarize_text text ratio = Returned summary ->
     summarize_text (lower text) ratio = Returned (lower summary)).
Proof.
  assert (Hlen : length (sentences_of (lower text)) = length (sentences_of text)).
  { by rewrite sentences_of_lower, length_fmap. }
  split.
  - by rewrite !selected_indices_unfold, scores_of_lower, Hlen.
  - intros Hw summary Hs. apply content_truthy in Hw.
    destruct (summarize_text_inv text ratio summary Hw Hs) as (count & Hc & _ & ->).
    rewrite (summarize_text_count (lower text) ratio count).
    + rewrite scores_of_lower, join_lower, <- list_fmap_compose. do 2 f_equal.
      apply list_fmap_ext. intros k i _. unfold compose.
      rewrite sentences_of_lower.
      change EmptyString with (lower EmptyString) at 1. apply map_nth.
    + by rewrite frequencies_of_lower.
    + by rewrite Hlen.
Qed.

End SelectionSpec.

(** * Length and stability of a summary *)

Module SummarySpec.
Import PyStr Re Builtins Summarizer ScoreModel SentenceShape SelectionModel.
Import TextFacts FrequencyFacts ScoreFacts SelectFacts FloatFacts SummarizerFacts.
Import SentenceFacts SummaryFacts ResummaryFacts.

(** X15. A summary is never longer than the text it is taken from. *)
Theorem summary_not_longer_than_text (text : string) (ratio : float) (summary : string) :
  (exists w, w ∈ snd (preprocess_text text) /\ w ∉ STOP_WORDS) ->
  summarize_text text ratio = Returned summary ->
  (String.length summary <= String.length (strip text) <= String.length text)%nat.
Proof.
  intros Hw Hs. apply content_truthy in Hw.
  destruct (summarize_text_inv text ratio summary Hw Hs) as (count & _ & _ & ->).
  split; [|apply length_strip].
  etransitivity; [apply length_join_sublist, picked_sublist_of|].
  apply (length_join_split_from (strip text) false false EmptyString).
Qed.

Lemma summary_not_longer_than_text_witness :
  (String.length "Dogs bark loudly." <= String.length (strip pets) <= String.length pets)%nat.
Proof.
  apply (summary_not_longer_than_text pets 0.34%float).
  - exists "cat"%string. split.
    + apply list_elem_of_In. vm_compute. tauto.
    + apply (bool_decide_eq_false_1 _). vm_compute. reflexivity.
  - vm_compute. reflexivity.
Defined.

(** X16. Summarizing a summary again at ratio 1 returns it unchanged: its
    sentences are the selected ones and each of them scores. The text has
    at most [2^53] sentences. *)
Theorem summary_is_fixed_point (text : string) (ratio : float) (summary : string) :
  (exists w, w ∈ snd (preprocess_text text) /\ w ∉ STOP_WORDS) ->
  summarize_text text ratio = Returned summary ->
  Z.of_nat (length (fst (preprocess_text text))) <= 2 ^ 53 ->
  summarize_text summary 1 = Returned summary.
Proof.
  intros Hw Hs Hn. apply content_truthy in Hw.
  destruct (summarize_text_inv text ratio summary Hw Hs) as (count & _ & Hge & ->).
  fold (picked text count).
  pose proof (resplit_picked text count Hw Hge) as Hsplit.
  assert (Hsent : sentences_of (join " " (picked text count)) = picked text count)
    by exact Hsplit.
  rewrite summarize_all_scored; rewrite Hsent.
  - done.
  - apply picked_have_content.
  - pose proof (sublist_length _ _ (picked_sublist_of text count)).
    fold (sentences_of text) in Hn. lia.
Qed.

Lemma summary_is_fixed_point_witness :
  summarize_text "Dogs bark loudly. Cats and dogs are pets." 1 =
  Returned "Dogs bark loudly. Cats and dogs are pets."%string.
Proof.
  apply (summary_is_fixed_point pets 0.67%float).
  - exists "cat"%string. split.
    + apply list_elem_of_In. vm_compute. tauto.
    + apply (bool_decide_eq_false_1 _). vm_compute. reflexivity.
  - vm_compute. reflexivity.
  - vm_compute. discriminate.
Defined.

End SummarySpec.

(** * The command line *)

Module CliSpec.
Import PyStr Re Builtins Summarizer SelectionModel Cli CliSteps.
Import TextFacts FrequencyFacts SelectFacts FloatFacts SummarizerFacts.
Import SentenceFacts SummaryFacts CliFacts.


(** X18. A command line that fails a check is turned down before any file
    is opened: with a wrong number of arguments, a ratio that is no number,
    or a ratio outside (0, 1] (a NaN included), [main] prints the one
    message of that check and leaves with status 1, whatever the file
    system holds and whatever [sys.stdout] can encode. *)
Theorem main_rejects_without_reading (float_of_str : string -> option float)
    (argv : list string) :
  (length argv <> 2%nat -> length argv <> 3%nat ->
   forall open_read stdout_encodes,
     main float_of_str open_read stdout_encodes argv = Exit [USAGE] 1) /\
  (forall prog filepath arg,
     argv = [prog; filepath; arg] -> float_of_str arg = None ->
     forall open_read stdout_encodes,
       main float_of_str open_read stdout_encodes argv =
       Exit [RATIO_NUMBER_MESSAGE] 1) /\
  (forall prog filepath arg ratio,
     argv = [prog; filepath; arg] -> float_of_str arg = Some ratio ->
     (0 <? ratio)%float = false \/ (ratio <=? 1)%float = false \/ is_nan ratio = true ->
     forall open_read stdout_encodes,
       main float_of_str open_read stdout_encodes argv =
       Exit [RATIO_RANGE_MESSAGE] 1).
Proof.
  split; [|split].
  - intros H2 H3 open_read stdout_encodes. by apply main_wrong_count.
  - intros prog filepath arg -> Hf open_read stdout_encodes.
    by rewrite main_three, Hf.
  - intros prog filepath arg ratio -> Hf Hr open_read stdout_encodes.
    rewrite main_three, Hf.
    assert (Hb : (0 <? ratio)%float && (ratio <=? 1)%float = false).
    { destruct Hr as [-> | [-> | Hn]]; [done | apply andb_false_r |].
      apply RatioFacts.is_nan_spec in Hn. rewrite ltb_spec, Hn.
      by destruct (Prim2SF 0). }
    by rewrite Hb.
Qed.

(** X19. The two counts of the report. For an accepted command line and a
    file with a non-stop word, [summarize_text] returns a summary. When
    [sys.stdout] can encode the summary, [main] ends normally: the report
    gives the number of tokenized sentences of the text, and as "Summary
    Sentence Count" the number of sentences selected, or N/A when the
    summary holds the string "Error". When it cannot, [main] ends by
    [UnicodeEncodeError] at [print(summary)], after the seven lines before
    it. *)
Theorem main_reports_counts (float_of_str : string -> option float)
    (open_read : string -> file_result) (stdout_encodes : ascii -> bool)
    (argv : list string) (filepath : string) (ratio : float) (text : string) :
  accepted float_of_str argv filepath ratio ->
  open_read filepath = FileText text ->
  (exists w, w ∈ snd (preprocess_text text) /\ w ∉ STOP_WORDS) ->
  exists summary idx out,
    summarize_text text ratio = Returned summary /\
    selected_indices text ratio = Returned idx /\
    length out = 9%nat /\
    out !! 3%nat = Some ("Original Text Sentence Count: " +:+
                         str_of_int (Z.of_nat (length (fst (preprocess_text text))))) /\
    out !! 4%nat = Some ("Summary Sentence Count: " +:+
                         if str_contains "Error" summary then "N/A"
                         else str_of_int (Z.of_nat (length idx))) /\
    out !! 7%nat = Some summary /\
    main float_of_str open_read stdout_encodes argv =
      if printable stdout_encodes summary then Done out tt
      else Uncaught (take 7 out) UnicodeEncodeError.
Proof.
  intros Hacc Ho Hw.
  destruct (accepted_unit _ _ _ _ Hacc) as [H0 H1].
  destruct (summarize_text_returns text ratio H0 H1) as (summary & Hs).
  pose proof (content_truthy text Hw) as Hf.
  destruct (summarize_text_inv text ratio summary Hf Hs) as (count & Hc & Hge & Hsum).
  pose proof (resplit_picked text count Hf Hge) as Hsplit. unfold picked in Hsplit.
  rewrite <- Hsum in Hsplit.
  exists summary, (top_indices (scores_of text) count), (report text ratio summary).
  split; [done|]. split; [by apply selected_indices_count|].
  split; [done|]. split; [done|]. split; [|split; [done|]].
  - cbn [report lookup list_lookup]. unfold summary_count_str.
    assert (Ht : truthy summary = true).
    { pose proof (summary_nonempty text count Hf Hge) as Hne. rewrite <- Hsum in Hne.
      by destruct summary. }
    rewrite Ht. cbn [andb]. destruct (str_contains "Error" summary); cbn [negb]; [done|].
    by rewrite Hsplit, length_fmap.
  - rewrite (main_accepted _ open_read stdout_encodes _ _ _ Hacc).
    unfold read_and_report, read_text. rewrite Ho. cbn [mbind run_bind].
    by rewrite printed_nil, (summarize_and_report_spec _ _ _ _ Hs).
Qed.

Lemma main_reports_counts_witness :
  exists summary idx out,
    summarize_text pets 0.2 = Returned summary /\
    selected_indices pets 0.2 = Returned idx /\
    length out = 9%nat /\
    out !! 3%nat = Some ("Original Text Sentence Count: " +:+
                         str_of_int (Z.of_nat (length (fst (preprocess_text pets))))) /\
    out !! 4%nat = Some ("Summary Sentence Count: " +:+
                         if str_contains "Error" summary then "N/A"
                         else str_of_int (Z.of_nat (length idx))) /\
    out !! 7%nat = Some summary /\
    main (fun _ => None) (fun _ => FileText pets) (fun _ => false)
         ["summarizer"; "pets.txt"]%string =
      if printable (fun _ => false) summary then Done out tt
      else Uncaught (take 7 out) UnicodeEncodeError.
Proof.
  apply (main_reports_counts (fun _ => None) (fun _ => FileText pets) (fun _ => false)
           ["summarizer"; "pets.txt"]%string "pets.txt" 0.2%float pets).
  - constructor.
  - reflexivity.
  - exists "cat"%string. split.
    + apply list_elem_of_In. vm_compute. tauto.
    + apply (bool_decide_eq_false_1 _). vm_compute. reflexivity.
Defined.

(** On a standard output that has ASCII only, a summary with an accented
    letter ends [main] at [print(summary)]. *)
Example accented_summary_on_ascii_stdout :
  exists out,
    main (fun _ => None)
         (fun _ => FileText (String (ascii_of_nat 233) " is open."))
         (fun _ => false) ["summarizer"; "menu.txt"]%string
    = Uncaught out UnicodeEncodeError /\ length out = 7%nat.
Proof. eexists. split; [vm_compute; reflexivity | reflexivity]. Qed.

(** X20. A file without any non-stop word, the empty file included, is no
    failure to [main]: it ends normally, and the report carries the message
    of [summarize_text] in place of the summary and N/A as its sentence
    count. *)
Theorem main_reports_summarizer_errors (float_of_str : string -> option float)
    (open_read : string -> file_result) (stdout_encodes : ascii -> bool)
    (argv : list string) (filepath : string) (ratio : float) (text : string) :
  accepted float_of_str argv filepath ratio ->
  open_read filepath = FileText text ->
  (forall w, w ∈ snd (preprocess_text text) -> w ∈ STOP_WORDS) ->
  exists out,
    main float_of_str open_read stdout_encodes argv = Done out tt /\
    out !! 4%nat = Some "Summary Sentence Count: N/A"%string /\
    out !! 7%nat = Some (if truthy text then NO_FREQUENCIES_MESSAGE
                         else EMPTY_INPUT_MESSAGE).
Proof.
  intros Hacc Ho Hall.
  assert (Hf : Counter.truthy (frequencies_of text) = false).
  { apply not_true_is_false. intros Ht.
    apply truthy_is_Some in Ht as [w Hw].
    apply calculate_word_frequencies_is_Some in Hw as [Hw Hs]. by apply Hs, Hall. }
  set (msg := if truthy text then NO_FREQUENCIES_MESSAGE else EMPTY_INPUT_MESSAGE).
  assert (Hs : summarize_text text ratio = Returned msg).
  { destruct (summarize_text_cases text ratio)
      as [[-> H] | [(Hne & _ & H) | (Ht & _)]]; [done | | congruence].
    subst msg. by destruct text. }
  assert (Hp : printable stdout_encodes msg = true).
  { apply printable_ascii. subst msg. destruct (truthy text); vm_compute; reflexivity. }
  exists (report text ratio msg). split.
  { rewrite (main_accepted _ open_read stdout_encodes _ _ _ Hacc).
    unfold read_and_report, read_text. rewrite Ho. cbn [mbind run_bind].
    by rewrite printed_nil, (summarize_and_report_spec _ _ _ _ Hs), Hp. }
  split; [|done].
  cbn [report lookup list_lookup]. unfold summary_count_str.
  assert (Hc : str_contains "Error" msg = true).
  { subst msg. destruct (truthy text); vm_compute; reflexivity. }
  rewrite Hc. by rewrite andb_false_r.
Qed.

Lemma main_reports_summarizer_errors_witness :
  exists out,
    main (fun _ => None) (fun _ => FileText "The. An. Is.") (fun _ => false)
      ["summarizer"; "stop.txt"]%string = Done out tt /\
    out !! 4%nat = Some "Summary Sentence Count: N/A"%string /\
    out !! 7%nat = Some (if truthy "The. An. Is." then NO_FREQUENCIES_MESSAGE
                         else EMPTY_INPUT_MESSAGE).
Proof.
  apply (main_reports_summarizer_errors (fun _ => None)
           (fun _ => FileText "The. An. Is.") (fun _ => false)
           ["summarizer"; "stop.txt"]%string "stop.txt" 0.2%float).
  - constructor.
  - reflexivity.
  - intros w Hw. apply list_elem_of_In in Hw. vm_compute in Hw.
    apply elem_of_list_to_set.
    destruct Hw as [<- | [<- | [<- | []]]]; apply list_elem_of_In; vm_compute; tauto.
Defined.

End CliSpec.

(** * The ratio in the report *)

Module FormatSpec.
Import Cli CliSteps FloatFacts TextFacts FormatFacts CliFacts.

(** X21. The ratio of the report header. For a ratio in (0, 1], the only
    ones [main] goes on with, [f"{ratio:.2f}"] is four characters long: the
    number of hundredths nearest to the ratio, from 0.00 to 1.00. *)
Theorem report_ratio_two_decimals (ratio : float) :
  (0 <? ratio)%float = true -> (ratio <=? 1)%float = true ->
  exists m e h,
    Prim2SF ratio = S754_finite false m e /\ e < 0 /\ 0 <= h <= 100 /\
    (2 * h - 1) * 2 ^ (- e) <= 200 * Zpos m <= (2 * h + 1) * 2 ^ (- e) /\
    format_2f ratio = str_of_int (h / 100) +:+ "." +:+ two_digits (h mod 100) /\
    String.length (format_2f ratio) = 4%nat.
Proof.
  intros H0 H1.
  destruct (Prim2SF_unit_interval ratio H0 H1) as (m & e & Hr & Hd & _ & _ & He).
  assert (Hneg : e < 0) by lia.
  assert (Hm : Zpos m <= 2 ^ (- e)).
  { destruct He as [He | [-> Hm]]; [|exact Hm].
    pose proof (digits2_pos_bounds m) as [_ Hhi].
    assert (2 ^ Zpos (digits2_pos m) <= 2 ^ (- e)) by (apply Z.pow_le_mono_r; lia).
    lia. }
  assert (Hpos : 0 < 2 ^ (- e)) by (apply Z.pow_pos_nonneg; lia).
  set (h := round_half_even (Zpos m * 100) (2 ^ (- e))).
  assert (Hh : 0 <= h <= 100) by (apply round_half_even_bounds; lia).
  pose proof (round_half_even_spec (Zpos m * 100) (2 ^ (- e)) ltac:(lia) Hpos) as Hs.
  fold h in Hs.
  assert (Hfmt : format_2f ratio =
                 str_of_int (h / 100) +:+ "." +:+ two_digits (h mod 100)).
  { unfold format_2f. rewrite Hr. unfold hundredths.
    destruct (Z.leb_spec 0 e); [lia|]. fold h. cbn [sign_str]. by rewrite append_nil. }
  exists m, e, h. split; [done|]. split; [done|]. split; [done|].
  split; [lia|]. split; [done|].
  rewrite Hfmt. by apply format_hundredths_length.
Qed.

(** Ties go to the even hundredth, and the value rounded is the binary one. *)
Example format_2f_samples :
  (format_2f 0.2, format_2f 0.125, format_2f 0.375, format_2f 0.995, format_2f 1) =
  ("0.20", "0.12", "0.38", "0.99", "1.00")%string.
Proof. vm_compute. reflexivity. Qed.

Lemma report_ratio_two_decimals_witness :
  exists m e h,
    Prim2SF 0.2 = S754_finite false m e /\ e < 0 /\ 0 <= h <= 100 /\
    (2 * h - 1) * 2 ^ (- e) <= 200 * Zpos m <= (2 * h + 1) * 2 ^ (- e) /\
    format_2f 0.2 = str_of_int (h / 100) +:+ "." +:+ two_digits (h mod 100) /\
    String.length (format_2f 0.2) = 4%nat.
Proof. apply (report_ratio_two_decimals 0.2%float); vm_compute; reflexivity. Defined.

End FormatSpec.

(** * The loop nest on any matrices *)

Module MatMulGeneral.
Import MatMul MatMulLoops MatMulFacts MatMulMore MatMulHeap MatMulHeapFacts.

(** X22. The loop nest on any matrices that fit and whose [result] shares
    no row object with [X], [Y] or itself: for [X] of [n] rows of [m]
    entries, [Y] of [m] rows of [p] entries ([m > 0], as the loop reads
    [Y[0]]) and [result] of [n] rows of [p] entries, it ends without
    raising, changes no object but the rows of [result], and has added to
    every entry of [result] the sum over [k] of [X[i][k] * Y[k][j]]. *)
Theorem multiply_accumulates (X Y result : list nat) (h : heap) (n m p : nat) :
  separate X Y result ->
  shaped (view h X) n m -> shaped (view h Y) m p -> shaped (view h result) n p ->
  (0 < m)%nat ->
  exists h',
    MatMulHeap.multiply X Y result h = Returned h' /\
    (forall a, a ∉ result -> h' a = h a) /\
    shaped (view h' result) n p /\
    forall i j, (i < n)%nat -> (j < p)%nat ->
      exists a d, entry (view h result) i j = Some a /\
                  dot (view h X) (view h Y) i j m = Some d /\
                  entry (view h' result) i j = Some (a + d).
Proof.
  intros Hsep HX HY HR Hm.
  destruct (multiply_spec _ _ n m p HX HY (view h result) Hm HR)
    as (R' & Hrun & Hshape & Hent).
  pose proof (multiply_in_step X Y result h Hsep h (view h result)
                (conj eq_refl (fun a _ => eq_refl))) as Hstep.
  rewrite Hrun in Hstep. destruct Hstep as (h' & Hh' & Hv & Hout).
  exists h'. split; [done|]. split; [done|]. by rewrite Hv.
Qed.

Lemma multiply_accumulates_witness :
  exists h',
    MatMulHeap.multiply [0; 1; 2]%nat [3; 4; 5]%nat [6; 7; 8]%nat script_heap
      = Returned h' /\
    (forall a, a ∉ [6; 7; 8]%nat -> h' a = script_heap a) /\
    shaped (view h' [6; 7; 8]%nat) 3 4 /\
    forall i j, (i < 3)%nat -> (j < 4)%nat ->
      exists a d, entry (view script_heap [6; 7; 8]%nat) i j = Some a /\
                  dot (view script_heap [0; 1; 2]%nat) (view script_heap [3; 4; 5]%nat)
                      i j 3 = Some d /\
                  entry (view h' [6; 7; 8]%nat) i j = Some (a + d).
Proof.
  apply (multiply_accumulates [0; 1; 2]%nat [3; 4; 5]%nat [6; 7; 8]%nat
           script_heap 3 3 4).
  - split.
    + apply NoDup_ListNoDup. repeat constructor; cbn; lia.
    + intros a Ha. apply list_elem_of_In in Ha. cbn in Ha.
      split; intros Hin; apply list_elem_of_In in Hin; cbn in Hin; lia.
  - by repeat constructor.
  - by repeat constructor.
  - by repeat constructor.
  - lia.
Defined.

(** X23. The loops make no check of the inner dimension: entries of a row
    of [X] beyond the first [len(Y)] are never read, so an [X] that is too
    wide gives, without error, the result of its first [len(Y)] columns
    ([result] sharing no row object with [X], [Y] or itself). *)
Theorem multiply_ignores_extra_columns (X Y result : list nat) (h : heap)
    (n m p : nat) :
  separate X Y result ->
  length X = n -> Forall (fun a => (m <= length (h a))%nat) X ->
  shaped (view h Y) m p -> shaped (view h result) n p -> (0 < m)%nat ->
  exists h',
    MatMulHeap.multiply X Y result h = Returned h' /\
    shaped (view h' result) n p /\
    forall i j, (i < n)%nat -> (j < p)%nat ->
      exists a d, entry (view h result) i j = Some a /\
                  dot (view h X) (view h Y) i j m = Some d /\
                  entry (view h' result) i j = Some (a + d).
Proof.
  intros Hsep Hn Hw HY HR Hm.
  assert (HX : shaped (take m <$> view h X) n m).
  { apply shaped_take; [unfold view; by rewrite length_fmap|].
    unfold view. by apply Forall_fmap. }
  assert (Heq : MatMul.multiply (view h X) (view h Y) (view h result) =
                MatMul.multiply (take m <$> view h X) (view h Y) (view h result)).
  { rewrite <- (proj1 HY). rewrite !multiply_loops, length_fmap. symmetry.
    apply for_range_ext. intros i R _. apply body_i_take. }
  destruct (multiply_spec _ _ n m p HX HY (view h result) Hm HR)
    as (R' & Hrun & Hshape & Hent).
  pose proof (multiply_in_step X Y result h Hsep h (view h result)
                (conj eq_refl (fun a _ => eq_refl))) as Hstep.
  rewrite Heq, Hrun in Hstep. destruct Hstep as (h' & Hh' & Hv & Hout).
  exists h'. split; [done|]. rewrite Hv. split; [done|].
  intros i j Hi Hj. destruct (Hent i j Hi Hj) as (a & d & Ha & Hd & He).
  exists a, d. split; [done|]. split; [|done].
  by rewrite <- (dot_take (view h X) (view h Y) m i j m).
Qed.

Lemma multiply_ignores_extra_columns_witness :
  exists h',
    MatMulHeap.multiply [0%nat] [1; 2]%nat [3%nat] wide_heap = Returned h' /\
    shaped (view h' [3%nat]) 1 1 /\
    forall i j, (i < 1)%nat -> (j < 1)%nat ->
      exists a d, entry (view wide_heap [3%nat]) i j = Some a /\
                  dot (view wide_heap [0%nat]) (view wide_heap [1; 2]%nat) i j 2 = Some d /\
                  entry (view h' [3%nat]) i j = Some (a + d).
Proof.
  apply (multiply_ignores_extra_columns [0%nat] [1; 2]%nat [3%nat] wide_heap 1 2 1).
  - split.
    + apply NoDup_ListNoDup. repeat constructor; cbn; lia.
    + intros a Ha. apply list_elem_of_In in Ha. cbn in Ha.
      split; intros Hin; apply list_elem_of_In in Hin; cbn in Hin; lia.
  - reflexivity.
  - repeat constructor.
  - by repeat constructor.
  - by repeat constructor.
  - lia.
Defined.

(** The entry of the wide matrix is [1 * 3 + 2 * 4]. *)
Example wide_matrix_no_error :
  (h' ← MatMulHeap.multiply [0%nat] [1; 2]%nat [3%nat] wide_heap; Returned (h' 3%nat))
  = Returned [11].
Proof. vm_compute. reflexivity. Qed.

(** Rows that are one object change together: on [result = [[0] * 1] * 2]
    both rows end as the sum of what the loops add to either. *)
Example shared_rows_change_together :
  (h' ← MatMulHeap.multiply [0; 1]%nat [2%nat] [3; 3]%nat
          (fun a => nth a [[5]; [7]; [1]; [0]] []);
   Returned (view h' [3; 3]%nat))
  = Returned [[12]; [12]].
Proof. vm_compute. reflexivity. Qed.

(** On the row objects of the script the heap run ends as the run on
    values does. *)
Example script_on_row_objects :
  (h' ← MatMulHeap.multiply [0; 1; 2]%nat [3; 4; 5]%nat [6; 7; 8]%nat script_heap;
   Returned (view h' [6; 7; 8]%nat))
  = script.
Proof. vm_compute. reflexivity. Qed.

End MatMulGeneral.
